(** * Bybit_vol: rolling volatility of returns, batch collection and ranking

    A shallow embedding of [main.py].  The program fetches kline data per
    symbol, builds a pandas frame (reversed provider order, numeric close,
    percentage returns, rolling standard deviation), collects the latest
    rolling value per symbol in two dicts and renders a ranked bar chart.

    Numbers.  Finite floats are exact rationals.  The close and return
    columns hold an [xfloat]: a finite number, an infinity (of either sign,
    which plays no part in what the program computes from it) or the missing
    value NaN.  The rolling column and the colour column hold a [float]: a
    finite number or NaN; no infinity reaches them.  The square root, the
    text-to-float conversion, the clock, the provider, the construction of
    the frame from the delivered rows and the sort routine are parameters of
    the program; [Numpy] and [Pandas] give the sort routine of numpy's
    portable quicksort. *)

From Stdlib Require Import String ZArith QArith Qminmax Lqa Lia Bool Arith List.
From Stdlib Require Import Permutation Sorted.
Import ListNotations.
Open Scope string_scope.
Open Scope nat_scope.

(** ** Exceptions and the error monad *)

Record exn := mkExn { exn_class : string; exn_msg : string }.

Definition ValueError (msg : string) : exn := mkExn "ValueError" msg.
Definition IndexError (msg : string) : exn := mkExn "IndexError" msg.

(** [str(e)] of a Python exception built from one message. *)
Definition str (e : exn) : string := exn_msg e.

Inductive outcome (A : Type) : Type :=
| Ok (a : A)
| Raise (e : exn).
Arguments Ok {A} a.
Arguments Raise {A} e.

Definition bind {A B} (c : outcome A) (k : A -> outcome B) : outcome B :=
  match c with
  | Ok a => k a
  | Raise e => Raise e
  end.

Notation "x <- c ;; k" := (bind c (fun x => k))
  (at level 61, c at next level, right associativity).

(** [try: body except Exception as e: handler e] *)
Definition try_except {A} (body : outcome A) (handler : exn -> outcome A)
  : outcome A :=
  match body with
  | Ok a => Ok a
  | Raise e => handler e
  end.

(** ** Float cells *)

Definition float := option Q.
Definition NaN : float := None.

Definition isna (x : float) : bool :=
  match x with
  | Some _ => false
  | None => true
  end.

Definition fsub (a b : float) : float :=
  match a, b with
  | Some x, Some y => Some (x - y)%Q
  | _, _ => NaN
  end.

(** Division for the colour column.  There the divisor is zero only when
    the dividend is zero too, and zero over zero is [NaN]. *)
Definition fdiv (a b : float) : float :=
  match a, b with
  | Some x, Some y => if Qeq_bool y 0 then NaN else Some (x / y)%Q
  | _, _ => NaN
  end.

(** ** Cells of the close and return columns *)

Inductive xfloat :=
| XNum (q : Q)
| XInf
| XNaN.

(** [pd.isna]: an infinity is not missing. *)
Definition xisna (x : xfloat) : bool :=
  match x with
  | XNaN => true
  | _ => false
  end.

(** Float division: a non-zero number over zero is an infinity, zero over
    zero and infinity over infinity are [NaN], a number over an infinity is
    zero. *)
Definition xdiv (a b : xfloat) : xfloat :=
  match a, b with
  | XNaN, _ | _, XNaN => XNaN
  | XNum x, XNum y =>
      if Qeq_bool y 0
      then (if Qeq_bool x 0 then XNaN else XInf)
      else XNum (x / y)%Q
  | XNum _, XInf => XNum 0%Q
  | XInf, XNum _ => XInf
  | XInf, XInf => XNaN
  end.

(** Float subtraction of a finite number. *)
Definition xsub (a : xfloat) (b : Q) : xfloat :=
  match a with
  | XNum x => XNum (x - b)%Q
  | XInf => XInf
  | XNaN => XNaN
  end.

(** What a window function reads in a cell: pandas turns an infinity into
    [NaN] before it aggregates. *)
Definition prep (x : xfloat) : float :=
  match x with
  | XNum q => Some q
  | _ => NaN
  end.

(** ** pandas Series operations used by the program *)

Module Series.

(** [s.ffill()]: a missing cell takes the last value seen before it. *)
Fixpoint ffill_from (prev : xfloat) (s : list xfloat) : list xfloat :=
  match s with
  | [] => []
  | x :: r =>
      let y := match x with XNaN => prev | _ => x end in
      y :: ffill_from y r
  end.

Definition ffill (s : list xfloat) : list xfloat := ffill_from XNaN s.

(** [s.shift(1)]: same length, a missing cell at the head. *)
Definition shift (s : list xfloat) : list xfloat :=
  match s with
  | [] => []
  | _ :: _ => XNaN :: removelast s
  end.

Fixpoint zip_with {A B C} (f : A -> B -> C) (l : list A) (r : list B) : list C :=
  match l, r with
  | a :: l', b :: r' => f a b :: zip_with f l' r'
  | _, _ => []
  end.

(** [s.pct_change()]: [data / data.shift(1) - 1], where [data] is the
    forward-filled series when the installed pandas pads by default. *)
Definition pct_change (pad : bool) (s : list xfloat) : list xfloat :=
  let data := if pad then ffill s else s in
  zip_with (fun a b => xsub (xdiv a b) 1%Q) data (shift data).

(** Bounds of the fixed window of size [w] closing at position [i]:
    [start = max 0 (i + 1 - w)], [end = i + 1]. *)
Definition window_start (w i : nat) : nat := i + 1 - w.

Definition window_at (w i : nat) (s : list float) : list float :=
  firstn (i + 1 - window_start w i) (skipn (window_start w i) s).

(** The observations of a window: its non-missing cells. *)
Fixpoint observations (win : list float) : list Q :=
  match win with
  | [] => []
  | Some q :: r => q :: observations r
  | None :: r => observations r
  end.

(** [s.rolling(window=w, min_periods=minp).agg()]: at each position the
    aggregate of the window's observations, missing when there are fewer
    than [minp] of them. *)
Definition rolling (w minp : nat) (agg : list Q -> float) (s : list float)
  : list float :=
  map (fun i =>
         let obs := observations (window_at w i s) in
         if length obs <? minp then NaN else agg obs)
      (seq 0 (length s)).

Definition Qsum (l : list Q) : Q := fold_right Qplus 0%Q l.

Definition mean (obs : list Q) : Q :=
  (Qsum obs / inject_Z (Z.of_nat (length obs)))%Q.

(** Variance with [ddof] delta degrees of freedom: the divisor is
    [N - ddof]; missing when there are not more than [ddof] observations. *)
Definition var (ddof : nat) (obs : list Q) : float :=
  if length obs <=? ddof then NaN
  else
    let m := mean obs in
    Some (Qsum (map (fun x => (x - m) * (x - m))%Q obs)
          / inject_Z (Z.of_nat (length obs - ddof)))%Q.

(** [s.iloc[-1]] *)
Fixpoint iloc_last {A} (s : list A) : outcome A :=
  match s with
  | [] => Raise (IndexError "single positional indexer is out-of-bounds")
  | [x] => Ok x
  | _ :: r => iloc_last r
  end.

End Series.

(** ** Python dicts: insertion-ordered, one entry per key *)

Module Dict.

Definition t (V : Type) := list (string * V).

Definition empty {V} : t V := [].

(** [d[k] = v]: an existing key keeps its position and takes the new
    value, a new key goes to the end. *)
Fixpoint set {V} (k : string) (v : V) (d : t V) : t V :=
  match d with
  | [] => [(k, v)]
  | (k', v') :: r =>
      if String.eqb k k' then (k', v) :: r else (k', v') :: set k v r
  end.

Fixpoint get {V} (k : string) (d : t V) : option V :=
  match d with
  | [] => None
  | (k', v') :: r => if String.eqb k k' then Some v' else get k r
  end.

Definition keys {V} (d : t V) : list string := map fst d.

(** [list(d.items())] *)
Definition items {V} (d : t V) : list (string * V) := d.

(** Truth value of a dict: non-empty. *)
Definition truthy {V} (d : t V) : bool :=
  match d with
  | [] => false
  | _ :: _ => true
  end.

End Dict.

(** ** Provider data *)

(** A cell of an object column: text as delivered, or a float. *)
Inductive cell :=
| Str (s : string)
| Num (x : xfloat).

(** One row of the frame once it is built and its timestamp converted
    (lines 35-36): the instant of the row, in milliseconds since the epoch
    ([None] is [NaT], what a missing timestamp converts to), and the other
    six columns as delivered. *)
Record candle := mkCandle {
  Timestamp : option Z;
  Open : cell;
  High : cell;
  Low : cell;
  Close : cell;
  Volume : cell;
  Quote_Asset_Volume : cell
}.

(** The response of [get_kline]: a dict that may hold ['result'], which may
    hold ['list'], the rows as delivered: each a list of cells. *)
Record result_obj := mkResultObj { list_ : option (list (list cell)) }.
Record response := mkResponse { result_ : option result_obj }.

(** The frame returned by [fetch_and_analyze_crypto_price]: the kline rows
    and the two derived columns. *)
Record DataFrame := mkDF {
  rows : list candle;
  Returns : list xfloat;
  Rolling_Std_4h : list float
}.

(** ** Streamlit output *)

Inductive figure :=
| px_bar (bars : list (string * Q * float))
| px_line (symbol : string) (points : list (option Z * float)).

Inductive ui_event :=
| st_error (msg : string)
| st_plotly_chart (fig : figure).

(** The state of [fetch_data_and_plot]: its two dicts and what it has sent
    to the page so far. *)
Record batch := mkBatch {
  result : Dict.t Q;
  dfs : Dict.t DataFrame;
  ui : list ui_event
}.

(** ** The sort behind [sort_values]

    [sort_values] with its default kind hands the column to numpy's
    [argsort(kind='quicksort')].  [Numpy] is numpy's portable quicksort for
    an index array ([aquicksort_] and [aheapsort_] of [npysort]): an
    introsort that partitions around the median of three while a segment
    spans more than [SMALL_QUICKSORT] positions, sorts the segments left by
    insertion, and falls back on heapsort when the depth limit is used up.
    [v] is the array of values, [tosort] the index array, [pl], [pr], [pi],
    [pj], [pk], [pm] are positions in the index array. *)

Module Numpy.

(** [Tag::less] on floats that are numbers. *)
Definition less (a b : Q) : bool := negb (Qle_bool b a).

(** [*p] and [v[*p]]. *)
Definition deref (tosort : list nat) (p : nat) : nat := nth p tosort 0.

Definition value (v : list Q) (tosort : list nat) (p : nat) : Q :=
  nth (deref tosort p) v 0%Q.

(** [*p = x] for a position inside the array. *)
Definition store (tosort : list nat) (p x : nat) : list nat :=
  (firstn p tosort ++ x :: skipn (S p) tosort)%list.

Definition INTP_SWAP (tosort : list nat) (p q : nat) : list nat :=
  store (store tosort p (deref tosort q)) q (deref tosort p).

Definition SMALL_QUICKSORT : nat := 16.

(** [npy_get_msb]: the position of the highest set bit. *)
Definition npy_get_msb (num : nat) : Z := Z.log2 (Z.of_nat num).

(** [while (pj > pl && less(vp, v[*pk])) { *pj-- = *pk--; }] with
    [pk = pj - 1]; the value is the final [pj] and the array. *)
Fixpoint shift_up (fuel : nat) (v : list Q) (vp : Q) (pl pj : nat) (tosort : list nat)
  : nat * list nat :=
  match fuel with
  | 0 => (pj, tosort)
  | S fuel' =>
      if (pl <? pj) && less vp (value v tosort (pj - 1))
      then shift_up fuel' v vp pl (pj - 1) (store tosort pj (deref tosort (pj - 1)))
      else (pj, tosort)
  end.

(** [for (pi = pl + 1; pi <= pr; ++pi)]: [count] turns are left. *)
Fixpoint insertion (count : nat) (v : list Q) (pl pi : nat) (tosort : list nat)
  : list nat :=
  match count with
  | 0 => tosort
  | S count' =>
      let vi := deref tosort pi in
      let vp := nth vi v 0%Q in
      let '(pj, shifted) := shift_up pi v vp pl pi tosort in
      insertion count' v pl (S pi) (store shifted pj vi)
  end.

Definition insertion_sort (v : list Q) (pl pr : nat) (tosort : list nat) : list nat :=
  insertion (pr - pl) v pl (pl + 1) tosort.

(** [do { ++pi; } while (less(v[*pi], vp));] *)
Fixpoint scan_up (fuel : nat) (v : list Q) (vp : Q) (pi : nat) (tosort : list nat) : nat :=
  match fuel with
  | 0 => pi
  | S fuel' =>
      if less (value v tosort (S pi)) vp
      then scan_up fuel' v vp (S pi) tosort
      else S pi
  end.

(** [do { --pj; } while (less(vp, v[*pj]));] *)
Fixpoint scan_down (fuel : nat) (v : list Q) (vp : Q) (pj : nat) (tosort : list nat) : nat :=
  match fuel with
  | 0 => pj
  | S fuel' =>
      if less vp (value v tosort (pj - 1))
      then scan_down fuel' v vp (pj - 1) tosort
      else pj - 1
  end.

(** The [for (;;)] of the partition; the value is the final [pi] and the
    array. *)
Fixpoint partition_loop (fuel : nat) (v : list Q) (vp : Q) (pi pj : nat)
    (tosort : list nat) : nat * list nat :=
  match fuel with
  | 0 => (pi, tosort)
  | S fuel' =>
      let pi' := scan_up (length tosort) v vp pi tosort in
      let pj' := scan_down (length tosort) v vp pj tosort in
      if pj' <=? pi'
      then (pi', tosort)
      else partition_loop fuel' v vp pi' pj' (INTP_SWAP tosort pi' pj')
  end.

(** The median of three of [pl], [pm], [pr], moved to [pm]. *)
Definition median_of_three (v : list Q) (pl pm pr : nat) (tosort : list nat) : list nat :=
  let t1 := if less (value v tosort pm) (value v tosort pl)
            then INTP_SWAP tosort pm pl else tosort in
  let t2 := if less (value v t1 pr) (value v t1 pm)
            then INTP_SWAP t1 pr pm else t1 in
  if less (value v t2 pm) (value v t2 pl) then INTP_SWAP t2 pm pl else t2.

(** A segment waiting on the stack, with the depth left for it. *)
Definition frame : Type := nat * nat * Z.

(** [while ((pr - pl) > SMALL_QUICKSORT)]: partition, push the larger part,
    go on with the smaller.  The value is the array, the segment left for
    insertion and the stack. *)
Fixpoint quicksort_partition (fuel : nat) (v : list Q) (tosort : list nat)
    (pl pr : nat) (stack : list frame) (cdepth : Z)
  : list nat * nat * nat * list frame :=
  match fuel with
  | 0 => (tosort, pl, pr, stack)
  | S fuel' =>
      if SMALL_QUICKSORT <? pr - pl
      then
        let pm := pl + Nat.div2 (pr - pl) in
        let t1 := median_of_three v pl pm pr tosort in
        let vp := value v t1 pm in
        let t2 := INTP_SWAP t1 pm (pr - 1) in
        let '(pi, t3) := partition_loop (length tosort) v vp pl (pr - 1) t2 in
        let t4 := INTP_SWAP t3 pi (pr - 1) in
        let cdepth' := (cdepth - 1)%Z in
        if pi - pl <? pr - pi
        then quicksort_partition fuel' v t4 pl (pi - 1)
                                 ((pi + 1, pr, cdepth') :: stack) cdepth'
        else quicksort_partition fuel' v t4 (pi + 1) pr
                                 ((pl, pi - 1, cdepth') :: stack) cdepth'
      else (tosort, pl, pr, stack)
  end.

(** The heap of [aheapsort_] is [a[1..n]] with [a = start - 1]. *)
Definition heap_get (tosort : list nat) (start k : nat) : nat :=
  deref tosort (start + k - 1).

Definition heap_set (tosort : list nat) (start k x : nat) : list nat :=
  store tosort (start + k - 1) x.

(** [for (i, j; j <= n;)] of both phases: the value is the final [i] and the
    array. *)
Fixpoint sift (fuel : nat) (v : list Q) (start n tmp i j : nat) (tosort : list nat)
  : nat * list nat :=
  match fuel with
  | 0 => (i, tosort)
  | S fuel' =>
      if j <=? n
      then
        let j1 := if (j <? n) && less (nth (heap_get tosort start j) v 0%Q)
                                      (nth (heap_get tosort start (j + 1)) v 0%Q)
                  then j + 1 else j in
        if less (nth tmp v 0%Q) (nth (heap_get tosort start j1) v 0%Q)
        then sift fuel' v start n tmp j1 (j1 + j1)
                  (heap_set tosort start i (heap_get tosort start j1))
        else (i, tosort)
      else (i, tosort)
  end.

(** [for (l = n >> 1; l > 0; --l)] *)
Fixpoint heapify (l : nat) (v : list Q) (start n : nat) (tosort : list nat) : list nat :=
  match l with
  | 0 => tosort
  | S l' =>
      let tmp := heap_get tosort start l in
      let '(i, t1) := sift n v start n tmp l (l + l) tosort in
      heapify l' v start n (heap_set t1 start i tmp)
  end.

(** [for (; n > 1;)] *)
Fixpoint heap_drain (n : nat) (v : list Q) (start : nat) (tosort : list nat) : list nat :=
  match n with
  | 0 => tosort
  | S n' =>
      if 1 <? n
      then
        let tmp := heap_get tosort start n in
        let t1 := heap_set tosort start n (heap_get tosort start 1) in
        let '(i, t2) := sift n v start n' tmp 1 2 t1 in
        heap_drain n' v start (heap_set t2 start i tmp)
      else tosort
  end.

Definition aheapsort (v : list Q) (tosort : list nat) (start n : nat) : list nat :=
  heap_drain n v start (heapify (Nat.div2 n) v start n tosort).

(** The [while (1)] of [aquicksort_]: one segment per turn. *)
Fixpoint quicksort_loop (fuel : nat) (v : list Q) (tosort : list nat)
    (pl pr : nat) (stack : list frame) (cdepth : Z) : list nat :=
  match fuel with
  | 0 => tosort
  | S fuel' =>
      let '(sorted, stack') :=
        if (cdepth <? 0)%Z
        then (aheapsort v tosort pl (pr - pl + 1), stack)
        else
          let '(t1, pl1, pr1, stack1) :=
            quicksort_partition (length tosort) v tosort pl pr stack cdepth in
          (insertion_sort v pl1 pr1 t1, stack1) in
      match stack' with
      | [] => sorted
      | (pl2, pr2, cdepth2) :: rest => quicksort_loop fuel' v sorted pl2 pr2 rest cdepth2
      end
  end.

Definition aquicksort (v : list Q) (tosort : list nat) (num : nat) : list nat :=
  quicksort_loop (S num) v tosort 0 (num - 1) [] (npy_get_msb num * 2)%Z.

(** [v.argsort(kind='quicksort')] *)
Definition argsort (v : list Q) : list nat :=
  aquicksort v (seq 0 (length v)) (length v).

End Numpy.

Module Pandas.

(** [nargsort(items, kind='quicksort', ascending=False)] on a column without
    missing values: the column and its positions are reversed, sorted
    ascending, and the positions found are reversed again. *)
Definition nargsort (items : list Q) : list nat :=
  let idx := seq 0 (length items) in
  let non_nans := rev items in
  let non_nan_idx := rev idx in
  let indexer := map (fun k => nth k non_nan_idx 0) (Numpy.argsort non_nans) in
  rev indexer.

(** [df.sort_values(by='Rolling_Std_4h', ascending=False)] on the two-column
    frame of [plot_data]: the rows taken at the positions of [nargsort]. *)
Definition sort_values (df : list (string * Q)) : list (string * Q) :=
  map (fun i => nth i df (EmptyString, 0%Q)) (nargsort (map snd df)).

End Pandas.

(** ** The ranking of the specification *)

(** An entry enters a ranking that is non-increasing in value before the
    first entry whose value is not greater than its own. *)
Fixpoint insert_desc {A : Type} (key : A -> Q) (x : A) (ranking : list A) : list A :=
  match ranking with
  | [] => [x]
  | k :: rest =>
      if Qle_bool (key k) (key x)
      then x :: ranking
      else k :: insert_desc key x rest
  end.

(** Sorted by value descending, entries of equal value in the order of the
    input: the entries enter the ranking from the last to the first. *)
Definition stable_rank {A : Type} (key : A -> Q) (entries : list A) : list A :=
  fold_right (insert_desc key) [] entries.

(** ** What the sort does to the index array, in words

    The notions in which the loops of [Numpy] are verified. *)

(** [t'] is [t] with the positions [pl..pr] rearranged among themselves. *)
Definition rearranged (pl pr : nat) (t t' : list nat) : Prop :=
  Permutation t t' /\
  length t' = length t /\
  (forall k, k < pl \/ pr < k -> nth k t' 0 = nth k t 0) /\
  (forall k, pl <= k <= pr -> exists k', pl <= k' <= pr /\ nth k t' 0 = nth k' t 0).

(** The values at the positions [pl..pr] never decrease. *)
Definition sorted_seg (v : list Q) (pl pr : nat) (t : list nat) : Prop :=
  forall i j, pl <= i -> i < j -> j <= pr ->
              (Numpy.value v t i <= Numpy.value v t j)%Q.

(** After a partition step the pivot is at [pi], nothing greater comes
    before it in the segment and nothing smaller after it. *)
Definition partitioned (v : list Q) (pl pi pr : nat) (t : list nat) : Prop :=
  pl < pi /\ pi < pr /\
  (forall k, pl <= k -> k < pi -> (Numpy.value v t k <= Numpy.value v t pi)%Q) /\
  (forall k, pi < k -> k <= pr -> (Numpy.value v t pi <= Numpy.value v t k)%Q).

(** The value at heap position [k] (counted from one). *)
Definition heap_value (v : list Q) (start : nat) (t : list nat) (k : nat) : Q :=
  nth (Numpy.heap_get t start k) v 0%Q.

Definition heap_child (c k : nat) : Prop := c = 2 * k \/ c = 2 * k + 1.

(** Between the heap positions [l] and [n] no child is above its parent. *)
Definition is_heap (v : list Q) (start : nat) (t : list nat) (l n : nat) : Prop :=
  forall k c, l <= k -> heap_child c k -> c <= n ->
              (heap_value v start t c <= heap_value v start t k)%Q.

(** A heap but for the node [i], whose children are not above its parent. *)
Definition almost_heap (v : list Q) (start : nat) (t : list nat) (l n i : nat) : Prop :=
  (forall k c, l <= k -> k <> i -> heap_child c k -> c <= n ->
               (heap_value v start t c <= heap_value v start t k)%Q) /\
  (forall p c, l <= p -> heap_child i p -> heap_child c i -> c <= n ->
               (heap_value v start t c <= heap_value v start t p)%Q).

(** A segment [pl..pr] of the index array that is still to be sorted. *)
Definition segment : Type := nat * nat.

Definition inside_segment (s : segment) (i j : nat) : Prop :=
  fst s <= i /\ j <= snd s.

Definition apart (s s' : segment) : Prop := snd s < fst s' \/ snd s' < fst s.

Fixpoint segments_apart (P : list segment) : Prop :=
  match P with
  | [] => True
  | s :: rest => Forall (apart s) rest /\ segments_apart rest
  end.

Definition segments_ok (t : list nat) (P : list segment) : Prop :=
  Forall (fun s => fst s <= snd s /\ snd s < length t) P /\ segments_apart P.

(** The values are in order between any two positions that do not lie in
    one and the same segment still to be sorted. *)
Definition ordered_outside (v : list Q) (t : list nat) (P : list segment) : Prop :=
  forall i j, i < j -> j < length t ->
              (forall s, In s P -> ~ inside_segment s i j) ->
              (Numpy.value v t i <= Numpy.value v t j)%Q.

(** The number of positions still to be sorted. *)
Definition pending_size (P : list segment) : nat :=
  fold_right (fun s acc => snd s - fst s + 1 + acc) 0 P.

Definition stack_segments (stack : list Numpy.frame) : list segment := map fst stack.

(** ** Concrete instances of the parameters *)

Module Sample.

(** Square root to six decimal places. *)
Definition sqrt6 (q : Q) : Q :=
  Z.sqrt (Qnum q * Z.pos (Qden q) * 10 ^ 12) # (Qden q * 10 ^ 6).

Fixpoint digits (s : string) (acc : Z) : option Z :=
  match s with
  | EmptyString => Some acc
  | String c r =>
      let n := Z.of_nat (Ascii.nat_of_ascii c) in
      if ((48 <=? n) && (n <=? 57))%Z
      then digits r (10 * acc + (n - 48))%Z
      else None
  end.

(** Text of decimal digits to its number, anything else to [NaN]. *)
Definition to_float (s : string) : xfloat :=
  match s with
  | EmptyString => XNaN
  | _ => match digits s 0 with
         | Some n => XNum (inject_Z n)
         | None => XNaN
         end
  end.

(** A row of the frame. *)
Definition kline (t : Z) (close : string) : candle :=
  mkCandle (Some t) (Str "0") (Str "0") (Str "0") (Str close) (Str "0") (Str "0").

(** A row as the provider delivers it: seven cells of text. *)
Definition raw (t close : string) : list cell :=
  [Str t; Str "0"; Str "0"; Str "0"; Str close; Str "0"; Str "0"].

(** The largest number of milliseconds a timestamp can hold. *)
Definition max_ms : Z := 9223372036854.

Definition frame_row (row : list cell) : outcome candle :=
  match row with
  | [Str t; o; h; l; c; v; q] =>
      match t with
      | EmptyString => Raise (ValueError "non convertible value")
      | _ =>
          match digits t 0 with
          | Some n =>
              if (n <=? max_ms)%Z
              then Ok (mkCandle (Some n) o h l c v q)
              else Raise (mkExn "OutOfBoundsDatetime" "cannot convert input with unit 'ms'")
          | None => Raise (ValueError "non convertible value")
          end
      end
  | _ => Raise (ValueError "7 columns passed")
  end.

(** A frame construction: it takes rows of seven cells whose first is the
    text of a number of milliseconds that a timestamp can hold, and raises
    on anything else. *)
Fixpoint frame_of_kline (kline_data : list (list cell)) : outcome (list candle) :=
  match kline_data with
  | [] => Ok []
  | row :: rest =>
      c <- frame_row row ;;
      frame <- frame_of_kline rest ;;
      Ok (c :: frame)
  end.

(** Newest first, as the provider delivers. *)
Definition four_candles : list candle :=
  [kline 4000 "104"; kline 3000 "101"; kline 2000 "102"; kline 1000 "100"].

Definition ten_candles : list candle :=
  [kline 10000 "110"; kline 9000 "108"; kline 8000 "109"; kline 7000 "105";
   kline 6000 "106"; kline 5000 "103"; kline 4000 "104"; kline 3000 "101";
   kline 2000 "102"; kline 1000 "100"].

(** Oldest first. *)
Definition ascending_candles : list candle :=
  [kline 1000 "100"; kline 2000 "102"].

Definition repeated_candles : list candle :=
  [kline 2000 "102"; kline 1000 "100"; kline 1000 "100"].

(** A frame in the normal form of the specification. *)
Definition normalized_frame : list candle :=
  [mkCandle (Some 1000%Z) (Str "0") (Str "0") (Str "0") (Num (XNum 100%Q)) (Str "0") (Str "0");
   mkCandle (Some 2000%Z) (Str "0") (Str "0") (Str "0") (Num (XNum 102%Q)) (Str "0") (Str "0")].


(** The rows delivered for the symbols the provider knows; newest first. *)
Definition four_rows : list (list cell) :=
  [raw "4000" "104"; raw "3000" "101"; raw "2000" "102"; raw "1000" "100"].

Definition ten_rows : list (list cell) :=
  [raw "10000" "110"; raw "9000" "108"; raw "8000" "109"; raw "7000" "105";
   raw "6000" "106"; raw "5000" "103"; raw "4000" "104"; raw "3000" "101";
   raw "2000" "102"; raw "1000" "100"].

(** Rows whose first timestamp is beyond what a timestamp can hold. *)
Definition far_rows : list (list cell) :=
  [raw "1000000000000000000000000000000" "104"; raw "3000" "101"].

Definition with_list (l : list (list cell)) : response :=
  mkResponse (Some (mkResultObj (Some l))).

(** A provider that knows one symbol with ten candles, one with four, one
    with an empty list, one with a timestamp out of range, one whose
    response has no list, and is unreachable for every other symbol. *)
Definition get_kline (category symbol interval : string) (start_ms end_ms : Z)
  : outcome response :=
  if String.eqb symbol "BTCUSDT" then Ok (with_list ten_rows)
  else if String.eqb symbol "NEWUSDT" then Ok (with_list four_rows)
  else if String.eqb symbol "EMPTYUSDT" then Ok (with_list [])
  else if String.eqb symbol "FARUSDT" then Ok (with_list far_rows)
  else if String.eqb symbol "NOLISTUSDT" then Ok (mkResponse (Some (mkResultObj None)))
  else Raise (mkExn "ConnectionError" "provider unreachable").

Definition now_ms : Z := 1700000000000.

Fixpoint insert_by (after : Q -> Q -> bool) (x : string * Q) (l : list (string * Q))
  : list (string * Q) :=
  match l with
  | [] => [x]
  | a :: r =>
      if after (snd a) (snd x) then a :: insert_by after x r else x :: a :: r
  end.

Definition sort_by (after : Q -> Q -> bool) (l : list (string * Q))
  : list (string * Q) :=
  fold_left (fun acc x => insert_by after x acc) l [].

(** Descending insertion sort that keeps rows of equal value in their
    order of arrival. *)
Definition sort_ties_in_order : list (string * Q) -> list (string * Q) :=
  sort_by (fun a x => Qle_bool x a).


Definition all_equal : Dict.t Q := [("A", 1 # 100); ("B", 1 # 100)].

Definition single : Dict.t Q := [("X", 1 # 100)].

Definition spread : Dict.t Q := [("X", 2 # 100); ("Y", 5 # 100); ("Z", 3 # 100)].


End Sample.

(** ** The program *)

Section Program.

(** [np.sqrt] on the finite values of the model. *)
Variable sqrt : Q -> Q.
(** The float a text cell converts to, [NaN] when it has none
    ([errors='coerce']). *)
Variable to_float : string -> xfloat.
(** Whether [pct_change()] forward-fills missing cells by default. *)
Variable pct_change_pads : bool.
(** [int(time.time() * 1000)]: the reading of the clock, one and the same
    for the calls of a batch. *)
Variable current_time_ms : Z.
(** [HTTP(testnet=False).get_kline(category, symbol, interval, start, end)]:
    a response, or the exception the client raises. *)
Variable get_kline : string -> string -> string -> Z -> Z -> outcome response.
(** Lines 35-36: [pd.DataFrame(kline_data, columns=[...])] followed by
    [pd.to_datetime(df['Timestamp'], unit='ms')]: the frame, or the exception
    raised when the rows do not make seven columns or a timestamp cannot be
    converted. *)
Variable frame_of_kline : list (list cell) -> outcome (list candle).
(** [df.sort_values(by='Rolling_Std_4h', ascending=False)] with the default
    sort kind on the two-column frame of [plot_data].  numpy picks the sort
    routine when it runs; [Pandas.sort_values] is the one with its portable
    quicksort. *)
Variable sort_values_desc : list (string * Q) -> list (string * Q).

Definition cell_value (c : cell) : xfloat :=
  match c with
  | Str s => to_float s
  | Num x => x
  end.

(** [df['Close'] = pd.to_numeric(df['Close'], errors='coerce')], row-wise. *)
Definition to_numeric_close (c : candle) : candle :=
  mkCandle (Timestamp c) (Open c) (High c) (Low c)
           (Num (cell_value (Close c))) (Volume c) (Quote_Asset_Volume c).

(** Lines 37-39 on the frame in the order delivered: [df.iloc[::-1]], the
    timestamp as index, the close made numeric. *)
Definition normalize (kline_data : list candle) : list candle :=
  map to_numeric_close (rev kline_data).

Definition close_column (df : list candle) : list xfloat :=
  map (fun c => cell_value (Close c)) df.

(** [.std()] of a window: [ddof = 1]. *)
Definition std (obs : list Q) : float := option_map sqrt (Series.var 1 obs).

(** [s.rolling(window=window_size).std()]: [min_periods] defaults to the
    window size, and an infinity counts as a missing cell. *)
Definition rolling_std (window_size : nat) (s : list xfloat) : list float :=
  Series.rolling window_size window_size std (map prep s).

(** Lines 37-41 on the frame in the order delivered. *)
Definition analyze (kline_data : list candle) (window_size : nat) : DataFrame :=
  let df := normalize kline_data in
  let returns := Series.pct_change pct_change_pads (close_column df) in
  mkDF df returns (rolling_std window_size returns).

Definition fetch_and_analyze_crypto_price
    (symbol : string) (hours_ago : Z) (resolution : string) (window_size : nat)
  : outcome DataFrame :=
  try_except
    (let start_time_ms := (current_time_ms - hours_ago * 3600 * 1000)%Z in
     response <- get_kline "spot" symbol resolution start_time_ms current_time_ms ;;
     match result_ response with
     | Some r =>
         match list_ r with
         | Some kline_data =>
             df <- frame_of_kline kline_data ;;
             Ok (analyze df window_size)
         | None => Raise (ValueError "No data returned from API.")
         end
     | None => Raise (ValueError "No data returned from API.")
     end)
    (fun e =>
       Raise (ValueError ("Error fetching data for " ++ symbol ++ ": " ++ str e))).

(** The call of the batch loop, with the defaults of the signature. *)
Definition fetch_default (symbol : string) : outcome DataFrame :=
  fetch_and_analyze_crypto_price symbol 48 "15" 8.

Definition error_message (symbol : string) (e : exn) : string :=
  "Error fetching data for " ++ symbol ++ ": " ++ str e.

(** Lines 74-81: one turn of the loop. *)
Definition loop_body (st : batch) (symbol : string) : outcome batch :=
  try_except
    (df <- fetch_default symbol ;;
     last_rolling_std <- Series.iloc_last (Rolling_Std_4h df) ;;
     match last_rolling_std with
     | Some v =>
         Ok (mkBatch (Dict.set symbol v (result st))
                     (Dict.set symbol df (dfs st))
                     (ui st))
     | None => Ok st
     end)
    (fun e =>
       Ok (mkBatch (result st) (dfs st)
                   (ui st ++ [st_error (error_message symbol e)]))).

Fixpoint for_each (symbols : list string) (st : batch) : outcome batch :=
  match symbols with
  | [] => Ok st
  | symbol :: rest => st' <- loop_body st symbol ;; for_each rest st'
  end.

(** [Series.max()] and [Series.min()], missing on an empty column. *)
Definition col_max (col : list Q) : float :=
  match col with
  | [] => NaN
  | x :: r => Some (fold_left Qmax r x)
  end.

Definition col_min (col : list Q) : float :=
  match col with
  | [] => NaN
  | x :: r => Some (fold_left Qmin r x)
  end.

(** Lines 90-94: the sorted frame with its [Color] column. *)
Definition plot_data (data : Dict.t Q) : list (string * Q * float) :=
  let df_plot := sort_values_desc (Dict.items data) in
  let col := map snd df_plot in
  let max_std := col_max col in
  let min_std := col_min col in
  map (fun row =>
         (fst row, snd row,
          fdiv (fsub (Some (snd row)) min_std) (fsub max_std min_std)))
      df_plot.

Definition plot_rolling_std_vs_time (d : Dict.t DataFrame) : list ui_event :=
  map (fun kv =>
         st_plotly_chart
           (px_line (fst kv)
                    (combine (map Timestamp (rows (snd kv)))
                             (Rolling_Std_4h (snd kv)))))
      (Dict.items d).

(** Lines 70-87; the value is the final state of the function. *)
Definition fetch_data_and_plot (symbols : list string) : outcome batch :=
  st <- for_each symbols (mkBatch Dict.empty Dict.empty []) ;;
  if Dict.truthy (result st)
  then Ok (mkBatch (result st) (dfs st)
                   (ui st ++ st_plotly_chart (px_bar (plot_data (result st)))
                          :: plot_rolling_std_vs_time (dfs st)))
  else Ok (mkBatch (result st) (dfs st)
                   (ui st ++ [st_error "No data available to display."])).


(** ** The specification's words, for comparison with the code *)

(** The [w] most recent values ending at position [i]. *)
Definition trailing_window {A : Type} (w i : nat) (s : list A) : list A :=
  firstn w (skipn (i + 1 - w) s).

(** Sample variance with Bessel's correction: the squared deviations from
    the mean, summed and divided by [n - 1]. *)
Definition sample_variance (xs : list Q) : Q :=
  let n := inject_Z (Z.of_nat (length xs)) in
  let m := (Series.Qsum xs / n)%Q in
  (Series.Qsum (map (fun x => (x - m) ^ 2) xs) / (n - 1))%Q.

(** One timestamp is earlier than another; [NaT] compares with nothing. *)
Definition earlier (a b : option Z) : Prop :=
  match a, b with
  | Some x, Some y => (x < y)%Z
  | _, _ => False
  end.

(** Strictly ascending and strictly descending timestamps. *)
Definition ascending (ts : list (option Z)) : Prop := StronglySorted earlier ts.
Definition descending (ts : list (option Z)) : Prop :=
  StronglySorted (fun a b => earlier b a) ts.

Definition timestamps (df : list candle) : list (option Z) := map Timestamp df.

(** ** Definitions used to state and prove the properties *)

(** What [var 1] computes on at least two observations. *)
Definition var1_value (xs : list Q) : Q :=
  let m := Series.mean xs in
  (Series.Qsum (map (fun x => (x - m) * (x - m)) xs)
   / inject_Z (Z.of_nat (length xs - 1)))%Q.

(** A frame that went through [normalize] has a numeric close everywhere. *)
Definition numeric_close (df : list candle) : Prop :=
  Forall (fun c => exists x, Close c = Num x) df.

(** The normal form the specification asks for: numeric close, timestamps
    strictly ascending (hence without duplicates). *)
Definition normalized (df : list candle) : Prop :=
  numeric_close df /\ ascending (timestamps df).

(** [response['result']['list']] when both keys are present. *)
Definition response_list (r : response) : option (list (list cell)) :=
  match result_ r with
  | Some ro => list_ ro
  | None => None
  end.

(** The call made for a symbol. *)
Definition request (symbol : string) (hours_ago : Z) (resolution : string)
  : outcome response :=
  get_kline "spot" symbol resolution
            (current_time_ms - hours_ago * 3600 * 1000)%Z current_time_ms.

Definition no_data : exn := ValueError "No data returned from API.".

(** What a turn of the loop comes to: a value and frame are recorded, or the
    last rolling value is missing and nothing happens, or the body raised
    and the handler reports it. *)
Inductive turn :=
| Collected (v : Q) (df : DataFrame)
| Filtered
| Failed (e : exn).

Definition classify (symbol : string) : turn :=
  match fetch_default symbol with
  | Raise e => Failed e
  | Ok df =>
      match Series.iloc_last (Rolling_Std_4h df) with
      | Raise e => Failed e
      | Ok (Some v) => Collected v df
      | Ok None => Filtered
      end
  end.

Definition apply_turn (st : batch) (symbol : string) (t : turn) : batch :=
  match t with
  | Collected v df =>
      mkBatch (Dict.set symbol v (result st)) (Dict.set symbol df (dfs st)) (ui st)
  | Filtered => st
  | Failed e =>
      mkBatch (result st) (dfs st) (ui st ++ [st_error (error_message symbol e)])
  end.

Definition run (symbols : list string) (st : batch) : batch :=
  fold_left (fun st symbol => apply_turn st symbol (classify symbol)) symbols st.

Definition errors_of (symbol : string) : list ui_event :=
  match classify symbol with
  | Failed e => [st_error (error_message symbol e)]
  | _ => []
  end.

Definition start : batch := mkBatch Dict.empty Dict.empty [].

(** Lines 83-87 on the state the loop leaves. *)
Definition render (st : batch) : batch :=
  if Dict.truthy (result st)
  then mkBatch (result st) (dfs st)
               (ui st ++ st_plotly_chart (px_bar (plot_data (result st)))
                      :: plot_rolling_std_vs_time (dfs st))
  else mkBatch (result st) (dfs st)
               (ui st ++ [st_error "No data available to display."]).

(** A symbol's turn succeeds with value [v] and frame [df]: the fetch
    returns [df] and the last rolling value of [df] is the number [v]. *)
Definition succeeds (symbol : string) (v : Q) (df : DataFrame) : Prop :=
  fetch_default symbol = Ok df /\
  Series.iloc_last (Rolling_Std_4h df) = Ok (Some v).

(** The body of the [try] block raises [e] for a symbol: in the fetch, or
    when the last entry of an empty column is taken. *)
Definition raises (symbol : string) (e : exn) : Prop :=
  fetch_default symbol = Raise e \/
  exists df, fetch_default symbol = Ok df /\
             Series.iloc_last (Rolling_Std_4h df) = Raise e.

(** Rows of the two-column frame, non-increasing in the value column. *)
Definition by_value_desc (a b : string * Q) : Prop := (snd b <= snd a)%Q.

(** What the documentation of [sort_values] promises for the default sort
    kind: the rows of the frame, rearranged so that the sort column is in
    the requested order.  The default kind is not a stable one, so nothing
    is said about rows with equal values. *)
Definition sort_contract (sorter : list (string * Q) -> list (string * Q)) : Prop :=
  forall l, Permutation l (sorter l) /\ StronglySorted by_value_desc (sorter l).


(** ** Further definitions: returns, ranked symbols, the page of [main] *)

(** The simple returns of a chronological list of prices: each price over
    the one before it, minus one. *)
Fixpoint simple_returns (prices : list Q) : list Q :=
  match prices with
  | a :: (b :: _) as rest => (b / a - 1)%Q :: simple_returns rest
  | _ => []
  end.

(** The close column of the data as delivered, made numeric. *)
Definition delivered_closes (kline_data : list candle) : list xfloat :=
  map (fun c => cell_value (Close c)) kline_data.

(** Whether the turn of a symbol records a value. *)
Definition collected (symbol : string) : bool :=
  match classify symbol with
  | Collected _ _ => true
  | _ => false
  end.

Definition is_chart (ev : ui_event) : bool :=
  match ev with
  | st_plotly_chart _ => true
  | st_error _ => false
  end.

(** Bars of the chart, non-increasing in colour (all colours numbers). *)
Definition by_colour_desc (a b : string * Q * float) : Prop :=
  match snd a, snd b with
  | Some x, Some y => (y <= x)%Q
  | _, _ => False
  end.

(** ** The page of [main] *)

(** The built-in symbols (lines 51). *)
Definition top_20_cryptos : list string :=
  ["ETHUSDT"; "MNTUSDT"; "SOLUSDT"; "GALAUSDT"; "XRPUSDT"; "APEXUSDT";
   "DOGEUSDT"; "PEPEUSDT"; "WLDUSDT"; "FLOKIUSDT"; "MATICUSDT"; "AGIUSDT";
   "BNBUSDT"; "AGIXUSDT"; "FETUSDT"; "NEARUSDT"; "BONKUSDT"; "PYTHUSDT";
   "MAVIAUSDT"].

(** What the widgets of one run of the script return: the text typed, whether
    each button was the one clicked, and the selection of the multiselect as
    a function of its options and its default. *)
Record widgets := mkWidgets {
  text_input : string;
  add_button : bool;
  multiselect : list string -> list string -> list string;
  reload_button : bool
}.

(** What [main] itself puts on the page, and what the batch puts there. *)
Inductive page_event :=
| st_title (body : string)
| st_success (body : string)
| st_batch (ev : ui_event).

(** [st.session_state]: the key ['cryptos'] absent, or the list it holds. *)
Definition session_state := option (list string).

(** The list a run works with: the stored one, or the built-in one when
    the key is absent. *)
Definition cryptos_of (state : session_state) : list string :=
  match state with
  | Some cryptos => cryptos
  | None => top_20_cryptos
  end.

(** [new_crypto and new_crypto not in st.session_state.cryptos] *)
Definition addable (new_crypto : string) (cryptos : list string) : bool :=
  negb (String.eqb new_crypto "") && negb (existsb (String.eqb new_crypto) cryptos).

(** Lines 49-66: one run of the script.  The value is the session state the
    run leaves and what it put on the page. *)
Definition main (state : session_state) (w : widgets)
  : outcome (session_state * list page_event) :=
  let title := st_title "Rolling Standard Deviation of Top 20 Cryptocurrencies" in
  let cryptos := cryptos_of state in
  let new_crypto := text_input w in
  let added := add_button w && addable new_crypto cryptos in
  let cryptos := if added then (cryptos ++ [new_crypto])%list else cryptos in
  let page :=
    title :: (if added
              then [st_success ("Added " ++ new_crypto ++ " to the list!")]
              else []) in
  let included_cryptos := multiselect w cryptos cryptos in
  if reload_button w
  then b <- fetch_data_and_plot included_cryptos ;;
       Ok (Some cryptos, (page ++ map st_batch (ui b))%list)
  else Ok (Some cryptos, page).

(** The list a run leaves, from the list it finds. *)
Definition cryptos_after (cryptos : list string) (w : widgets) : list string :=
  if add_button w && addable (text_input w) cryptos
  then (cryptos ++ [text_input w])%list
  else cryptos.

(** The script run once per interaction, the session state carried over. *)
Fixpoint reruns (ws : list widgets) (state : session_state) : outcome session_state :=
  match ws with
  | [] => Ok state
  | w :: rest => p <- main state w ;; reruns rest (fst p)
  end.

(** ** Series lemmas *)

Lemma zip_with_length {A B C} (f : A -> B -> C) (l : list A) (r : list B) :
  length r = length l -> length (Series.zip_with f l r) = length l.
Proof.
  revert r; induction l as [|a l IH]; intros [|b r] H; simpl in *;
    try discriminate; auto.
Qed.

Lemma removelast_cons_length {A} (a : A) (l : list A) :
  length (removelast (a :: l)) = length l.
Proof.
  revert a; induction l as [|b l IH]; intros a; [reflexivity|].
  change (removelast (a :: b :: l)) with (a :: removelast (b :: l)).
  cbn [length]. now rewrite IH.
Qed.

Lemma shift_length (s : list xfloat) : length (Series.shift s) = length s.
Proof.
  destruct s as [|a l]; [reflexivity|].
  unfold Series.shift. cbn [length]. now rewrite removelast_cons_length.
Qed.

Lemma ffill_from_length (prev : xfloat) (s : list xfloat) :
  length (Series.ffill_from prev s) = length s.
Proof.
  revert prev; induction s as [|x r IH]; intros prev; simpl; [|rewrite IH];
    reflexivity.
Qed.

Lemma pct_change_length (pad : bool) (s : list xfloat) :
  length (Series.pct_change pad s) = length s.
Proof.
  unfold Series.pct_change.
  rewrite zip_with_length by apply shift_length.
  destruct pad; [apply ffill_from_length | reflexivity].
Qed.

Lemma pct_change_head (pad : bool) (s : list xfloat) :
  s <> [] -> nth_error (Series.pct_change pad s) 0 = Some XNaN.
Proof.
  intros Hs. unfold Series.pct_change.
  set (data := if pad then Series.ffill s else s).
  assert (Hd : data <> []).
  { subst data. destruct pad; [|exact Hs].
    destruct s; [congruence | discriminate]. }
  destruct data as [|a l]; [congruence|].
  simpl. destruct a; reflexivity.
Qed.

Lemma rolling_length (w minp : nat) (agg : list Q -> float) (s : list float) :
  length (Series.rolling w minp agg s) = length s.
Proof. unfold Series.rolling. now rewrite length_map, length_seq. Qed.

Lemma nth_error_map_seq {A} (f : nat -> A) (n a i : nat) :
  i < n -> nth_error (map f (seq a n)) i = Some (f (a + i)).
Proof.
  revert a i; induction n as [|n IH]; intros a i Hi; [lia|].
  destruct i as [|i]; simpl.
  - now rewrite Nat.add_0_r.
  - rewrite IH by lia. f_equal. f_equal. lia.
Qed.

Lemma rolling_nth (w minp : nat) (agg : list Q -> float) (s : list float) (i : nat) :
  i < length s ->
  nth_error (Series.rolling w minp agg s) i =
  Some (let obs := Series.observations (Series.window_at w i s) in
        if length obs <? minp then NaN else agg obs).
Proof.
  intros Hi. unfold Series.rolling.
  now rewrite nth_error_map_seq by exact Hi.
Qed.

Lemma observations_length_le (win : list float) :
  length (Series.observations win) <= length win.
Proof.
  induction win as [|[q|] r IH]; simpl; lia.
Qed.

Lemma observations_map_Some (xs : list Q) :
  Series.observations (map Some xs) = xs.
Proof. induction xs as [|x r IH]; simpl; [|rewrite IH]; reflexivity. Qed.

Lemma observations_full (win : list float) :
  length (Series.observations win) = length win ->
  win = map Some (Series.observations win).
Proof.
  induction win as [|[q|] r IH]; simpl; intros H.
  - reflexivity.
  - f_equal. apply IH. lia.
  - pose proof (observations_length_le r). lia.
Qed.

Lemma window_full_or_gap (win : list float) :
  win = map Some (Series.observations win) \/ (forall xs, win <> map Some xs).
Proof.
  induction win as [|[q|] r IH].
  - now left.
  - destruct IH as [E|NE].
    + left. simpl. now rewrite <- E.
    + right. intros [|x xs] H; [discriminate|].
      injection H as _ H. exact (NE xs H).
  - right. intros [|x xs] H; discriminate.
Qed.

Lemma trailing_window_map {A B} (f : A -> B) (w i : nat) (s : list A) :
  trailing_window w i (map f s) = map f (trailing_window w i s).
Proof. unfold trailing_window. now rewrite skipn_map, firstn_map. Qed.

Lemma prep_finite (win : list xfloat) (xs : list Q) :
  map prep win = map Some xs <-> win = map XNum xs.
Proof.
  revert xs; induction win as [|x r IH]; intros [|q xs]; simpl;
    split; intros H; try discriminate; try reflexivity.
  - injection H as Hx Hr. apply IH in Hr. subst r.
    destruct x; simpl in Hx; try discriminate. now injection Hx as ->.
  - injection H as -> Hr. apply IH in Hr. simpl. now rewrite Hr.
Qed.


Lemma window_at_trailing (w i : nat) (s : list float) :
  w <= i + 1 -> Series.window_at w i s = trailing_window w i s.
Proof.
  intros H. unfold Series.window_at, Series.window_start, trailing_window.
  f_equal. lia.
Qed.

Lemma window_at_short (w i : nat) (s : list float) :
  i + 1 < w -> length (Series.window_at w i s) < w.
Proof.
  intros H. unfold Series.window_at, Series.window_start.
  rewrite length_firstn. lia.
Qed.

Lemma trailing_window_length {A} (w i : nat) (s : list A) :
  w <= i + 1 -> i < length s -> length (trailing_window w i s) = w.
Proof.
  intros Hw Hi. unfold trailing_window.
  rewrite length_firstn, length_skipn. lia.
Qed.

(** ** The variance of the model and the formula of the specification *)

Lemma Qsum_map_ext (f g : Q -> Q) (l : list Q) :
  (forall x, f x == g x) -> Series.Qsum (map f l) == Series.Qsum (map g l).
Proof.
  intros H. induction l as [|x r IH]; simpl; [reflexivity|].
  now rewrite IH, H.
Qed.

Lemma inject_pred (n : nat) :
  1 <= n -> inject_Z (Z.of_nat (n - 1)) == inject_Z (Z.of_nat n) - 1.
Proof.
  intros H.
  replace (Z.of_nat (n - 1)) with (Z.of_nat n + - (1))%Z by lia.
  rewrite inject_Z_plus, inject_Z_opp. reflexivity.
Qed.

Lemma var1_defined (xs : list Q) :
  2 <= length xs -> Series.var 1 xs = Some (var1_value xs).
Proof.
  intros H. unfold Series.var, var1_value.
  destruct (Nat.leb_spec (length xs) 1); [lia | reflexivity].
Qed.

Lemma var1_sample_variance (xs : list Q) :
  1 <= length xs -> var1_value xs == sample_variance xs.
Proof.
  intros H. unfold var1_value, sample_variance, Series.mean.
  rewrite inject_pred by exact H.
  set (m := (Series.Qsum xs / inject_Z (Z.of_nat (length xs)))%Q).
  assert (E : Series.Qsum (map (fun x => (x - m) * (x - m))%Q xs)
              == Series.Qsum (map (fun x => (x - m) ^ 2)%Q xs)).
  { apply Qsum_map_ext. intros x. simpl. reflexivity. }
  now rewrite E.
Qed.

(** ** The rolling standard deviation, position by position *)

Lemma rolling_std_defined (w i : nat) (s : list xfloat) (xs : list Q) :
  2 <= w -> i < length s -> w <= i + 1 ->
  trailing_window w i s = map XNum xs ->
  length xs = w /\
  nth_error (rolling_std w s) i = Some (Some (sqrt (var1_value xs))).
Proof.
  intros Hw Hi Hwi Hwin.
  assert (Hlen : length xs = w).
  { rewrite <- (length_map XNum xs), <- Hwin.
    now apply trailing_window_length. }
  split; [exact Hlen|].
  unfold rolling_std. rewrite rolling_nth by now rewrite length_map. cbv zeta.
  rewrite window_at_trailing by exact Hwi.
  rewrite trailing_window_map.
  rewrite (proj2 (prep_finite _ xs) Hwin).
  rewrite observations_map_Some, Hlen, Nat.ltb_irrefl.
  unfold std. rewrite var1_defined by lia. reflexivity.
Qed.

Lemma rolling_std_short (w i : nat) (s : list xfloat) :
  i < length s -> i + 1 < w -> nth_error (rolling_std w s) i = Some NaN.
Proof.
  intros Hi Hwi. unfold rolling_std.
  rewrite rolling_nth by now rewrite length_map. cbv zeta.
  pose proof (window_at_short w i (map prep s) Hwi) as Hs.
  pose proof (observations_length_le (Series.window_at w i (map prep s))) as Ho.
  destruct (Nat.ltb_spec
              (length (Series.observations (Series.window_at w i (map prep s)))) w);
    [reflexivity | lia].
Qed.

Lemma rolling_std_gap (w i : nat) (s : list xfloat) :
  i < length s -> w <= i + 1 ->
  (forall xs, trailing_window w i s <> map XNum xs) ->
  nth_error (rolling_std w s) i = Some NaN.
Proof.
  intros Hi Hwi Hgap. unfold rolling_std.
  rewrite rolling_nth by now rewrite length_map.
  cbv zeta. rewrite window_at_trailing by exact Hwi.
  rewrite trailing_window_map.
  set (win := trailing_window w i s) in *.
  pose proof (observations_length_le (map prep win)) as Ho.
  pose proof (trailing_window_length w i s Hwi Hi) as Hl.
  fold win in Hl. rewrite length_map in Ho.
  destruct (Nat.ltb_spec (length (Series.observations (map prep win))) w)
    as [Hlt|Hge]; [reflexivity|].
  exfalso. apply (Hgap (Series.observations (map prep win))).
  apply prep_finite. apply observations_full. rewrite length_map. lia.
Qed.

(** ** The frame built by [analyze] *)

Lemma normalize_length (kline_data : list candle) :
  length (normalize kline_data) = length kline_data.
Proof. unfold normalize. now rewrite length_map, length_rev. Qed.

Lemma returns_length (kline_data : list candle) (window_size : nat) :
  length (Returns (analyze kline_data window_size)) = length kline_data.
Proof.
  unfold analyze, close_column. cbn [Returns].
  now rewrite pct_change_length, length_map, normalize_length.
Qed.

Lemma observations_head_missing (s : list float) :
  nth_error s 0 = Some NaN -> length (Series.observations s) <= length s - 1.
Proof.
  destruct s as [|[q|] r]; simpl; intros H; try discriminate.
  pose proof (observations_length_le r). lia.
Qed.

Lemma defined_head_missing (s : list xfloat) :
  nth_error s 0 = Some XNaN ->
  length (filter (fun x => negb (xisna x)) s) <= length s - 1.
Proof.
  destruct s as [|x r]; simpl; intros H; try discriminate.
  injection H as ->. simpl.
  pose proof (filter_length_le (fun x => negb (xisna x)) r). lia.
Qed.


(** C8 (as the code has it).  The return and volatility columns belong to
    the frame of the price series and have its length [n]; the head entry of
    the returns is missing, so at most [n - 1] returns are defined. *)
Theorem series_lengths_equal_price_length
    (kline_data : list candle) (window_size : nat) :
  let df := analyze kline_data window_size in
  let n := length (close_column (rows df)) in
  n = length kline_data /\
  length (Returns df) = n /\
  length (Rolling_Std_4h df) = n /\
  (n <> 0 -> nth_error (Returns df) 0 = Some XNaN) /\
  length (filter (fun x => negb (xisna x)) (Returns df)) <= n - 1.
Proof.
  intros df n.
  assert (Hn : n = length kline_data).
  { subst n df. unfold close_column, analyze. cbn [rows].
    now rewrite length_map, normalize_length. }
  assert (Hr : length (Returns df) = n).
  { subst df. rewrite returns_length. now rewrite Hn. }
  assert (Hhead : n <> 0 -> nth_error (Returns df) 0 = Some XNaN).
  { intros Hne. subst df. unfold analyze. cbn [Returns].
    apply pct_change_head. intros E.
    apply Hne. subst n. unfold analyze. cbn [rows]. now rewrite E. }
  repeat split.
  - exact Hn.
  - exact Hr.
  - subst df. unfold analyze, rolling_std. cbn [Rolling_Std_4h].
    rewrite rolling_length, length_map. exact Hr.
  - exact Hhead.
  - destruct (Nat.eq_dec n 0) as [E|NE].
    + pose proof (filter_length_le (fun x => negb (xisna x)) (Returns df)). lia.
    + pose proof (defined_head_missing (Returns df) (Hhead NE)). lia.
Qed.

(** ** Normalisation: reversal and numeric close *)

Lemma timestamp_to_numeric_close (c : candle) :
  Timestamp (to_numeric_close c) = Timestamp c.
Proof. reflexivity. Qed.

Lemma timestamps_normalize (kline_data : list candle) :
  timestamps (normalize kline_data) = rev (timestamps kline_data).
Proof.
  unfold timestamps, normalize. rewrite map_map, map_rev.
  f_equal.
Qed.

Lemma StronglySorted_snoc {A} (R : A -> A -> Prop) (l : list A) (a : A) :
  StronglySorted R (l ++ [a]) <-> StronglySorted R l /\ Forall (fun x => R x a) l.
Proof.
  induction l as [|b l IH]; simpl.
  - split; [intros _; split; constructor | intros _; repeat constructor].
  - split.
    + intros H. inversion H as [|? ? Hs Hf]; subst.
      apply IH in Hs. destruct Hs as [Hs Hl].
      apply Forall_app in Hf. destruct Hf as [Hf Ha].
      split; [constructor; assumption|].
      constructor; [now inversion Ha | exact Hl].
    + intros [Hs Hf]. inversion Hs as [|? ? Hs' Hb]; subst.
      inversion Hf as [|? ? Hba Hf']; subst.
      constructor; [apply IH; now split|].
      apply Forall_app. split; [exact Hb | now constructor].
Qed.

Lemma StronglySorted_rev {A} (R : A -> A -> Prop) (l : list A) :
  StronglySorted R (rev l) <-> StronglySorted (fun x y => R y x) l.
Proof.
  induction l as [|a l IH]; simpl.
  - split; constructor.
  - rewrite StronglySorted_snoc, IH. split.
    + intros [Hs Hf]. constructor; [exact Hs|].
      apply Forall_rev in Hf. now rewrite rev_involutive in Hf.
    + intros H. inversion H as [|? ? Hs Hf]; subst.
      split; [exact Hs | now apply Forall_rev].
Qed.

Lemma ascending_rev (ts : list (option Z)) :
  ascending (rev ts) <-> descending ts.
Proof. unfold ascending, descending. apply StronglySorted_rev. Qed.

Lemma to_numeric_close_fixed (c : candle) :
  (exists x, Close c = Num x) -> to_numeric_close c = c.
Proof.
  intros [x Hx]. destruct c as [t o h l cl v q]. simpl in Hx. subst cl.
  reflexivity.
Qed.

Lemma normalize_numeric (df : list candle) :
  numeric_close df -> normalize df = rev df.
Proof.
  intros H. unfold normalize.
  assert (Hr : numeric_close (rev df)) by (apply Forall_rev; exact H).
  induction Hr as [|c r Hc _ IH]; simpl; [reflexivity|].
  now rewrite IH, to_numeric_close_fixed.
Qed.

Lemma ascending_palindrome (ts : list (option Z)) :
  ascending ts -> rev ts = ts -> length ts <= 1.
Proof.
  intros Hs Hrev. destruct ts as [|a [|b l]]; simpl; try lia.
  exfalso.
  inversion Hs as [|? ? _ Hf]; subst.
  assert (Hin : In a (b :: l)).
  { apply in_rev. cbn [rev] in Hrev |- *.
    destruct (rev l ++ [b])%list as [|x m] eqn:E.
    - apply (f_equal (@length (option Z))) in E. rewrite length_app in E.
      simpl in E. lia.
    - simpl in Hrev. injection Hrev as -> _. now left. }
  rewrite Forall_forall in Hf. specialize (Hf a Hin).
  destruct a; simpl in Hf; [lia | exact Hf].
Qed.

(** C3 (as the code has it).  [normalize] reverses the order in which the
    provider delivered the candles and neither sorts nor drops any: the
    output has the timestamps of the input in reverse, as many rows as the
    input, and is strictly ascending by timestamp (hence free of duplicate
    timestamps) exactly when the input was strictly descending. *)
Theorem normalize_reverses_provider_order (kline_data : list candle) :
  timestamps (normalize kline_data) = rev (timestamps kline_data) /\
  length (normalize kline_data) = length kline_data /\
  numeric_close (normalize kline_data) /\
  (ascending (timestamps (normalize kline_data)) <->
   descending (timestamps kline_data)).
Proof.
  split; [apply timestamps_normalize|].
  split; [apply normalize_length|].
  split.
  - unfold numeric_close, normalize. apply Forall_map.
    apply Forall_forall. intros c _. simpl. now eexists.
  - rewrite timestamps_normalize. apply ascending_rev.
Qed.

(** C9 (as the code has it).  On an already normalized frame, [normalize]
    applied twice gives the frame back, while one application gives the
    reversed frame, which is identical to the input only when the frame has
    at most one row. *)
Theorem normalize_involutive_on_normalized (df : list candle) :
  normalized df ->
  normalize (normalize df) = df /\
  normalize df = rev df /\
  (normalize df = df <-> length df <= 1).
Proof.
  intros [Hnum Hasc].
  assert (Hrev : normalize df = rev df) by now apply normalize_numeric.
  split; [|split].
  - rewrite Hrev, normalize_numeric by (apply Forall_rev; exact Hnum).
    apply rev_involutive.
  - exact Hrev.
  - rewrite Hrev. split.
    + intros E.
      assert (Ets : rev (timestamps df) = timestamps df).
      { unfold timestamps. now rewrite <- map_rev, E. }
      pose proof (ascending_palindrome _ Hasc Ets) as Hl.
      unfold timestamps in Hl. now rewrite length_map in Hl.
    + intros Hl. destruct df as [|a [|b l]]; simpl in *; try reflexivity; lia.
Qed.

(** ** Fetching *)

Lemma fetch_cases (symbol : string) (hours_ago : Z) (resolution : string)
    (window_size : nat) :
  fetch_and_analyze_crypto_price symbol hours_ago resolution window_size =
  match request symbol hours_ago resolution with
  | Raise e => Raise (ValueError (error_message symbol e))
  | Ok r =>
      match response_list r with
      | Some kline_data =>
          match frame_of_kline kline_data with
          | Ok df => Ok (analyze df window_size)
          | Raise e => Raise (ValueError (error_message symbol e))
          end
      | None => Raise (ValueError (error_message symbol no_data))
      end
  end.
Proof.
  unfold fetch_and_analyze_crypto_price, request, response_list, error_message.
  cbv zeta.
  destruct (get_kline _ _ _ _ _) as [r|e]; simpl; [|reflexivity].
  destruct (result_ r) as [ro|]; [|reflexivity].
  destruct (list_ ro) as [kline_data|]; [|reflexivity].
  simpl. destruct (frame_of_kline kline_data); reflexivity.
Qed.



(** ** Dict lemmas *)

Lemma keys_set_in {V} (k : string) (v : V) (d : Dict.t V) (x : string) :
  In x (Dict.keys (Dict.set k v d)) <-> x = k \/ In x (Dict.keys d).
Proof.
  induction d as [|[k' v'] r IH]; simpl.
  - intuition congruence.
  - destruct (String.eqb_spec k k') as [->|Hne]; simpl.
    + intuition congruence.
    + unfold Dict.keys in IH. rewrite IH. intuition congruence.
Qed.

Lemma keys_set_congr {V W} (k : string) (v : V) (w : W) (d : Dict.t V) (e : Dict.t W) :
  Dict.keys d = Dict.keys e ->
  Dict.keys (Dict.set k v d) = Dict.keys (Dict.set k w e).
Proof.
  revert e; induction d as [|[k1 v1] r IH]; intros [|[k2 v2] e] H; simpl in *;
    try discriminate; [reflexivity|].
  injection H as -> H.
  destruct (String.eqb k k2); simpl; f_equal; [exact H | now apply IH].
Qed.

Lemma get_set_same {V} (k : string) (v : V) (d : Dict.t V) :
  Dict.get k (Dict.set k v d) = Some v.
Proof.
  induction d as [|[k' v'] r IH]; simpl.
  - now rewrite String.eqb_refl.
  - destruct (String.eqb k k') eqn:E; simpl; rewrite E; [reflexivity | exact IH].
Qed.

Lemma get_set_other {V} (k k' : string) (v : V) (d : Dict.t V) :
  k' <> k -> Dict.get k' (Dict.set k v d) = Dict.get k' d.
Proof.
  intros Hne. induction d as [|[k1 v1] r IH]; simpl.
  - destruct (String.eqb_spec k' k); [contradiction | reflexivity].
  - destruct (String.eqb_spec k k1) as [->|Hk]; simpl.
    + destruct (String.eqb_spec k' k1); [contradiction | reflexivity].
    + now rewrite IH.
Qed.

(** ** One turn of the loop and the whole loop *)

Lemma loop_body_turn (st : batch) (symbol : string) :
  loop_body st symbol = Ok (apply_turn st symbol (classify symbol)).
Proof.
  unfold loop_body, classify, apply_turn.
  destruct (fetch_default symbol) as [df|e]; simpl; [|reflexivity].
  destruct (Series.iloc_last (Rolling_Std_4h df)) as [[v|]|e]; reflexivity.
Qed.

Lemma run_cons (a : string) (r : list string) (st : batch) :
  run (a :: r) st = run r (apply_turn st a (classify a)).
Proof. reflexivity. Qed.

Lemma for_each_run (symbols : list string) (st : batch) :
  for_each symbols st = Ok (run symbols st).
Proof.
  revert st; induction symbols as [|s r IH]; intros st; simpl; [reflexivity|].
  rewrite loop_body_turn. simpl. apply IH.
Qed.

Lemma fetch_data_and_plot_run (symbols : list string) :
  fetch_data_and_plot symbols = Ok (render (run symbols start)).
Proof.
  unfold fetch_data_and_plot. fold start. rewrite for_each_run. simpl.
  unfold render. destruct (Dict.truthy _); reflexivity.
Qed.

Lemma render_result (st : batch) : result (render st) = result st.
Proof. unfold render. destruct (Dict.truthy _); reflexivity. Qed.

Lemma render_dfs (st : batch) : dfs (render st) = dfs st.
Proof. unfold render. destruct (Dict.truthy _); reflexivity. Qed.

Lemma render_ui (st : batch) (ev : ui_event) :
  In ev (ui st) -> In ev (ui (render st)).
Proof.
  intros H. unfold render.
  destruct (Dict.truthy _); simpl; apply in_or_app; now left.
Qed.

Lemma run_keys (symbols : list string) (st : batch) (s : string) :
  (In s (Dict.keys (result (run symbols st))) <->
   In s (Dict.keys (result st)) \/
   (In s symbols /\ exists v df, classify s = Collected v df)) /\
  (In s (Dict.keys (dfs (run symbols st))) <->
   In s (Dict.keys (dfs st)) \/
   (In s symbols /\ exists v df, classify s = Collected v df)).
Proof.
  revert st; induction symbols as [|a r IH]; intros st.
  - simpl. split; (split; [now left | intros [H|[[] _]]; exact H]).
  - rewrite run_cons.
    destruct (IH (apply_turn st a (classify a))) as [IHr IHd].
    rewrite IHr, IHd. clear IH IHr IHd.
    destruct (classify a) as [v df| |e] eqn:Ea; cbn [apply_turn result dfs];
      rewrite ?keys_set_in; simpl In.
    + assert (Ha : a = s -> exists v df, classify s = Collected v df)
        by (intros <-; eauto).
      assert (Hs : s = a <-> a = s) by (split; congruence).
      tauto.
    + assert (Ha : a = s -> ~ exists v df, classify s = Collected v df)
        by (intros <- (v' & df' & H); congruence).
      tauto.
    + assert (Ha : a = s -> ~ exists v df, classify s = Collected v df)
        by (intros <- (v' & df' & H); congruence).
      tauto.
Qed.

Lemma run_keys_eq (symbols : list string) (st : batch) :
  Dict.keys (result st) = Dict.keys (dfs st) ->
  Dict.keys (result (run symbols st)) = Dict.keys (dfs (run symbols st)).
Proof.
  revert st; induction symbols as [|a r IH]; intros st H; [exact H|].
  rewrite run_cons.
  apply IH. destruct (classify a); cbn [apply_turn result dfs]; auto.
  now apply keys_set_congr.
Qed.

Lemma run_get (symbols : list string) (st : batch) (s : string) (v : Q) (df : DataFrame) :
  classify s = Collected v df ->
  (Dict.get s (result st) = Some v /\ Dict.get s (dfs st) = Some df) \/ In s symbols ->
  Dict.get s (result (run symbols st)) = Some v /\
  Dict.get s (dfs (run symbols st)) = Some df.
Proof.
  intros Hs. revert st; induction symbols as [|a r IH]; intros st H.
  - destruct H as [H|[]]. exact H.
  - rewrite run_cons.
    apply IH.
    destruct (String.eqb_spec s a) as [->|Hne].
    + left. rewrite Hs. cbn [apply_turn result dfs].
      now rewrite !get_set_same.
    + destruct H as [H|[E|H]]; [|congruence|now right].
      left. destruct (classify a); cbn [apply_turn result dfs];
        rewrite ?get_set_other by exact Hne; exact H.
Qed.

Lemma run_ui (symbols : list string) (st : batch) :
  ui (run symbols st) = (ui st ++ flat_map errors_of symbols)%list.
Proof.
  revert st; induction symbols as [|a r IH]; intros st.
  - simpl. now rewrite app_nil_r.
  - rewrite run_cons.
    rewrite IH. cbn [flat_map].
    assert (E : ui (apply_turn st a (classify a)) = (ui st ++ errors_of a)%list).
    { unfold errors_of. destruct (classify a); cbn [apply_turn ui];
        rewrite ?app_nil_r; reflexivity. }
    now rewrite E, <- app_assoc.
Qed.

Lemma run_frame (symbols : list string) (st1 st2 : batch) :
  result st1 = result st2 -> dfs st1 = dfs st2 ->
  result (run symbols st1) = result (run symbols st2) /\
  dfs (run symbols st1) = dfs (run symbols st2).
Proof.
  revert st1 st2; induction symbols as [|a r IH]; intros st1 st2 Hr Hd.
  - now split.
  - rewrite !run_cons.
    apply IH; destruct (classify a); cbn [apply_turn result dfs]; congruence.
Qed.

Lemma run_app (pre post : list string) (st : batch) :
  run (pre ++ post) st = run post (run pre st).
Proof. unfold run. apply fold_left_app. Qed.

Lemma run_skip_failed (pre post : list string) (b : string) (e : exn) (st : batch) :
  classify b = Failed e ->
  result (run (pre ++ b :: post) st) = result (run (pre ++ post) st) /\
  dfs (run (pre ++ b :: post) st) = dfs (run (pre ++ post) st).
Proof.
  intros Hb. rewrite !run_app, run_cons.
  apply run_frame; rewrite Hb; reflexivity.
Qed.

Lemma classify_collected (s : string) (v : Q) (df : DataFrame) :
  classify s = Collected v df <-> succeeds s v df.
Proof.
  unfold classify, succeeds.
  destruct (fetch_default s) as [df'|e].
  - destruct (Series.iloc_last (Rolling_Std_4h df')) as [[v'|]|e] eqn:E.
    + split.
      * intros H. injection H as -> ->. now split.
      * intros [H1 H2]. injection H1 as <-. rewrite E in H2.
        injection H2 as <-. reflexivity.
    + split; [discriminate|]. intros [H1 H2]. injection H1 as <-.
      rewrite E in H2. discriminate.
    + split; [discriminate|]. intros [H1 H2]. injection H1 as <-.
      rewrite E in H2. discriminate.
  - split; [discriminate | intros [H _]; discriminate].
Qed.

Lemma classify_failed (s : string) (e : exn) :
  raises s e -> classify s = Failed e.
Proof.
  unfold classify, raises. intros [H | [df [H1 H2]]].
  - now rewrite H.
  - now rewrite H1, H2.
Qed.

Lemma classify_filtered (s : string) (df : DataFrame) :
  fetch_default s = Ok df ->
  Series.iloc_last (Rolling_Std_4h df) = Ok NaN ->
  classify s = Filtered.
Proof. unfold classify. intros -> ->. reflexivity. Qed.

Lemma start_keys : Dict.keys (result start) = Dict.keys (dfs start).
Proof. reflexivity. Qed.

(** C2.  The batch function never raises, whatever the symbols.  Its result
    holds exactly the symbols of the list whose turn succeeded, each with
    its value and frame; every symbol whose turn raised has its error sent
    to the page; taking a raising symbol out of the list changes neither
    the values nor the frames collected for the others; and a turn that
    raises leaves both dicts as they were and the loop goes on with the
    symbols that follow. *)
Theorem failure_does_not_abort_batch (symbols : list string) :
  exists out,
    fetch_data_and_plot symbols = Ok out /\
    (forall s, In s (Dict.keys (result out)) <->
               In s symbols /\ exists v df, succeeds s v df) /\
    (forall s v df, In s symbols -> succeeds s v df ->
       Dict.get s (result out) = Some v /\ Dict.get s (dfs out) = Some df) /\
    (forall s e, In s symbols -> raises s e ->
       ~ In s (Dict.keys (result out)) /\
       In (st_error ("Error fetching data for " ++ s ++ ": " ++ str e)) (ui out)) /\
    (forall pre b post e, symbols = (pre ++ b :: post)%list -> raises b e ->
       exists out', fetch_data_and_plot (pre ++ post) = Ok out' /\
                    result out' = result out /\ dfs out' = dfs out) /\
    (forall st b rest e, raises b e ->
       exists st', loop_body st b = Ok st' /\
                   result st' = result st /\ dfs st' = dfs st /\
                   for_each (b :: rest) st = for_each rest st').
Proof.
  exists (render (run symbols start)).
  split; [apply fetch_data_and_plot_run|].
  assert (Hkeys : forall s, In s (Dict.keys (result (render (run symbols start)))) <->
                            In s symbols /\ exists v df, succeeds s v df).
  { intros s. rewrite render_result.
    destruct (run_keys symbols start s) as [Hk _]. rewrite Hk. simpl.
    split.
    - intros [[]|[Hin [v [df H]]]]. split; [exact Hin|].
      exists v, df. now apply classify_collected.
    - intros [Hin [v [df H]]]. right. split; [exact Hin|].
      exists v, df. now apply classify_collected. }
  split; [exact Hkeys|]. split; [|split; [|split]].
  - intros s v df Hin Hs. rewrite render_result, render_dfs.
    apply run_get; [now apply classify_collected | now right].
  - intros s e Hin Hr. split.
    + rewrite Hkeys. intros [_ [v [df Hs]]].
      apply classify_collected in Hs. apply classify_failed in Hr. congruence.
    + apply render_ui. rewrite run_ui. simpl. apply in_flat_map.
      exists s. split; [exact Hin|].
      unfold errors_of. rewrite (classify_failed s e Hr). now left.
  - intros pre b post e -> Hr.
    exists (render (run (pre ++ post) start)).
    split; [apply fetch_data_and_plot_run|].
    rewrite !render_result, !render_dfs.
    destruct (run_skip_failed pre post b e start (classify_failed b e Hr)) as [H1 H2].
    now rewrite H1, H2.
  - intros st b rest e Hr. eexists. split; [apply loop_body_turn|].
    rewrite (classify_failed b e Hr). cbn [apply_turn result dfs].
    split; [reflexivity|]. split; [reflexivity|].
    cbn [for_each]. rewrite loop_body_turn, (classify_failed b e Hr).
    reflexivity.
Qed.


(** C10.  The batch function returns with a ranking dict and a dict of
    frames that hold the same symbols (in the same order), and every turn of
    the loop keeps the two key lists equal. *)
Theorem ranking_keys_equal_series_keys (symbols : list string) :
  exists out,
    fetch_data_and_plot symbols = Ok out /\
    Dict.keys (result out) = Dict.keys (dfs out) /\
    (forall s, In s (Dict.keys (result out)) <-> In s (Dict.keys (dfs out))) /\
    (forall st symbol,
       Dict.keys (result st) = Dict.keys (dfs st) ->
       exists st', loop_body st symbol = Ok st' /\
                   Dict.keys (result st') = Dict.keys (dfs st')).
Proof.
  exists (render (run symbols start)).
  split; [apply fetch_data_and_plot_run|].
  assert (E : Dict.keys (result (render (run symbols start))) =
              Dict.keys (dfs (render (run symbols start)))).
  { rewrite render_result, render_dfs. apply run_keys_eq, start_keys. }
  split; [exact E|]. split.
  - intros s. now rewrite E.
  - intros st symbol H. eexists. split; [apply loop_body_turn|].
    apply (run_keys_eq [symbol] st H).
Qed.

(** ** Ranking *)


(** ** The colour column *)

Lemma Qmax_cases (x y : Q) : Qmax x y = x \/ Qmax x y = y.
Proof.
  unfold Qmax, GenericMinMax.gmax. destruct (x ?= y)%Q; auto.
Qed.

Lemma Qmin_cases (x y : Q) : Qmin x y = x \/ Qmin x y = y.
Proof.
  unfold Qmin, GenericMinMax.gmin. destruct (x ?= y)%Q; auto.
Qed.

Lemma fold_max_spec (r : list Q) (x : Q) :
  In (fold_left Qmax r x) (x :: r) /\
  forall y, In y (x :: r) -> (y <= fold_left Qmax r x)%Q.
Proof.
  revert x; induction r as [|a r IH]; intros x; simpl.
  - split; [now left|]. intros y [<-|[]]. apply Qle_refl.
  - destruct (IH (Qmax x a)) as [Hin Hle]. split.
    + destruct Hin as [E|Hin]; [|now right; right].
      destruct (Qmax_cases x a) as [Hx|Ha]; rewrite <- E, ?Hx, ?Ha; auto.
    + intros y [<-|[<-|Hy]].
      * eapply Qle_trans; [apply Q.le_max_l | apply Hle; now left].
      * eapply Qle_trans; [apply Q.le_max_r | apply Hle; now left].
      * apply Hle. now right.
Qed.

Lemma fold_min_spec (r : list Q) (x : Q) :
  In (fold_left Qmin r x) (x :: r) /\
  forall y, In y (x :: r) -> (fold_left Qmin r x <= y)%Q.
Proof.
  revert x; induction r as [|a r IH]; intros x; simpl.
  - split; [now left|]. intros y [<-|[]]. apply Qle_refl.
  - destruct (IH (Qmin x a)) as [Hin Hle]. split.
    + destruct Hin as [E|Hin]; [|now right; right].
      destruct (Qmin_cases x a) as [Hx|Ha]; rewrite <- E, ?Hx, ?Ha; auto.
    + intros y [<-|[<-|Hy]].
      * eapply Qle_trans; [apply Hle; now left | apply Q.le_min_l].
      * eapply Qle_trans; [apply Hle; now left | apply Q.le_min_r].
      * apply Hle. now right.
Qed.

Lemma col_max_spec (col : list Q) (mx : Q) :
  col_max col = Some mx -> In mx col /\ forall y, In y col -> (y <= mx)%Q.
Proof.
  destruct col as [|x r]; [discriminate|].
  unfold col_max. intros H. injection H as <-. apply fold_max_spec.
Qed.

Lemma col_min_spec (col : list Q) (mn : Q) :
  col_min col = Some mn -> In mn col /\ forall y, In y col -> (mn <= y)%Q.
Proof.
  destruct col as [|x r]; [discriminate|].
  unfold col_min. intros H. injection H as <-. apply fold_min_spec.
Qed.

(** In the bar chart the divisor [max - min] is zero only when every value
    of the column equals both, so the dividend is zero too: the quotient is
    zero over zero, [NaN] in the code as it is by [fdiv]. *)
Lemma plot_data_zero_divisor (data : Dict.t Q) (mx mn : Q) :
  let col := map snd (sort_values_desc (Dict.items data)) in
  col_max col = Some mx -> col_min col = Some mn ->
  (mx - mn == 0)%Q ->
  forall y, In y col -> (y - mn == 0)%Q.
Proof.
  intros col Hmx Hmn Hz y Hy.
  destruct (col_max_spec col mx Hmx) as [_ Hle].
  destruct (col_min_spec col mn Hmn) as [_ Hge].
  specialize (Hle y Hy). specialize (Hge y Hy). lra.
Qed.

Lemma Qeq_bool_range (mx mn : Q) : Qeq_bool (mx - mn) 0 = Qeq_bool mx mn.
Proof.
  apply Bool.eq_iff_eq_true. rewrite !Qeq_bool_iff. split; intros H; lra.
Qed.

(** C6 (as the code has it).  Let [max] and [min] be the largest and the
    smallest value of the ranked column.  When they are equal, which is the
    case exactly when all values of the column are equal (a single entry
    included), the colour of every entry is missing: the quotient is taken
    with a zero divisor and no midpoint is put in its place.  Otherwise the
    colour of an entry with value [v] is [(v - min) / (max - min)]. *)
Theorem normalized_position_of_ranked_entries (data : Dict.t Q) (mx mn : Q) :
  let df_plot := sort_values_desc (Dict.items data) in
  let col := map snd df_plot in
  col_max col = Some mx ->
  col_min col = Some mn ->
  (In mx col /\ forall v, In v col -> (v <= mx)%Q) /\
  (In mn col /\ forall v, In v col -> (mn <= v)%Q) /\
  (mx == mn <-> forall v w, In v col -> In w col -> v == w) /\
  (mx == mn ->
   plot_data data = map (fun row => (fst row, snd row, NaN)) df_plot) /\
  (~ mx == mn ->
   plot_data data =
   map (fun row => (fst row, snd row, Some ((snd row - mn) / (mx - mn))%Q)) df_plot).
Proof.
  intros df_plot col Hmx Hmn.
  destruct (col_max_spec col mx Hmx) as [Hmx_in Hmx_le].
  destruct (col_min_spec col mn Hmn) as [Hmn_in Hmn_le].
  assert (Hplot : plot_data data =
                  map (fun row => (fst row, snd row,
                                   if Qeq_bool mx mn then NaN
                                   else Some ((snd row - mn) / (mx - mn))%Q))
                      df_plot).
  { unfold plot_data. cbv zeta. fold df_plot. fold col. rewrite Hmx, Hmn.
    apply map_ext. intros row. simpl. now rewrite Qeq_bool_range. }
  split; [now split|]. split; [now split|]. split; [|split].
  - split.
    + intros E v w Hv Hw.
      pose proof (Hmx_le v Hv). pose proof (Hmn_le v Hv).
      pose proof (Hmx_le w Hw). pose proof (Hmn_le w Hw). lra.
    + intros H. now apply H.
  - intros E. rewrite Hplot. apply map_ext. intros row.
    apply Qeq_bool_iff in E. now rewrite E.
  - intros NE. rewrite Hplot. apply map_ext. intros row.
    destruct (Qeq_bool mx mn) eqn:E; [|reflexivity].
    apply Qeq_bool_iff in E. contradiction.
Qed.

(** ** Returns, position by position *)

Lemma zip_with_nth {A B C} (f : A -> B -> C) (l : list A) (r : list B) (i : nat) :
  nth_error (Series.zip_with f l r) i =
  match nth_error l i, nth_error r i with
  | Some a, Some b => Some (f a b)
  | _, _ => None
  end.
Proof.
  revert r i; induction l as [|a l IH]; intros [|b r] [|i]; simpl; try reflexivity.
  - destruct (nth_error l i); reflexivity.
  - apply IH.
Qed.

Lemma removelast_nth {A} (l : list A) (i : nat) :
  S i < length l -> nth_error (removelast l) i = nth_error l i.
Proof.
  revert i; induction l as [|a l IH]; intros i Hi; [simpl in Hi; lia|].
  destruct l as [|b l]; [simpl in Hi; lia|].
  change (removelast (a :: b :: l)) with (a :: removelast (b :: l)).
  destruct i as [|i]; [reflexivity|].
  simpl nth_error. apply IH. simpl in *. lia.
Qed.

Lemma shift_nth (s : list xfloat) (i : nat) :
  S i < length s -> nth_error (Series.shift s) (S i) = nth_error s i.
Proof.
  intros Hi. destruct s as [|a l]; [simpl in Hi; lia|].
  unfold Series.shift. cbn [nth_error]. now apply removelast_nth.
Qed.

Lemma ffill_from_nth_defined (prev : xfloat) (s : list xfloat) (i : nat) (q : Q) :
  nth_error s i = Some (XNum q) ->
  nth_error (Series.ffill_from prev s) i = Some (XNum q).
Proof.
  revert prev i; induction s as [|x r IH]; intros prev [|i] H; simpl in *;
    try discriminate.
  - injection H as ->. reflexivity.
  - now apply IH.
Qed.

Lemma pct_change_nth (pad : bool) (s : list xfloat) (i : nat) (p q : Q) :
  nth_error s i = Some (XNum p) ->
  nth_error s (S i) = Some (XNum q) ->
  nth_error (Series.pct_change pad s) (S i) =
  Some (xsub (xdiv (XNum q) (XNum p)) 1%Q).
Proof.
  intros Hp Hq. unfold Series.pct_change.
  set (data := if pad then Series.ffill s else s).
  assert (Dp : nth_error data i = Some (XNum p)).
  { subst data. destruct pad; [now apply ffill_from_nth_defined | exact Hp]. }
  assert (Dq : nth_error data (S i) = Some (XNum q)).
  { subst data. destruct pad; [now apply ffill_from_nth_defined | exact Hq]. }
  assert (Hlen : S i < length data).
  { apply nth_error_Some. rewrite Dq. discriminate. }
  rewrite zip_with_nth, Dq, shift_nth, Dp by exact Hlen. reflexivity.
Qed.

Lemma pct_change_nth_missing (s : list xfloat) (i : nat) :
  S i < length s ->
  nth_error s i = Some XNaN \/ nth_error s (S i) = Some XNaN ->
  nth_error (Series.pct_change false s) (S i) = Some XNaN.
Proof.
  intros Hi H. unfold Series.pct_change.
  rewrite zip_with_nth, shift_nth by exact Hi.
  destruct (nth_error s (S i)) as [b|] eqn:Eb.
  - destruct (nth_error s i) as [a|] eqn:Ea.
    + destruct H as [H|H]; injection H as ->; [destruct b|]; reflexivity.
    + exfalso. apply nth_error_None in Ea. lia.
  - exfalso. apply nth_error_None in Eb. lia.
Qed.

Lemma close_column_normalize (kline_data : list candle) :
  close_column (normalize kline_data) = rev (delivered_closes kline_data).
Proof.
  unfold close_column, normalize, delivered_closes.
  rewrite map_map, map_rev. f_equal.
Qed.

(** X1.  The close column of the frame is the numeric close of the candles
    in the reverse of the order delivered, and the return at a position is
    the close there over the close just before it, minus one, whenever both
    are numbers and the earlier one is not zero.  When [pct_change] does not
    pad, a missing close makes the return at its position and at the next
    one missing. *)
Theorem returns_are_simple_returns
    (kline_data : list candle) (window_size i : nat) (p q : Q) :
  let df := analyze kline_data window_size in
  let closes := close_column (rows df) in
  closes = rev (delivered_closes kline_data) /\
  (nth_error closes i = Some (XNum p) ->
   nth_error closes (S i) = Some (XNum q) ->
   ~ p == 0 ->
   nth_error (Returns df) (S i) = Some (XNum (q / p - 1)%Q)) /\
  (pct_change_pads = false ->
   S i < length closes ->
   nth_error closes i = Some XNaN \/ nth_error closes (S i) = Some XNaN ->
   nth_error (Returns df) (S i) = Some XNaN).
Proof.
  intros df closes.
  split; [apply close_column_normalize|]. split.
  - intros Hp Hq Hz. subst df closes. unfold analyze in *. cbn [rows Returns] in *.
    rewrite (pct_change_nth _ _ i p q Hp Hq). simpl.
    destruct (Qeq_bool p 0) eqn:E; [|reflexivity].
    apply Qeq_bool_iff in E. contradiction.
  - intros Hpad Hi H. subst df closes. unfold analyze in *. cbn [rows Returns] in *.
    rewrite Hpad. now apply pct_change_nth_missing.
Qed.

(** ** The last rolling value and short histories *)

Lemma iloc_last_nth {A} (s : list A) (x : A) :
  Series.iloc_last s = Ok x <-> s <> [] /\ nth_error s (length s - 1) = Some x.
Proof.
  induction s as [|a s IH]; [split; [discriminate | intros [H _]; congruence]|].
  destruct s as [|b s].
  - simpl. split.
    + intros H. injection H as ->. split; [discriminate | reflexivity].
    + intros [_ H]. now injection H as ->.
  - change (Series.iloc_last (a :: b :: s)) with (Series.iloc_last (b :: s)).
    rewrite IH. cbn [length]. rewrite !Nat.sub_succ, !Nat.sub_0_r. simpl nth_error.
    split; intros [_ H]; (split; [discriminate | exact H]).
Qed.

Lemma rolling_std_head_missing (w i : nat) (s : list xfloat) :
  nth_error s 0 = Some XNaN -> i < length s -> i < w ->
  nth_error (rolling_std w s) i = Some NaN.
Proof.
  intros H0 Hi Hw.
  destruct (Nat.eq_dec (i + 1) w) as [E|NE].
  - apply rolling_std_gap; [exact Hi | lia |].
    intros xs Hwin. unfold trailing_window in Hwin.
    replace (i + 1 - w) with 0 in Hwin by lia.
    destruct s as [|r0 rs]; [discriminate|].
    simpl in H0. injection H0 as ->.
    destruct w as [|w]; [lia|]. destruct xs; discriminate.
  - apply rolling_std_short; [exact Hi | lia].
Qed.

Lemma returns_head (kline_data : list candle) (window_size : nat) :
  kline_data <> [] ->
  nth_error (Returns (analyze kline_data window_size)) 0 = Some XNaN.
Proof.
  intros Hne. unfold analyze. cbn [Returns]. apply pct_change_head.
  intros Hnil. apply (f_equal (@length xfloat)) in Hnil.
  unfold close_column in Hnil. rewrite length_map, normalize_length in Hnil.
  destruct kline_data; [congruence | discriminate].
Qed.

Lemma rolling_missing_before_window (kline_data : list candle) (window_size i : nat) :
  i < length kline_data -> i < window_size ->
  nth_error (Rolling_Std_4h (analyze kline_data window_size)) i = Some NaN.
Proof.
  intros Hi Hw.
  change (Rolling_Std_4h (analyze kline_data window_size))
    with (rolling_std window_size (Returns (analyze kline_data window_size))).
  apply rolling_std_head_missing; [|now rewrite returns_length | exact Hw].
  apply returns_head. intros ->. simpl in Hi. lia.
Qed.

Lemma rolling_column_length (kline_data : list candle) (window_size : nat) :
  length (Rolling_Std_4h (analyze kline_data window_size)) = length kline_data.
Proof.
  unfold analyze, rolling_std. cbn [Rolling_Std_4h].
  rewrite rolling_length, length_map, pct_change_length. unfold close_column.
  now rewrite length_map, normalize_length.
Qed.

(** X2.  A frame with no more rows than the window has no rolling value at
    all; so a symbol for which the provider delivers rows that make a frame
    of between one and eight candles passes its turn without a ranking
    entry, without a frame kept and without anything reported. *)
Theorem short_history_is_dropped_silently
    (symbol : string) (r : response) (kline_data : list (list cell))
    (df : list candle) (st : batch) :
  request symbol 48 "15" = Ok r ->
  response_list r = Some kline_data ->
  frame_of_kline kline_data = Ok df ->
  1 <= length df <= 8 ->
  (forall w, length df <= w ->
     Forall (fun x => x = NaN) (Rolling_Std_4h (analyze df w))) /\
  loop_body st symbol = Ok st.
Proof.
  intros Hreq Hl Hframe Hn.
  assert (Hall : forall w, length df <= w ->
                 Forall (fun x => x = NaN) (Rolling_Std_4h (analyze df w))).
  { intros w Hw. apply Forall_forall. intros x Hx.
    destruct (In_nth_error _ _ Hx) as [i Hi].
    assert (Hlt : i < length df).
    { rewrite <- (rolling_column_length df w).
      apply nth_error_Some. rewrite Hi. discriminate. }
    rewrite rolling_missing_before_window in Hi by lia.
    now injection Hi as <-. }
  split; [exact Hall|].
  rewrite loop_body_turn.
  assert (Hf : fetch_default symbol = Ok (analyze df 8)).
  { unfold fetch_default. now rewrite fetch_cases, Hreq, Hl, Hframe. }
  assert (Hlast : Series.iloc_last (Rolling_Std_4h (analyze df 8)) = Ok NaN).
  { apply iloc_last_nth. split.
    - intros E. apply (f_equal (@length float)) in E.
      rewrite rolling_column_length in E. simpl in E. lia.
    - rewrite rolling_column_length.
      apply rolling_missing_before_window; lia. }
  now rewrite (classify_filtered symbol _ Hf Hlast).
Qed.

(** ** The variance under the root *)

Lemma Qsum_squares_nonneg (m : Q) (xs : list Q) :
  (0 <= Series.Qsum (map (fun x => (x - m) * (x - m)) xs))%Q.
Proof.
  induction xs as [|x r IH]; simpl; [apply Qle_refl|].
  assert (H : (0 <= (x - m) * (x - m))%Q).
  { destruct (Qlt_le_dec (x - m) 0).
    - setoid_replace ((x - m) * (x - m))%Q with ((- (x - m)) * (- (x - m)))%Q by ring.
      apply Qmult_le_0_compat; lra.
    - apply Qmult_le_0_compat; lra. }
  lra.
Qed.

Lemma inject_nat_pos (n : nat) : 1 <= n -> (0 < inject_Z (Z.of_nat n))%Q.
Proof. intros H. unfold Qlt. simpl. lia. Qed.

Lemma var1_value_nonneg (xs : list Q) : 2 <= length xs -> (0 <= var1_value xs)%Q.
Proof.
  intros H. unfold var1_value. cbv zeta.
  apply Qle_shift_div_l; [apply inject_nat_pos; lia|].
  rewrite Qmult_0_l. apply Qsum_squares_nonneg.
Qed.

Lemma Qsum_repeat (y : Q) (n : nat) :
  Series.Qsum (repeat y n) == inject_Z (Z.of_nat n) * y.
Proof.
  induction n as [|n IH].
  - simpl. ring.
  - cbn [repeat Series.Qsum fold_right]. fold (Series.Qsum (repeat y n)).
    rewrite IH, Nat2Z.inj_succ. unfold Z.succ. rewrite inject_Z_plus. ring.
Qed.

Lemma var1_value_constant (c : Q) (n : nat) :
  2 <= n -> var1_value (repeat c n) == 0.
Proof.
  intros Hn. unfold var1_value, Series.mean. cbv zeta.
  rewrite map_repeat, repeat_length, !Qsum_repeat.
  assert (Hpos := inject_nat_pos n ltac:(lia)).
  assert (Hpos' := inject_nat_pos (n - 1) ltac:(lia)).
  set (k := inject_Z (Z.of_nat n)) in *.
  set (k' := inject_Z (Z.of_nat (n - 1))) in *.
  assert (Hm : k * c / k == c) by (field; lra).
  rewrite Hm. field. lra.
Qed.

(** X3.  Every rolling value of the frame is the root of a number that is
    not negative, it needs a window of at least two and a position past the
    window size, and it is the root of zero when the returns of its window
    are all the same number. *)
Theorem rolling_value_is_root_of_nonnegative
    (kline_data : list candle) (window_size i : nat) (v : Q) :
  let df := analyze kline_data window_size in
  nth_error (Rolling_Std_4h df) i = Some (Some v) ->
  2 <= window_size /\ window_size <= i /\
  exists s, v = sqrt s /\ (0 <= s)%Q /\
    (forall c, trailing_window window_size i (Returns df)
               = repeat (XNum c) window_size -> s == 0).
Proof.
  intros df Hv.
  assert (Hi : i < length kline_data).
  { rewrite <- (rolling_column_length kline_data window_size).
    apply nth_error_Some. fold df. rewrite Hv. discriminate. }
  assert (Hwi : window_size <= i).
  { destruct (le_lt_dec window_size i) as [H|H]; [exact H|].
    subst df. rewrite rolling_missing_before_window in Hv by assumption.
    discriminate. }
  assert (Hlen : i < length (Returns df)) by (subst df; now rewrite returns_length).
  change (Rolling_Std_4h df) with (rolling_std window_size (Returns df)) in Hv.
  unfold rolling_std in Hv.
  rewrite rolling_nth in Hv by now rewrite length_map. cbv zeta in Hv.
  rewrite window_at_trailing in Hv by lia.
  rewrite trailing_window_map in Hv.
  set (win := trailing_window window_size i (Returns df)) in *.
  assert (Hwl : length win = window_size)
    by (apply trailing_window_length; [lia | exact Hlen]).
  pose proof (observations_length_le (map prep win)) as Hle.
  rewrite length_map in Hle.
  destruct (Nat.ltb_spec (length (Series.observations (map prep win))) window_size)
    as [Hlt|Hge]; [discriminate|].
  unfold std, Series.var in Hv.
  destruct (Nat.leb_spec (length (Series.observations (map prep win))) 1) as [H1|H1];
    [discriminate|].
  injection Hv as Hv.
  split; [lia|]. split; [exact Hwi|].
  exists (var1_value (Series.observations (map prep win))).
  split; [now rewrite <- Hv|]. split; [apply var1_value_nonneg; lia|].
  intros c Hc. rewrite Hc.
  replace (Series.observations (map prep (repeat (XNum c) window_size)))
    with (repeat c window_size).
  - apply var1_value_constant. lia.
  - rewrite <- (observations_map_Some (repeat c window_size)).
    now rewrite !map_repeat.
Qed.

(** ** The ranking value in terms of the candles delivered *)

Lemma simple_returns_length (l : list Q) :
  length (simple_returns l) = length l - 1.
Proof.
  induction l as [|a [|b r] IH]; try reflexivity.
  change (simple_returns (a :: b :: r))
    with ((b / a - 1)%Q :: simple_returns (b :: r)).
  cbn [length] in *. rewrite IH. lia.
Qed.

Lemma simple_returns_nth (l : list Q) (j : nat) (a b : Q) :
  nth_error l j = Some a -> nth_error l (S j) = Some b ->
  nth_error (simple_returns l) j = Some (b / a - 1)%Q.
Proof.
  revert j; induction l as [|x [|y r] IH]; intros j Ha Hb.
  - destruct j; discriminate.
  - destruct j as [|[|j]]; discriminate.
  - change (simple_returns (x :: y :: r))
      with ((y / x - 1)%Q :: simple_returns (y :: r)).
    destruct j as [|j].
    + simpl in Ha, Hb. injection Ha as ->. injection Hb as ->. reflexivity.
    + simpl nth_error. apply IH; assumption.
Qed.

Lemma pct_change_tail (pad : bool) (s : list xfloat) (k : nat) (l : list Q) :
  skipn k s = map XNum l ->
  Forall (fun p => ~ p == 0) (removelast l) ->
  skipn (S k) (Series.pct_change pad s) = map XNum (simple_returns l).
Proof.
  intros Hs Hnz. apply nth_error_ext. intros j.
  rewrite nth_error_skipn. cbn [Nat.add].
  assert (Hat : forall t, nth_error s (k + t) = nth_error (map XNum l) t).
  { intros t. now rewrite <- Hs, nth_error_skipn. }
  destruct (le_lt_dec (length l) (S j)) as [Hout|Hin].
  - transitivity (@None xfloat).
    + apply nth_error_None. rewrite pct_change_length.
      assert (Hn : nth_error s (k + S j) = None).
      { rewrite Hat. apply nth_error_None. now rewrite length_map. }
      apply nth_error_None in Hn. lia.
    + symmetry. apply nth_error_None.
      rewrite length_map, simple_returns_length. lia.
  - destruct (nth_error l j) as [a|] eqn:Ea;
      [|apply nth_error_None in Ea; lia].
    destruct (nth_error l (S j)) as [b|] eqn:Eb;
      [|apply nth_error_None in Eb; lia].
    assert (Hsa : nth_error s (k + j) = Some (XNum a)).
    { rewrite Hat, nth_error_map, Ea. reflexivity. }
    assert (Hsb : nth_error s (S (k + j)) = Some (XNum b)).
    { replace (S (k + j)) with (k + S j) by lia.
      rewrite Hat, nth_error_map, Eb. reflexivity. }
    rewrite (pct_change_nth pad s (k + j) a b Hsa Hsb).
    rewrite nth_error_map, (simple_returns_nth l j a b Ea Eb). simpl.
    assert (Hza : ~ a == 0).
    { rewrite Forall_forall in Hnz. apply Hnz.
      apply (nth_error_In _ j). rewrite removelast_nth by exact Hin. exact Ea. }
    destruct (Qeq_bool a 0) eqn:E; [|reflexivity].
    apply Qeq_bool_iff in E. contradiction.
Qed.

Lemma removelast_rev_cons {A} (a : A) (t : list A) :
  removelast (rev (a :: t)) = rev t.
Proof. cbn [rev]. apply removelast_last. Qed.

(** X4.  When the frame of a symbol is built and its nine newest candles
    have numeric, non-zero closes, the symbol is ranked, and its ranking
    value is the root of the sample variance of the eight simple returns
    between those nine closes: the closes of older candles play no part. *)
Theorem ranking_value_from_nine_newest_candles
    (symbol : string) (r : response) (kline_data : list (list cell))
    (frame : list candle) (ps : list Q) :
  request symbol 48 "15" = Ok r ->
  response_list r = Some kline_data ->
  frame_of_kline kline_data = Ok frame ->
  delivered_closes (firstn 9 frame) = map XNum ps ->
  length ps = 9 ->
  Forall (fun p => ~ p == 0) (tl ps) ->
  let xs := simple_returns (rev ps) in
  length xs = 8 /\
  succeeds symbol (sqrt (var1_value xs)) (analyze frame 8) /\
  var1_value xs == sample_variance xs.
Proof.
  intros Hreq Hl Hframe Hps Hlen Hnz xs.
  assert (Hxs : length xs = 8).
  { subst xs. rewrite simple_returns_length, length_rev. lia. }
  set (n := length frame).
  assert (Hn : 9 <= n).
  { apply (f_equal (@length xfloat)) in Hps. unfold delivered_closes in Hps.
    rewrite !length_map, length_firstn in Hps. subst n. lia. }
  set (df := analyze frame 8).
  assert (Hclose : skipn (n - 9) (close_column (rows df)) = map XNum (rev ps)).
  { subst df. unfold analyze. cbn [rows]. rewrite close_column_normalize.
    rewrite skipn_rev, (map_rev XNum ps). unfold delivered_closes in *.
    rewrite length_map. fold n. replace (n - (n - 9)) with 9 by lia.
    now rewrite firstn_map, Hps. }
  assert (Hret : skipn (n - 8) (Returns df) = map XNum xs).
  { replace (n - 8) with (S (n - 9)) by lia.
    subst df xs. unfold analyze in *. cbn [rows Returns] in *.
    apply pct_change_tail; [exact Hclose|].
    destruct ps as [|p0 t]; [discriminate|].
    rewrite removelast_rev_cons. apply Forall_rev. exact Hnz. }
  assert (Hwin : trailing_window 8 (n - 1) (Returns df) = map XNum xs).
  { unfold trailing_window. replace (n - 1 + 1 - 8) with (n - 8) by lia.
    rewrite Hret. apply firstn_all2. rewrite length_map. lia. }
  assert (Hi : n - 1 < length (Returns df))
    by (subst df; rewrite returns_length; fold n; lia).
  destruct (rolling_std_defined 8 (n - 1) (Returns df) xs
              ltac:(lia) Hi ltac:(lia) Hwin) as [_ Hroll].
  split; [exact Hxs|]. split.
  - split.
    + unfold fetch_default. now rewrite fetch_cases, Hreq, Hl, Hframe.
    + apply iloc_last_nth. fold df. split.
      * intros E. apply (f_equal (@length float)) in E. subst df.
        rewrite rolling_column_length in E. fold n in E. simpl in E. lia.
      * subst df. rewrite rolling_column_length. fold n. exact Hroll.
  - apply var1_sample_variance. lia.
Qed.

(** ** The two dicts after the loop *)

Lemma keys_set_present {V} (k : string) (v : V) (d : Dict.t V) :
  In k (Dict.keys d) -> Dict.keys (Dict.set k v d) = Dict.keys d.
Proof.
  induction d as [|[k' v'] r IH]; simpl; [intros []|].
  destruct (String.eqb_spec k k') as [->|Hne]; [reflexivity|].
  intros [E|H]; [congruence|]. simpl. f_equal. now apply IH.
Qed.

Lemma keys_set_absent {V} (k : string) (v : V) (d : Dict.t V) :
  ~ In k (Dict.keys d) -> Dict.keys (Dict.set k v d) = (Dict.keys d ++ [k])%list.
Proof.
  induction d as [|[k' v'] r IH]; simpl; [reflexivity|].
  intros Hn. destruct (String.eqb_spec k k') as [->|Hne]; [tauto|].
  simpl. f_equal. apply IH. tauto.
Qed.

Lemma keys_set_nodup {V} (k : string) (v : V) (d : Dict.t V) :
  NoDup (Dict.keys d) -> NoDup (Dict.keys (Dict.set k v d)).
Proof.
  intros Hd. destruct (in_dec string_dec k (Dict.keys d)) as [Hin|Hout].
  - now rewrite keys_set_present.
  - rewrite keys_set_absent by exact Hout.
    apply NoDup_app; [exact Hd | repeat constructor; intros [] |].
    intros x Hx [<-|[]]. contradiction.
Qed.

Lemma items_set_in {V} (k : string) (v : V) (d : Dict.t V) (s : string) (x : V) :
  In (s, x) (Dict.set k v d) -> (s = k /\ x = v) \/ In (s, x) d.
Proof.
  induction d as [|[k' v'] r IH]; simpl.
  - intros [E|[]]. injection E as <- <-. now left.
  - destruct (String.eqb_spec k k') as [->|Hne]; simpl.
    + intros [E|H]; [injection E as <- <-; now left | now right; right].
    + intros [E|H]; [now right; left|].
      destruct (IH H) as [H'|H']; [now left | now right; right].
Qed.

Lemma collected_true (s : string) :
  collected s = true <-> exists v df, classify s = Collected v df.
Proof.
  unfold collected. destruct (classify s) as [v df| |e].
  - split; [eauto | reflexivity].
  - split; [discriminate | intros (v & df & H); discriminate].
  - split; [discriminate | intros (v & df & H); discriminate].
Qed.

Lemma run_keys_order (symbols : list string) (st : batch) :
  NoDup symbols ->
  (forall s, In s symbols -> ~ In s (Dict.keys (result st))) ->
  (forall s, In s symbols -> ~ In s (Dict.keys (dfs st))) ->
  Dict.keys (result (run symbols st)) =
  (Dict.keys (result st) ++ filter collected symbols)%list /\
  Dict.keys (dfs (run symbols st)) =
  (Dict.keys (dfs st) ++ filter collected symbols)%list.
Proof.
  revert st; induction symbols as [|a r IH]; intros st Hnd Hr Hd.
  - simpl. now rewrite !app_nil_r.
  - rewrite run_cons. inversion Hnd as [|? ? Ha Hnd']; subst.
    assert (Hra : ~ In a (Dict.keys (result st))) by (apply Hr; now left).
    assert (Hda : ~ In a (Dict.keys (dfs st))) by (apply Hd; now left).
    cbn [filter].
    assert (Hc : collected a = match classify a with Collected _ _ => true | _ => false end)
      by reflexivity.
    rewrite Hc. clear Hc.
    destruct (classify a) as [v df| |e] eqn:Ea; cbn [apply_turn].
    + destruct (IH (mkBatch (Dict.set a v (result st)) (Dict.set a df (dfs st)) (ui st))
                  Hnd') as [E1 E2]; cbn [result dfs].
      * intros s Hs. rewrite keys_set_in. intros [->|H]; [contradiction|].
        apply (Hr s); [now right | exact H].
      * intros s Hs. rewrite keys_set_in. intros [->|H]; [contradiction|].
        apply (Hd s); [now right | exact H].
      * cbn [result dfs] in E1, E2. rewrite E1, E2.
        rewrite !keys_set_absent by assumption.
        now rewrite <- !app_assoc.
    + apply IH; [exact Hnd' | |]; intros s Hs; [apply Hr | apply Hd]; now right.
    + destruct (IH (mkBatch (result st) (dfs st)
                            (ui st ++ [st_error (error_message a e)])) Hnd')
        as [E1 E2]; cbn [result dfs];
        [intros s Hs; apply Hr; now right | intros s Hs; apply Hd; now right|].
      now split.
Qed.

Lemma run_keys_nodup (symbols : list string) (st : batch) :
  NoDup (Dict.keys (result st)) -> NoDup (Dict.keys (dfs st)) ->
  NoDup (Dict.keys (result (run symbols st))) /\
  NoDup (Dict.keys (dfs (run symbols st))).
Proof.
  revert st; induction symbols as [|a r IH]; intros st Hr Hd; [now split|].
  rewrite run_cons.
  apply IH; destruct (classify a); cbn [apply_turn result dfs];
    try assumption; now apply keys_set_nodup.
Qed.

Lemma run_keys_length (symbols : list string) (st : batch) :
  length (Dict.keys (result (run symbols st)))
  <= length (Dict.keys (result st)) + length symbols.
Proof.
  revert st; induction symbols as [|a r IH]; intros st; [simpl; lia|].
  rewrite run_cons. specialize (IH (apply_turn st a (classify a))).
  destruct (classify a) as [v df| |e]; cbn [apply_turn result] in IH |- *;
    cbn [length]; try lia.
  destruct (in_dec string_dec a (Dict.keys (result st))) as [Hin|Hout].
  - rewrite keys_set_present in IH by exact Hin. lia.
  - rewrite keys_set_absent, length_app in IH by exact Hout. simpl in IH. lia.
Qed.

(** X5.  For a list of distinct symbols the ranking dict and the dict of
    frames hold the symbols whose turn records a value, in the order of the
    list; a symbol's turn records a value exactly when it succeeds. *)
Theorem ranking_keeps_input_order (symbols : list string) :
  NoDup symbols ->
  exists out,
    fetch_data_and_plot symbols = Ok out /\
    Dict.keys (result out) = filter collected symbols /\
    Dict.keys (dfs out) = filter collected symbols /\
    (forall s, collected s = true <-> exists v df, succeeds s v df).
Proof.
  intros Hnd. exists (render (run symbols start)).
  split; [apply fetch_data_and_plot_run|].
  rewrite render_result, render_dfs.
  destruct (run_keys_order symbols start Hnd) as [E1 E2];
    [intros s _ [] | intros s _ [] |].
  split; [exact E1|]. split; [exact E2|].
  intros s. rewrite collected_true.
  split; intros (v & df & H); exists v, df; now apply classify_collected.
Qed.

(** X6.  Whatever the list, repeated symbols included, each dict holds a
    symbol at most once and has no more entries than the list has symbols. *)
Theorem ranking_has_one_entry_per_symbol (symbols : list string) :
  exists out,
    fetch_data_and_plot symbols = Ok out /\
    NoDup (Dict.keys (result out)) /\
    NoDup (Dict.keys (dfs out)) /\
    length (Dict.items (result out)) <= length symbols.
Proof.
  exists (render (run symbols start)).
  split; [apply fetch_data_and_plot_run|].
  rewrite render_result, render_dfs.
  destruct (run_keys_nodup symbols start (NoDup_nil _) (NoDup_nil _)) as [H1 H2].
  split; [exact H1|]. split; [exact H2|].
  pose proof (run_keys_length symbols start) as H.
  unfold Dict.keys in H. rewrite length_map in H. exact H.
Qed.

(** ** What the batch puts on the page *)

Lemma classify_failed_raises (s : string) (e : exn) :
  classify s = Failed e -> raises s e.
Proof.
  unfold classify, raises. destruct (fetch_default s) as [df|e'].
  - destruct (Series.iloc_last (Rolling_Std_4h df)) as [[v|]|e'] eqn:E;
      try discriminate.
    intros H. injection H as ->. right. now exists df.
  - intros H. injection H as ->. now left.
Qed.

Lemma errors_of_cases (s : string) :
  errors_of s = [] \/
  exists e, raises s e /\
            errors_of s = [st_error ("Error fetching data for " ++ s ++ ": " ++ str e)].
Proof.
  unfold errors_of. destruct (classify s) as [v df| |e] eqn:E; auto.
  right. exists e. split; [now apply classify_failed_raises | reflexivity].
Qed.

Lemma errors_are_not_charts (symbols : list string) :
  Forall (fun ev => is_chart ev = false) (flat_map errors_of symbols).
Proof.
  apply Forall_forall. intros ev Hev. apply in_flat_map in Hev.
  destruct Hev as [s [_ Hs]].
  destruct (errors_of_cases s) as [E|[e [_ E]]]; rewrite E in Hs.
  - destruct Hs.
  - destruct Hs as [<-|[]]. reflexivity.
Qed.

Lemma render_ui_eq (st : batch) :
  ui (render st) =
  (ui st ++ if Dict.truthy (result st)
            then st_plotly_chart (px_bar (plot_data (result st)))
                 :: plot_rolling_std_vs_time (dfs st)
            else [st_error "No data available to display."])%list.
Proof. unfold render. destruct (Dict.truthy (result st)); reflexivity. Qed.

Lemma keys_nil {V} (d : Dict.t V) : Dict.keys d = [] -> d = [].
Proof. destruct d; [reflexivity | discriminate]. Qed.

Lemma run_none_collected (symbols : list string) :
  existsb collected symbols = false ->
  result (run symbols start) = [] /\ dfs (run symbols start) = [].
Proof.
  intros H.
  assert (Hk : Dict.keys (result (run symbols start)) = []).
  { destruct (Dict.keys (result (run symbols start))) as [|s l] eqn:E; [reflexivity|].
    exfalso.
    destruct (run_keys symbols start s) as [Hs _].
    rewrite E in Hs. destruct (proj1 Hs (or_introl eq_refl)) as [[]|[Hin Hc]].
    apply collected_true in Hc.
    assert (existsb collected symbols = true)
      by (apply existsb_exists; now exists s).
    congruence. }
  split; [now apply keys_nil|].
  apply keys_nil. rewrite <- (run_keys_eq symbols start start_keys). exact Hk.
Qed.

Lemma run_some_collected (symbols : list string) :
  existsb collected symbols = true -> Dict.truthy (result (run symbols start)) = true.
Proof.
  intros H. apply existsb_exists in H. destruct H as [s [Hin Hc]].
  apply collected_true in Hc.
  destruct (run_keys symbols start s) as [Hs _].
  assert (Hk : In s (Dict.keys (result (run symbols start))))
    by (apply Hs; right; now split).
  destruct (result (run symbols start)); [destruct Hk | reflexivity].
Qed.

(** X8.  The page of a batch is the errors of the turns that raised, one
    per turn and in the order of the list, followed either by the single
    message that no data is available, when no turn recorded a value (the
    empty list included), or else by one bar chart and then one line chart
    per ranked symbol; no chart comes before an error of a turn. *)
Theorem page_is_errors_then_charts_or_no_data (symbols : list string) :
  exists out tail,
    fetch_data_and_plot symbols = Ok out /\
    ui out = (flat_map errors_of symbols ++ tail)%list /\
    Forall (fun ev => is_chart ev = false) (flat_map errors_of symbols) /\
    (forall s, errors_of s = [] \/
               exists e, raises s e /\
                 errors_of s =
                 [st_error ("Error fetching data for " ++ s ++ ": " ++ str e)]) /\
    (existsb collected symbols = false ->
       result out = [] /\ dfs out = [] /\
       tail = [st_error "No data available to display."]) /\
    (existsb collected symbols = true ->
       result out <> [] /\
       tail = st_plotly_chart (px_bar (plot_data (result out)))
              :: plot_rolling_std_vs_time (dfs out) /\
       length (plot_rolling_std_vs_time (dfs out)) = length (Dict.items (result out))) /\
    (symbols = [] -> ui out = [st_error "No data available to display."]).
Proof.
  exists (render (run symbols start)).
  exists (if Dict.truthy (result (run symbols start))
          then st_plotly_chart (px_bar (plot_data (result (run symbols start))))
               :: plot_rolling_std_vs_time (dfs (run symbols start))
          else [st_error "No data available to display."]).
  split; [apply fetch_data_and_plot_run|].
  split; [now rewrite render_ui_eq, run_ui|].
  split; [apply errors_are_not_charts|].
  split; [apply errors_of_cases|].
  rewrite render_result, render_dfs.
  split; [|split].
  - intros H. destruct (run_none_collected symbols H) as [E1 E2].
    rewrite E1, E2. repeat split.
  - intros H. pose proof (run_some_collected symbols H) as Ht. rewrite Ht.
    split; [|split; [reflexivity|]].
    + intros E. rewrite E in Ht. discriminate.
    + unfold plot_rolling_std_vs_time, Dict.items. rewrite length_map.
      pose proof (run_keys_eq symbols start start_keys) as Hk.
      apply (f_equal (@length string)) in Hk. unfold Dict.keys in Hk.
      rewrite !length_map in Hk. now symmetry.
  - intros ->. reflexivity.
Qed.

Lemma items_set_in_dfs (symbols : list string) (st : batch) (s : string) (df : DataFrame) :
  In (s, df) (dfs (run symbols st)) ->
  In (s, df) (dfs st) \/ (In s symbols /\ exists v, classify s = Collected v df).
Proof.
  revert st; induction symbols as [|a r IH]; intros st H; [now left|].
  rewrite run_cons in H. destruct (IH _ H) as [H'|[Hin Hc]].
  - destruct (classify a) as [v df'| |e] eqn:Ea; cbn [apply_turn dfs] in H';
      try (now left).
    destruct (items_set_in _ _ _ _ _ H') as [[-> ->]|Hold]; [|now left].
    right. split; [now left | now exists v].
  - right. split; [now right | exact Hc].
Qed.

Lemma fetch_default_frame (s : string) (df : DataFrame) :
  fetch_default s = Ok df ->
  exists r kline_data frame,
    request s 48 "15" = Ok r /\ response_list r = Some kline_data /\
    frame_of_kline kline_data = Ok frame /\
    df = analyze frame 8.
Proof.
  unfold fetch_default. rewrite fetch_cases.
  destruct (request s 48 "15") as [r|e]; [|discriminate].
  destruct (response_list r) as [k|] eqn:E; [|discriminate].
  destruct (frame_of_kline k) as [frame|e] eqn:Ef; [|discriminate].
  intros H. injection H as <-. now exists r, k, frame.
Qed.

Lemma combine_columns {A B} (a : list A) (b : list B) :
  length a = length b ->
  map fst (combine a b) = a /\ map snd (combine a b) = b.
Proof.
  revert b; induction a as [|x a IH]; intros [|y b] H; simpl in *;
    try discriminate; [now split|].
  destruct (IH b) as [E1 E2]; [lia|]. now rewrite E1, E2.
Qed.

(** X9.  Every line chart of the page belongs to a symbol of the list that
    is ranked; its time axis is the timestamps of the frame built from the
    rows delivered for the symbol, in reverse of the order delivered, its
    values are the rolling column of the symbol's frame, and its last value
    is the value the bar chart shows for the symbol. *)
Theorem line_chart_ends_at_ranking_value (symbols : list string) :
  exists out,
    fetch_data_and_plot symbols = Ok out /\
    forall s points,
      In (st_plotly_chart (px_line s points)) (ui out) ->
      exists v r kline_data frame,
        In s symbols /\
        request s 48 "15" = Ok r /\
        response_list r = Some kline_data /\
        frame_of_kline kline_data = Ok frame /\
        Dict.get s (result out) = Some v /\
        map fst points = rev (timestamps frame) /\
        map snd points = Rolling_Std_4h (analyze frame 8) /\
        Series.iloc_last (map snd points) = Ok (Some v).
Proof.
  exists (render (run symbols start)).
  split; [apply fetch_data_and_plot_run|].
  intros s points Hin. rewrite render_ui_eq, run_ui in Hin. simpl in Hin.
  apply in_app_or in Hin. destruct Hin as [Herr|Htail].
  - exfalso. pose proof (errors_are_not_charts symbols) as Hf.
    rewrite Forall_forall in Hf. specialize (Hf _ Herr). discriminate.
  - destruct (Dict.truthy (result (run symbols start)));
      [|destruct Htail as [E|[]]; discriminate].
    destruct Htail as [E|Hline]; [discriminate|].
    unfold plot_rolling_std_vs_time in Hline. apply in_map_iff in Hline.
    destruct Hline as [[s' df] [E Hkv]]. simpl in E.
    injection E as -> <-.
    destruct (items_set_in_dfs symbols start s df Hkv) as [[]|[Hs [v Hc]]].
    destruct (proj1 (classify_collected s v df) Hc) as [Hf Hlast].
    destruct (fetch_default_frame s df Hf) as [r [k [frame [Hreq [Hl [Hfr ->]]]]]].
    destruct (run_get symbols start s v _ Hc (or_intror Hs)) as [Hget _].
    destruct (combine_columns (map Timestamp (rows (analyze frame 8)))
                (Rolling_Std_4h (analyze frame 8))) as [E1 E2].
    { rewrite length_map, rolling_column_length.
      unfold analyze. cbn [rows]. apply normalize_length. }
    exists v, r, k, frame. rewrite render_result.
    split; [exact Hs|]. split; [exact Hreq|]. split; [exact Hl|].
    split; [exact Hfr|].
    split; [exact Hget|]. rewrite E1, E2.
    split; [apply timestamps_normalize|]. split; [reflexivity | exact Hlast].
Qed.

(** X10.  When the provider call raises, or its response has no list, the
    message put on the page for the symbol carries the prefix twice: once
    from the fetch and once from the loop. *)
Theorem provider_failure_message_repeats_prefix (symbol : string) (st : batch) :
  (forall cause, request symbol 48 "15" = Raise cause ->
     loop_body st symbol =
     Ok (mkBatch (result st) (dfs st)
           (ui st ++ [st_error ("Error fetching data for " ++ symbol
                                ++ ": Error fetching data for " ++ symbol
                                ++ ": " ++ str cause)]))) /\
  (forall r, request symbol 48 "15" = Ok r -> response_list r = None ->
     loop_body st symbol =
     Ok (mkBatch (result st) (dfs st)
           (ui st ++ [st_error ("Error fetching data for " ++ symbol
                                ++ ": Error fetching data for " ++ symbol
                                ++ ": No data returned from API.")]))).
Proof.
  split.
  - intros cause Hreq. unfold loop_body, fetch_default.
    rewrite fetch_cases, Hreq. reflexivity.
  - intros r Hreq Hl. unfold loop_body, fetch_default.
    rewrite fetch_cases, Hreq, Hl. reflexivity.
Qed.

(** ** The colour scale *)

Lemma plot_data_rows (data : Dict.t Q) (mx mn : Q) :
  col_max (map snd (sort_values_desc (Dict.items data))) = Some mx ->
  col_min (map snd (sort_values_desc (Dict.items data))) = Some mn ->
  ~ mx == mn ->
  plot_data data =
  map (fun row => (fst row, snd row, Some ((snd row - mn) / (mx - mn))%Q))
      (sort_values_desc (Dict.items data)).
Proof.
  intros Hmx Hmn Hne. unfold plot_data. cbv zeta. rewrite Hmx, Hmn.
  apply map_ext. intros row. simpl. rewrite Qeq_bool_range.
  destruct (Qeq_bool mx mn) eqn:E; [|reflexivity].
  apply Qeq_bool_iff in E. contradiction.
Qed.

Lemma scale_bounds (v mx mn : Q) :
  (mn <= v)%Q -> (v <= mx)%Q -> (mn < mx)%Q ->
  (0 <= (v - mn) / (mx - mn) /\ (v - mn) / (mx - mn) <= 1)%Q.
Proof.
  intros H1 H2 H3. split.
  - apply Qle_shift_div_l; lra.
  - apply Qle_shift_div_r; lra.
Qed.

Lemma scale_monotone (v w mx mn : Q) :
  (w <= v)%Q -> (mn < mx)%Q ->
  ((w - mn) / (mx - mn) <= (v - mn) / (mx - mn))%Q.
Proof.
  intros H1 H2. unfold Qdiv.
  apply Qmult_le_compat_r; [lra|].
  apply Qlt_le_weak, Qinv_lt_0_compat. lra.
Qed.

(** X11.  When the largest and the smallest ranked value differ, every bar
    has a colour that is a number between zero and one; a bar with the
    largest value has colour one and a bar with the smallest has colour
    zero. *)
Theorem colour_between_zero_and_one (data : Dict.t Q) (mx mn : Q) :
  let col := map snd (sort_values_desc (Dict.items data)) in
  col_max col = Some mx ->
  col_min col = Some mn ->
  ~ mx == mn ->
  forall s v c, In (s, v, c) (plot_data data) ->
    exists q, c = Some q /\ (0 <= q)%Q /\ (q <= 1)%Q /\
              (v == mx -> q == 1) /\ (v == mn -> q == 0).
Proof.
  intros col Hmx Hmn Hne s v c Hin.
  rewrite (plot_data_rows data mx mn Hmx Hmn Hne) in Hin.
  apply in_map_iff in Hin. destruct Hin as [[s' v'] [E Hrow]].
  simpl in E. injection E as -> -> <-.
  destruct (col_max_spec col mx Hmx) as [Hmx_in Hmx_le].
  destruct (col_min_spec col mn Hmn) as [Hmn_in Hmn_le].
  assert (Hv : In v col) by (apply in_map_iff; now exists (s, v)).
  pose proof (Hmx_le v Hv) as Hle. pose proof (Hmn_le v Hv) as Hge.
  pose proof (Hmn_le mx Hmx_in) as Hmm.
  assert (Hlt : (mn < mx)%Q).
  { apply Qle_lteq in Hmm. destruct Hmm as [H|H]; [exact H|].
    exfalso. apply Hne. now symmetry. }
  destruct (scale_bounds v mx mn Hge Hle Hlt) as [B0 B1].
  eexists. split; [reflexivity|]. split; [exact B0|]. split; [exact B1|].
  split; intros Hv'; rewrite Hv'; field; lra.
Qed.

Lemma sorted_head_is_max (l : list (string * Q)) (row : string * Q) (mx : Q) :
  StronglySorted by_value_desc l ->
  hd_error l = Some row ->
  In mx (map snd l) -> (forall v, In v (map snd l) -> (v <= mx)%Q) ->
  snd row == mx.
Proof.
  intros Hs Hhd Hin Hle. destruct l as [|a r]; [discriminate|].
  simpl in Hhd. injection Hhd as ->.
  inversion Hs as [|? ? _ Hf]; subst.
  apply Qle_antisym; [apply Hle; now left|].
  destruct Hin as [<-|Hin]; [apply Qle_refl|].
  apply in_map_iff in Hin. destruct Hin as [x [<- Hx]].
  rewrite Forall_forall in Hf. exact (Hf x Hx).
Qed.

(** X12.  With a [sort_values] that keeps its documented promise and a
    largest value that differs from the smallest, the bars run from colour
    one downwards: the colours never increase along the chart and the first
    bar has colour one. *)
Theorem bars_run_from_colour_one_downwards (data : Dict.t Q) (mx mn : Q) :
  sort_contract sort_values_desc ->
  let col := map snd (sort_values_desc (Dict.items data)) in
  col_max col = Some mx ->
  col_min col = Some mn ->
  ~ mx == mn ->
  StronglySorted by_colour_desc (plot_data data) /\
  exists s v q, hd_error (plot_data data) = Some (s, v, Some q) /\ q == 1.
Proof.
  intros Hc col Hmx Hmn Hne.
  rewrite (plot_data_rows data mx mn Hmx Hmn Hne).
  destruct (Hc (Dict.items data)) as [_ Hs].
  destruct (col_max_spec col mx Hmx) as [Hmx_in Hmx_le].
  destruct (col_min_spec col mn Hmn) as [Hmn_in Hmn_le].
  assert (Hlt : (mn < mx)%Q).
  { pose proof (Hmn_le mx Hmx_in) as Hmm.
    apply Qle_lteq in Hmm. destruct Hmm as [H|H]; [exact H|].
    exfalso. apply Hne. now symmetry. }
  split.
  - clear Hmx Hmn Hmx_in Hmx_le Hmn_in Hmn_le. subst col.
    induction Hs as [|a r Hs IH Hf]; simpl; constructor.
    + exact IH.
    + apply Forall_map. eapply Forall_impl; [|exact Hf].
      intros b Hb. unfold by_colour_desc. simpl.
      now apply scale_monotone.
  - subst col. destruct (sort_values_desc (Dict.items data)) as [|[s v] r] eqn:E.
    + destruct Hmx_in.
    + exists s, v. eexists. split; [simpl; reflexivity|].
      assert (Hv : v == mx).
      { apply (sorted_head_is_max ((s, v) :: r) (s, v) mx Hs eq_refl Hmx_in Hmx_le). }
      rewrite Hv. field. lra.
Qed.

(** ** Normalising twice *)

Lemma to_numeric_close_twice (c : candle) :
  to_numeric_close (to_numeric_close c) = to_numeric_close c.
Proof. reflexivity. Qed.

(** X13.  Normalising twice brings any data back to the order delivered,
    with the close made numeric and every other column as delivered. *)
Theorem normalize_twice_restores_order (kline_data : list candle) :
  normalize (normalize kline_data) = map to_numeric_close kline_data /\
  timestamps (normalize (normalize kline_data)) = timestamps kline_data /\
  map Open (normalize (normalize kline_data)) = map Open kline_data /\
  map Volume (normalize (normalize kline_data)) = map Volume kline_data /\
  close_column (normalize (normalize kline_data)) = delivered_closes kline_data.
Proof.
  assert (E : normalize (normalize kline_data) = map to_numeric_close kline_data).
  { unfold normalize. rewrite <- map_rev, rev_involutive, map_map.
    apply map_ext. intros c. reflexivity. }
  rewrite E. split; [reflexivity|].
  unfold timestamps, close_column, delivered_closes. rewrite !map_map.
  repeat split; apply map_ext; intros c; reflexivity.
Qed.

(** ** The symbol list of a session *)

Lemma top_20_cryptos_nodup : NoDup top_20_cryptos.
Proof.
  apply (NoDup_count_occ string_dec). intros x.
  unfold top_20_cryptos.
  repeat match goal with
         | |- context [count_occ string_dec (?a :: ?l) x] =>
             rewrite (count_occ_cons_eq string_dec l (eq_refl a)) ||
             destruct (string_dec a x) as [<-|?];
             [vm_compute; lia|rewrite (count_occ_cons_neq string_dec l) by assumption]
         end.
  simpl. lia.
Qed.

Lemma addable_spec (new_crypto : string) (cryptos : list string) :
  addable new_crypto cryptos = true <->
  new_crypto <> "" /\ ~ In new_crypto cryptos.
Proof.
  unfold addable. rewrite andb_true_iff, !negb_true_iff. split.
  - intros [H1 H2]. split.
    + intros ->. discriminate.
    + intros Hin.
      assert (existsb (String.eqb new_crypto) cryptos = true).
      { apply existsb_exists. exists new_crypto. split; [exact Hin|].
        apply String.eqb_refl. }
      congruence.
  - intros [H1 H2]. split.
    + now apply String.eqb_neq.
    + destruct (existsb (String.eqb new_crypto) cryptos) eqn:E; [|reflexivity].
      exfalso. apply existsb_exists in E. destruct E as [x [Hx Ex]].
      apply String.eqb_eq in Ex. subst x. contradiction.
Qed.

Lemma main_state (state : session_state) (w : widgets) :
  exists page, main state w = Ok (Some (cryptos_after (cryptos_of state) w), page).
Proof.
  unfold main, cryptos_after. cbv zeta.
  destruct (reload_button w); [|eexists; reflexivity].
  rewrite fetch_data_and_plot_run. simpl. eexists. reflexivity.
Qed.

Lemma cryptos_after_cases (cryptos : list string) (w : widgets) :
  (cryptos_after cryptos w = cryptos) \/
  (cryptos_after cryptos w = (cryptos ++ [text_input w])%list /\
   add_button w = true /\ text_input w <> "" /\ ~ In (text_input w) cryptos).
Proof.
  unfold cryptos_after.
  destruct (add_button w) eqn:Eb; [|now left].
  destruct (addable (text_input w) cryptos) eqn:Ea; [|now left].
  right. apply addable_spec in Ea. tauto.
Qed.

Lemma cryptos_after_nodup (cryptos : list string) (w : widgets) :
  NoDup cryptos -> NoDup (cryptos_after cryptos w).
Proof.
  intros Hnd. destruct (cryptos_after_cases cryptos w) as [->|[-> [_ [_ Hout]]]];
    [exact Hnd|].
  apply NoDup_app; [exact Hnd | repeat constructor; intros [] |].
  intros x Hx [<-|[]]. contradiction.
Qed.

(** X14.  Over any sequence of runs the script never raises and the symbol
    list of the session only grows at its end: the list left is the list
    found followed by the symbols added, at most one per click on the add
    button; a symbol added is the text typed at such a click, is not empty
    and was not in the list; no symbol is added twice.  So a list without
    duplicates stays without duplicates. *)
Theorem session_list_grows_without_duplicates
    (ws : list widgets) (state : session_state) :
  exists final added,
    reruns ws state = Ok final /\
    cryptos_of final = (cryptos_of state ++ added)%list /\
    length added <= length (filter add_button ws) /\
    (forall s, In s added ->
       s <> "" /\ ~ In s (cryptos_of state) /\
       exists w, In w ws /\ add_button w = true /\ text_input w = s) /\
    NoDup added /\
    (NoDup (cryptos_of state) -> NoDup (cryptos_of final)).
Proof.
  revert state; induction ws as [|w rest IH]; intros state.
  - exists state, []. split; [reflexivity|]. split; [now rewrite app_nil_r|].
    split; [simpl; lia|]. split; [intros s []|]. split; [constructor|].
    auto.
  - destruct (main_state state w) as [page Hmain].
    destruct (IH (Some (cryptos_after (cryptos_of state) w)))
      as (final & added & Hrun & Hlist & Hlen & Hadd & Hnd & _).
    cbn [cryptos_of] in Hlist, Hadd.
    assert (Hre : reruns (w :: rest) state = Ok final).
    { cbn [reruns]. rewrite Hmain. exact Hrun. }
    destruct (cryptos_after_cases (cryptos_of state) w)
      as [E|[E [Hb [Hne Hout]]]]; rewrite E in *.
    + exists final, added. split; [exact Hre|]. split; [exact Hlist|].
      assert (Hadd' : forall s, In s added ->
                s <> "" /\ ~ In s (cryptos_of state) /\
                exists w0, In w0 (w :: rest) /\ add_button w0 = true /\ text_input w0 = s).
      { intros s Hs. destruct (Hadd s Hs) as [H1 [H2 [w0 [H3 H4]]]].
        split; [exact H1|]. split; [exact H2|]. exists w0. split; [now right | exact H4]. }
      split; [cbn [filter]; destruct (add_button w); simpl; lia|].
      split; [exact Hadd'|]. split; [exact Hnd|].
      intros H0. rewrite Hlist. apply NoDup_app; [exact H0 | exact Hnd|].
      intros x Hx Hx'. destruct (Hadd' x Hx') as [_ [H _]]. contradiction.
    + exists final, (text_input w :: added).
      split; [exact Hre|].
      split; [rewrite Hlist, <- app_assoc; reflexivity|].
      assert (Hadd' : forall s, In s (text_input w :: added) ->
                s <> "" /\ ~ In s (cryptos_of state) /\
                exists w0, In w0 (w :: rest) /\ add_button w0 = true /\ text_input w0 = s).
      { intros s [<-|Hs].
        - split; [exact Hne|]. split; [exact Hout|]. exists w.
          split; [now left | now split].
        - destruct (Hadd s Hs) as [H1 [H2 [w0 [H3 H4]]]].
          split; [exact H1|]. split.
          + intros Hin. apply H2. apply in_or_app. now left.
          + exists w0. split; [now right | exact H4]. }
      assert (Hnd' : NoDup (text_input w :: added)).
      { constructor; [|exact Hnd]. intros Hin.
        destruct (Hadd _ Hin) as [_ [H _]]. apply H.
        apply in_or_app. right. now left. }
      split; [cbn [filter]; rewrite Hb; simpl; lia|].
      split; [exact Hadd'|]. split; [exact Hnd'|].
      intros H0. rewrite Hlist, <- app_assoc.
      apply NoDup_app; [exact H0 | exact Hnd'|].
      intros x Hx Hx'. destruct (Hadd' x Hx') as [_ [H _]]. contradiction.
Qed.

(** X15.  In a session whose list has no duplicates, a run with the reload
    button clicked and the selection left at its default ranks the symbols
    of the list the run leaves (a symbol added in the same run included)
    that record a value, in the order of that list, and shows the page of
    the batch after what the run itself put on the page. *)
Theorem reload_ranks_session_symbols_in_order (state : session_state) (w : widgets) :
  NoDup (cryptos_of state) ->
  reload_button w = true ->
  (forall options default, multiselect w options default = default) ->
  let cryptos := cryptos_after (cryptos_of state) w in
  exists out before,
    main state w = Ok (Some cryptos, (before ++ map st_batch (ui out))%list) /\
    fetch_data_and_plot cryptos = Ok out /\
    NoDup cryptos /\
    Dict.keys (result out) = filter collected cryptos /\
    Forall (fun ev => forall b, ev <> st_batch b) before.
Proof.
  intros Hnd Hre Hsel cryptos.
  assert (Hnd' : NoDup cryptos) by now apply cryptos_after_nodup.
  exists (render (run cryptos start)).
  exists (st_title "Rolling Standard Deviation of Top 20 Cryptocurrencies"
          :: (if add_button w && addable (text_input w) (cryptos_of state)
              then [st_success ("Added " ++ text_input w ++ " to the list!")]
              else [])).
  split; [|split; [apply fetch_data_and_plot_run|split; [exact Hnd'|split]]].
  - unfold main. cbv zeta. rewrite Hre, Hsel. fold (cryptos_after (cryptos_of state) w).
    fold cryptos. rewrite fetch_data_and_plot_run. reflexivity.
  - rewrite render_result.
    destruct (run_keys_order cryptos start Hnd') as [E _];
      [intros s _ [] | intros s _ [] | exact E].
  - constructor; [intros b; discriminate|].
    destruct (add_button w && addable (text_input w) (cryptos_of state));
      repeat constructor; intros b; discriminate.
Qed.

End Program.

(** ** The sample sorts keep the promise of [sort_values] *)

Lemma insert_by_perm (after : Q -> Q -> bool) (x : string * Q) (l : list (string * Q)) :
  Permutation (x :: l) (Sample.insert_by after x l).
Proof.
  induction l as [|a r IH]; simpl; [reflexivity|].
  destruct (after (snd a) (snd x)); [|reflexivity].
  eapply Permutation_trans; [apply perm_swap | now constructor].
Qed.

Lemma insert_by_sorted (after : Q -> Q -> bool) (x : string * Q) (l : list (string * Q)) :
  (forall a b, after a b = true -> (b <= a)%Q) ->
  (forall a b, after a b = false -> (a <= b)%Q) ->
  StronglySorted by_value_desc l ->
  StronglySorted by_value_desc (Sample.insert_by after x l).
Proof.
  intros Ht Hf Hs. induction Hs as [|a r Hs IH Hall]; simpl.
  - repeat constructor.
  - destruct (after (snd a) (snd x)) eqn:E.
    + constructor; [exact IH|].
      eapply Permutation_Forall; [apply insert_by_perm|].
      constructor; [apply Ht, E | exact Hall].
    + constructor; [now constructor|].
      constructor; [apply Hf, E|].
      eapply Forall_impl; [|exact Hall].
      intros b Hb. unfold by_value_desc in *.
      eapply Qle_trans; [exact Hb | apply Hf, E].
Qed.

Lemma sort_by_contract (after : Q -> Q -> bool) :
  (forall a b, after a b = true -> (b <= a)%Q) ->
  (forall a b, after a b = false -> (a <= b)%Q) ->
  sort_contract (Sample.sort_by after).
Proof.
  intros Ht Hf l. unfold Sample.sort_by.
  assert (H : forall acc,
             StronglySorted by_value_desc acc ->
             Permutation (acc ++ l)
               (fold_left (fun acc x => Sample.insert_by after x acc) l acc) /\
             StronglySorted by_value_desc
               (fold_left (fun acc x => Sample.insert_by after x acc) l acc)).
  { induction l as [|x l IH]; intros acc Hacc; simpl.
    - rewrite app_nil_r. now split.
    - destruct (IH (Sample.insert_by after x acc)) as [Hp Hs].
      + now apply insert_by_sorted.
      + split; [|exact Hs].
        eapply Permutation_trans; [|exact Hp].
        eapply Permutation_trans; [apply Permutation_sym, Permutation_middle|].
        change (x :: acc ++ l)%list with ((x :: acc) ++ l)%list.
        apply Permutation_app_tail, insert_by_perm. }
  destruct (H [] (SSorted_nil _)) as [Hp Hs]. now split.
Qed.

Lemma sort_ties_in_order_contract : sort_contract Sample.sort_ties_in_order.
Proof.
  apply sort_by_contract; intros a b H.
  - now apply Qle_bool_iff.
  - destruct (Qlt_le_dec a b) as [Hlt|Hle]; [now apply Qlt_le_weak|].
    apply Qle_bool_iff in Hle. congruence.
Qed.

(** ** Index arrays and the ranking of the specification *)

Lemma deref_app (l : list nat) (h : nat) (r : list nat) (p : nat) :
  p = length l -> Numpy.deref (l ++ h :: r) p = h.
Proof.
  intros ->. unfold Numpy.deref. rewrite app_nth2 by lia.
  now rewrite Nat.sub_diag.
Qed.

Lemma store_app (l : list nat) (h : nat) (r : list nat) (p x : nat) :
  p = length l -> Numpy.store (l ++ h :: r) p x = (l ++ x :: r)%list.
Proof.
  intros ->. unfold Numpy.store.
  induction l as [|a l IH]; [reflexivity|].
  cbn [length app firstn skipn]. f_equal. exact IH.
Qed.

Lemma insert_desc_length {A} (key : A -> Q) (x : A) (l : list A) :
  length (insert_desc key x l) = S (length l).
Proof.
  induction l as [|k r IH]; simpl; [reflexivity|].
  destruct (Qle_bool (key k) (key x)); simpl; [reflexivity | now rewrite IH].
Qed.

Lemma fold_left_stable_rank {A} (key : A -> Q) (l : list A) :
  fold_left (fun acc x => insert_desc key x acc) l [] = stable_rank key (rev l).
Proof. unfold stable_rank. now rewrite fold_left_rev_right. Qed.

(** ** The ranking of the specification: rearranged, sorted, stable *)

Lemma insert_desc_perm {A} (key : A -> Q) (x : A) (l : list A) :
  Permutation (x :: l) (insert_desc key x l).
Proof.
  induction l as [|k r IH]; simpl; [reflexivity|].
  destruct (Qle_bool (key k) (key x)); [reflexivity|].
  eapply Permutation_trans; [apply perm_swap | now constructor].
Qed.

Lemma stable_rank_perm {A} (key : A -> Q) (l : list A) :
  Permutation l (stable_rank key l).
Proof.
  induction l as [|x l IH]; [reflexivity|].
  cbn [stable_rank fold_right].
  eapply Permutation_trans; [|apply insert_desc_perm]. now constructor.
Qed.

Lemma insert_desc_sorted {A} (key : A -> Q) (x : A) (l : list A) :
  StronglySorted (fun a b => key b <= key a)%Q l ->
  StronglySorted (fun a b => key b <= key a)%Q (insert_desc key x l).
Proof.
  intros Hs. induction Hs as [|k r Hs IH Hall]; simpl.
  - repeat constructor.
  - destruct (Qle_bool (key k) (key x)) eqn:E.
    + apply Qle_bool_iff in E.
      constructor; [now constructor|].
      constructor; [exact E|].
      eapply Forall_impl; [|exact Hall].
      intros b Hb. simpl in Hb. eapply Qle_trans; eassumption.
    + assert (Hlt : (key x <= key k)%Q).
      { destruct (Qlt_le_dec (key x) (key k)) as [H|H]; [now apply Qlt_le_weak|].
        apply Qle_bool_iff in H. congruence. }
      constructor; [exact IH|].
      eapply Permutation_Forall; [apply insert_desc_perm|].
      now constructor.
Qed.

Lemma stable_rank_sorted {A} (key : A -> Q) (l : list A) :
  StronglySorted (fun a b => key b <= key a)%Q (stable_rank key l).
Proof.
  induction l as [|x l IH]; [constructor|].
  cbn [stable_rank fold_right]. now apply insert_desc_sorted.
Qed.






Lemma map_nth_seq {A} (l : list A) (d : A) :
  map (fun k => nth k l d) (seq 0 (length l)) = l.
Proof.
  apply nth_ext with (d := d) (d' := d).
  - now rewrite length_map, length_seq.
  - intros n Hn. rewrite length_map, length_seq in Hn.
    rewrite (nth_indep _ d (nth 0 l d)) by (now rewrite length_map, length_seq).
    rewrite (map_nth (fun k => nth k l d) (seq 0 (length l)) 0 n).
    now rewrite seq_nth.
Qed.

(** ** Index arrays: reading, writing, exchanging *)

Lemma store_length (t : list nat) (p x : nat) :
  p < length t -> length (Numpy.store t p x) = length t.
Proof.
  intros Hp. unfold Numpy.store.
  rewrite length_app, length_firstn. cbn [length]. rewrite length_skipn. lia.
Qed.

Lemma store_nth (t : list nat) (p x k : nat) :
  p < length t ->
  nth k (Numpy.store t p x) 0 = if k =? p then x else nth k t 0.
Proof.
  intros Hp. unfold Numpy.store.
  assert (Hl : length (firstn p t) = p) by (rewrite length_firstn; lia).
  destruct (Nat.eqb_spec k p) as [->|Hne].
  - rewrite app_nth2 by lia. rewrite Hl, Nat.sub_diag. reflexivity.
  - destruct (Nat.lt_ge_cases k p) as [Hlt|Hge].
    + rewrite app_nth1 by lia.
      rewrite <- (firstn_skipn p t) at 2. now rewrite app_nth1 by lia.
    + rewrite app_nth2 by lia. rewrite Hl.
      destruct (k - p) as [|m] eqn:E; [lia|]. cbn [nth].
      rewrite nth_skipn. f_equal. lia.
Qed.

Lemma swap_length (t : list nat) (p q : nat) :
  p < length t -> q < length t -> length (Numpy.INTP_SWAP t p q) = length t.
Proof.
  intros Hp Hq. unfold Numpy.INTP_SWAP.
  rewrite store_length; rewrite store_length; lia.
Qed.

Lemma swap_nth (t : list nat) (p q k : nat) :
  p < length t -> q < length t ->
  nth k (Numpy.INTP_SWAP t p q) 0 =
  if k =? q then nth p t 0 else if k =? p then nth q t 0 else nth k t 0.
Proof.
  intros Hp Hq. unfold Numpy.INTP_SWAP, Numpy.deref.
  rewrite store_nth by (rewrite store_length; lia).
  destruct (k =? q); [reflexivity|].
  now rewrite store_nth by lia.
Qed.

Lemma store_split (t : list nat) (p x : nat) :
  p < length t ->
  Numpy.store t p x = (firstn p t ++ x :: skipn (S p) t)%list.
Proof. reflexivity. Qed.

Lemma list_split_at (t : list nat) (p : nat) :
  p < length t -> t = (firstn p t ++ nth p t 0 :: skipn (S p) t)%list.
Proof.
  revert p; induction t as [|a t IH]; intros p Hp; [simpl in Hp; lia|].
  destruct p as [|p]; [reflexivity|].
  cbn [firstn skipn nth app]. f_equal. apply IH. simpl in Hp. lia.
Qed.

Lemma store_perm (t : list nat) (p x : nat) :
  p < length t ->
  Permutation (nth p t 0 :: Numpy.store t p x) (x :: t).
Proof.
  intros Hp. rewrite (list_split_at t p Hp) at 3. unfold Numpy.store.
  eapply Permutation_trans; [apply Permutation_middle|].
  eapply Permutation_trans; [|apply Permutation_sym, Permutation_middle].
  apply Permutation_app_head. apply perm_swap.
Qed.

Lemma swap_perm (t : list nat) (p q : nat) :
  p < length t -> q < length t -> Permutation t (Numpy.INTP_SWAP t p q).
Proof.
  intros Hp Hq. unfold Numpy.INTP_SWAP, Numpy.deref.
  set (t1 := Numpy.store t p (nth q t 0)).
  assert (H1 : Permutation (nth p t 0 :: t1) (nth q t 0 :: t))
    by (apply store_perm; exact Hp).
  assert (Hq1 : q < length t1) by (subst t1; rewrite store_length; lia).
  assert (H2 : Permutation (nth q t1 0 :: Numpy.store t1 q (nth p t 0))
                           (nth p t 0 :: t1))
    by (apply store_perm; exact Hq1).
  destruct (Nat.eq_dec q p) as [->|Hne].
  - assert (E : nth p t1 0 = nth p t 0).
    { subst t1. rewrite store_nth by lia. now rewrite Nat.eqb_refl. }
    rewrite E in H2.
    apply Permutation_cons_inv with (a := nth p t 0).
    eapply Permutation_trans; [apply Permutation_sym; exact H1|].
    apply Permutation_sym. exact H2.
  - assert (E : nth q t1 0 = nth q t 0).
    { subst t1. rewrite store_nth by lia.
      destruct (Nat.eqb_spec q p); [contradiction | reflexivity]. }
    rewrite E in H2.
    apply Permutation_cons_inv with (a := nth q t 0).
    eapply Permutation_trans; [apply Permutation_sym; exact H1|].
    apply Permutation_sym. exact H2.
Qed.

(** ** Rearrangements within a segment *)

Lemma rearranged_refl (pl pr : nat) (t : list nat) : rearranged pl pr t t.
Proof.
  split; [reflexivity|]. split; [reflexivity|]. split; [reflexivity|].
  intros k Hk. now exists k.
Qed.

Lemma rearranged_trans (pl pr : nat) (t1 t2 t3 : list nat) :
  rearranged pl pr t1 t2 -> rearranged pl pr t2 t3 -> rearranged pl pr t1 t3.
Proof.
  intros (P1 & L1 & O1 & W1) (P2 & L2 & O2 & W2).
  split; [eapply Permutation_trans; eassumption|].
  split; [congruence|]. split.
  - intros k Hk. rewrite O2, O1 by exact Hk. reflexivity.
  - intros k Hk. destruct (W2 k Hk) as [k' [Hk' E']].
    destruct (W1 k' Hk') as [k'' [Hk'' E'']]. exists k''. split; [exact Hk''|].
    congruence.
Qed.

Lemma rearranged_swap (pl pr : nat) (t : list nat) (p q : nat) :
  pr < length t -> pl <= p <= pr -> pl <= q <= pr ->
  rearranged pl pr t (Numpy.INTP_SWAP t p q).
Proof.
  intros Hr Hp Hq.
  split; [apply swap_perm; lia|]. split; [apply swap_length; lia|]. split.
  - intros k Hk. rewrite swap_nth by lia.
    destruct (Nat.eqb_spec k q); [lia|]. destruct (Nat.eqb_spec k p); [lia|].
    reflexivity.
  - intros k Hk. rewrite swap_nth by lia.
    destruct (Nat.eqb_spec k q); [now exists p|].
    destruct (Nat.eqb_spec k p); [now exists q|]. now exists k.
Qed.

Lemma rearranged_widen (pl pr pl' pr' : nat) (t t' : list nat) :
  pl <= pl' -> pr' <= pr -> pl' <= pr' + 1 ->
  rearranged pl' pr' t t' -> rearranged pl pr t t'.
Proof.
  intros H1 H2 H3 (P & L & O & W).
  split; [exact P|]. split; [exact L|]. split.
  - intros k Hk. apply O. lia.
  - intros k Hk.
    destruct (le_lt_dec pl' k) as [Ha|Ha].
    + destruct (le_lt_dec k pr') as [Hb|Hb].
      * destruct (W k (conj Ha Hb)) as [k' [Hk' E]]. exists k'. split; [lia | exact E].
      * exists k. split; [exact Hk | apply O; lia].
    + exists k. split; [exact Hk | apply O; lia].
Qed.

(** [Tag::less] as an order on the values. *)
Lemma less_true (a b : Q) : Numpy.less a b = true <-> (a < b)%Q.
Proof.
  unfold Numpy.less. rewrite negb_true_iff. split.
  - intros H. destruct (Qlt_le_dec a b) as [L|L]; [exact L|].
    apply Qle_bool_iff in L. congruence.
  - intros H. destruct (Qle_bool b a) eqn:E; [|reflexivity].
    apply Qle_bool_iff in E. lra.
Qed.

Lemma less_false (a b : Q) : Numpy.less a b = false <-> (b <= a)%Q.
Proof.
  unfold Numpy.less. rewrite negb_false_iff. apply Qle_bool_iff.
Qed.

Lemma value_swap (v : list Q) (t : list nat) (p q k : nat) :
  p < length t -> q < length t ->
  Numpy.value v (Numpy.INTP_SWAP t p q) k =
  if k =? q then Numpy.value v t p
  else if k =? p then Numpy.value v t q else Numpy.value v t k.
Proof.
  intros Hp Hq. unfold Numpy.value, Numpy.deref. rewrite swap_nth by assumption.
  destruct (k =? q); [reflexivity|]. destruct (k =? p); reflexivity.
Qed.

(** ** The median of three *)

Lemma cond_swap_rearranged (b : bool) (pl pr : nat) (t : list nat) (p q : nat) :
  pr < length t -> pl <= p <= pr -> pl <= q <= pr ->
  rearranged pl pr t (if b then Numpy.INTP_SWAP t p q else t).
Proof.
  intros. destruct b; [now apply rearranged_swap | apply rearranged_refl].
Qed.

Lemma median_of_three_spec (v : list Q) (pl pm pr : nat) (t : list nat) :
  pl < pm -> pm < pr -> pr < length t ->
  let t' := Numpy.median_of_three v pl pm pr t in
  rearranged pl pr t t' /\
  (Numpy.value v t' pl <= Numpy.value v t' pm)%Q /\
  (Numpy.value v t' pm <= Numpy.value v t' pr)%Q.
Proof.
  intros H1 H2 H3. unfold Numpy.median_of_three.
  remember (if Numpy.less (Numpy.value v t pm) (Numpy.value v t pl)
            then Numpy.INTP_SWAP t pm pl else t) as t1 eqn:Et1.
  assert (R1 : rearranged pl pr t t1).
  { subst t1. apply cond_swap_rearranged; lia. }
  assert (L1 : length t1 = length t) by apply R1.
  assert (A1 : (Numpy.value v t1 pl <= Numpy.value v t1 pm)%Q).
  { subst t1. destruct (Numpy.less (Numpy.value v t pm) (Numpy.value v t pl)) eqn:E.
    - apply less_true in E. rewrite !value_swap by lia.
      rewrite Nat.eqb_refl.
      destruct (Nat.eqb_spec pm pl); [lia|]. rewrite Nat.eqb_refl. lra.
    - now apply less_false in E. }
  clear Et1.
  remember (if Numpy.less (Numpy.value v t1 pr) (Numpy.value v t1 pm)
            then Numpy.INTP_SWAP t1 pr pm else t1) as t2 eqn:Et2.
  assert (R2 : rearranged pl pr t1 t2).
  { subst t2. apply cond_swap_rearranged; lia. }
  assert (L2 : length t2 = length t) by (destruct R2 as (_ & L & _); lia).
  assert (A2 : (Numpy.value v t2 pm <= Numpy.value v t2 pr)%Q /\
               (Numpy.value v t2 pl <= Numpy.value v t2 pr)%Q).
  { subst t2. destruct (Numpy.less (Numpy.value v t1 pr) (Numpy.value v t1 pm)) eqn:E.
    - apply less_true in E. rewrite !value_swap by lia.
      rewrite Nat.eqb_refl.
      destruct (Nat.eqb_spec pr pm); [lia|]. rewrite Nat.eqb_refl.
      destruct (Nat.eqb_spec pl pm); [lia|].
      destruct (Nat.eqb_spec pl pr); [lia|]. split; lra.
    - apply less_false in E. split; lra. }
  destruct A2 as [A2 A3]. clear Et2.
  cbv zeta.
  assert (R3 : rearranged pl pr t2
                 (if Numpy.less (Numpy.value v t2 pm) (Numpy.value v t2 pl)
                  then Numpy.INTP_SWAP t2 pm pl else t2)).
  { apply cond_swap_rearranged; lia. }
  split; [eapply rearranged_trans; [eapply rearranged_trans|]; eassumption|].
  destruct (Numpy.less (Numpy.value v t2 pm) (Numpy.value v t2 pl)) eqn:E.
  - apply less_true in E. rewrite !value_swap by lia.
    rewrite !Nat.eqb_refl.
    destruct (Nat.eqb_spec pm pl); [lia|].
    destruct (Nat.eqb_spec pr pl); [lia|].
    destruct (Nat.eqb_spec pr pm); [lia|]. split; lra.
  - apply less_false in E. split; lra.
Qed.

(** ** The insertion sort of a segment *)

Lemma deref_mid (L M : list nat) (h : nat) (r : list nat) (p : nat) :
  p = length L + length M -> Numpy.deref (L ++ M ++ h :: r) p = h.
Proof.
  intros ->. rewrite app_assoc. apply deref_app. now rewrite length_app.
Qed.

Lemma store_mid (L M : list nat) (h : nat) (r : list nat) (p x : nat) :
  p = length L + length M ->
  Numpy.store (L ++ M ++ h :: r) p x = (L ++ M ++ x :: r)%list.
Proof.
  intros ->. rewrite !app_assoc. apply store_app. now rewrite length_app.
Qed.

Lemma shift_up_segment (v : list Q) (L : list nat) (x : nat) (rl : list nat) :
  forall (h : nat) (r : list nat) (fuel : nat),
  length rl <= fuel ->
  let res := Numpy.shift_up fuel v (nth x v 0%Q) (length L) (length L + length rl)
                            (L ++ rev rl ++ h :: r) in
  Numpy.store (snd res) (fst res) x
  = (L ++ rev (insert_desc (fun i => nth i v 0%Q) x rl) ++ r)%list.
Proof.
  induction rl as [|k rest IH]; intros h r fuel Hfuel.
  - cbn [length rev app]. rewrite Nat.add_0_r.
    assert (E : Numpy.shift_up fuel v (nth x v 0%Q) (length L) (length L) (L ++ h :: r)
                = (length L, (L ++ h :: r)%list)).
    { destruct fuel; [reflexivity|]. cbn [Numpy.shift_up].
      now rewrite Nat.ltb_irrefl. }
    rewrite E. cbn [fst snd insert_desc rev app].
    now apply store_app.
  - destruct fuel as [|fuel]; [simpl in Hfuel; lia|].
    cbn [length] in *. cbn [Numpy.shift_up rev].
    replace (length L + S (length rest) - 1) with (length L + length rest) by lia.
    assert (Hlt : (length L <? length L + S (length rest)) = true)
      by (apply Nat.ltb_lt; lia).
    rewrite Hlt. cbn [andb].
    assert (Hk : Numpy.deref (L ++ (rev rest ++ [k]) ++ h :: r)
                             (length L + length rest) = k).
    { rewrite <- (app_assoc (rev rest) [k]). cbn [app].
      apply deref_mid. now rewrite length_rev. }
    unfold Numpy.value. rewrite Hk.
    cbn [insert_desc]. unfold Numpy.less.
    assert (Hst : forall y, Numpy.store (L ++ (rev rest ++ [k]) ++ h :: r)
                                        (length L + S (length rest)) y
                            = (L ++ (rev rest ++ [k]) ++ y :: r)%list).
    { intros y. apply store_mid. rewrite length_app, length_rev. simpl. lia. }
    destruct (Qle_bool (nth k v 0%Q) (nth x v 0%Q)); cbn [negb].
    + cbn [fst snd rev]. rewrite Hst.
      now rewrite <- (app_assoc _ [x] r).
    + rewrite Hst.
      rewrite <- (app_assoc (rev rest) [k]). cbn [app].
      cbv zeta in IH. rewrite IH by lia. cbn [rev]. now rewrite <- app_assoc.
Qed.

Lemma insertion_segment (v : list Q) (L R2 : list nat) (R1 : list nat) :
  forall rl : list nat,
  Numpy.insertion (length R1) v (length L) (length L + length rl)
                  (L ++ rev rl ++ R1 ++ R2)
  = (L ++ rev (fold_left (fun acc x => insert_desc (fun i => nth i v 0%Q) x acc) R1 rl)
       ++ R2)%list.
Proof.
  induction R1 as [|x R1 IH]; intros rl.
  - reflexivity.
  - cbn [length Numpy.insertion fold_left app].
    rewrite (deref_mid L (rev rl) x (R1 ++ R2)) by (now rewrite length_rev).
    pose proof (shift_up_segment v L x rl x (R1 ++ R2) (length L + length rl)
                  ltac:(lia)) as Hs.
    cbv zeta in Hs.
    destruct (Numpy.shift_up (length L + length rl) v (nth x v 0%Q) (length L)
                (length L + length rl) (L ++ rev rl ++ x :: R1 ++ R2))
      as [pj shifted].
    cbn [fst snd] in Hs. rewrite Hs.
    replace (S (length L + length rl))
      with (length L + length (insert_desc (fun i => nth i v 0%Q) x rl))
      by (rewrite insert_desc_length; lia).
    apply IH.
Qed.

Lemma StronglySorted_nth {A} (R : A -> A -> Prop) (l : list A) (d : A) :
  StronglySorted R l ->
  forall i j, i < j -> j < length l -> R (nth i l d) (nth j l d).
Proof.
  intros Hs. induction Hs as [|a l Hs IH Hall]; intros i j Hij Hj; [simpl in Hj; lia|].
  destruct j as [|j]; [lia|]. cbn [length] in Hj.
  destruct i as [|i]; cbn [nth].
  - rewrite Forall_forall in Hall. apply Hall. apply nth_In. lia.
  - apply IH; lia.
Qed.

Lemma nth_StronglySorted {A} (R : A -> A -> Prop) (l : list A) (d : A) :
  (forall i j, i < j -> j < length l -> R (nth i l d) (nth j l d)) ->
  StronglySorted R l.
Proof.
  induction l as [|a l IH]; intros H; constructor.
  - apply IH. intros i j Hij Hj. apply (H (S i) (S j)); simpl; lia.
  - apply Forall_forall. intros x Hx.
    destruct (In_nth l x d Hx) as [k [Hk <-]].
    apply (H 0 (S k)); simpl; lia.
Qed.

Lemma segment_rearranged (L M M' R : list nat) :
  Permutation M M' -> M <> [] ->
  rearranged (length L) (length L + length M - 1) (L ++ M ++ R) (L ++ M' ++ R).
Proof.
  intros HP Hne.
  assert (HlM : length M' = length M) by (symmetry; now apply Permutation_length).
  assert (Hpos : 1 <= length M) by (destruct M; [congruence | simpl; lia]).
  split; [now apply Permutation_app_head, Permutation_app_tail|].
  split; [rewrite !length_app; lia|]. split.
  - intros k [Hk|Hk].
    + now rewrite !app_nth1 by lia.
    + rewrite !(app_nth2 L) by lia.
      rewrite !app_nth2 by lia. now rewrite HlM.
  - intros k Hk.
    rewrite (app_nth2 L) by lia. rewrite app_nth1 by lia.
    assert (Hin : In (nth (k - length L) M' 0) M).
    { apply (Permutation_in _ (Permutation_sym HP)). apply nth_In. lia. }
    destruct (In_nth M _ 0 Hin) as [k' [Hk' E]].
    exists (length L + k'). split; [lia|].
    rewrite (app_nth2 L) by lia. rewrite app_nth1 by lia.
    replace (length L + k' - length L) with k' by lia. now symmetry.
Qed.

Lemma segment_sorted (v : list Q) (L M R : list nat) :
  StronglySorted (fun a b => nth a v 0 <= nth b v 0)%Q M ->
  sorted_seg v (length L) (length L + length M - 1) (L ++ M ++ R).
Proof.
  intros Hs i j Hi Hij Hj. unfold Numpy.value, Numpy.deref.
  rewrite !(app_nth2 L) by lia. rewrite !app_nth1 by lia.
  apply (StronglySorted_nth _ M 0 Hs); lia.
Qed.

Lemma segment_split (t : list nat) (pl pr : nat) :
  pl <= pr -> pr < length t ->
  exists L x R1 R2,
    t = (L ++ (x :: R1) ++ R2)%list /\ length L = pl /\ length R1 = pr - pl.
Proof.
  intros H1 H2.
  exists (firstn pl t), (nth pl t 0), (firstn (pr - pl) (skipn (S pl) t)),
         (skipn (pr - pl) (skipn (S pl) t)).
  split; [|split].
  - cbn [app]. rewrite firstn_skipn. apply list_split_at. lia.
  - rewrite length_firstn. lia.
  - rewrite length_firstn, length_skipn. lia.
Qed.

Lemma stable_rank_ascending (v : list Q) (M : list nat) :
  StronglySorted (fun a b => nth a v 0 <= nth b v 0)%Q
                 (rev (stable_rank (fun i => nth i v 0%Q) M)).
Proof.
  apply StronglySorted_rev. apply (stable_rank_sorted (fun i => nth i v 0%Q)).
Qed.

Lemma insertion_sort_spec (v : list Q) (pl pr : nat) (t : list nat) :
  pl <= pr -> pr < length t ->
  let t' := Numpy.insertion_sort v pl pr t in
  rearranged pl pr t t' /\ sorted_seg v pl pr t'.
Proof.
  intros H1 H2. cbv zeta.
  destruct (segment_split t pl pr H1 H2) as (L & x & R1 & R2 & Et & HL & HR).
  unfold Numpy.insertion_sort.
  pose proof (insertion_segment v L R2 R1 [x]) as Hins.
  cbn [rev length app] in Hins.
  rewrite HL, HR, Nat.add_comm in Hins. cbn [app] in Et. rewrite <- Et in Hins.
  replace (1 + pl) with (pl + 1) in Hins by lia. rewrite Hins.
  change (fold_left (fun acc x0 => insert_desc (fun i => nth i v 0%Q) x0 acc) R1 [x])
    with (fold_left (fun acc x0 => insert_desc (fun i => nth i v 0%Q) x0 acc)
                    (x :: R1) []).
  rewrite fold_left_stable_rank.
  set (M' := rev (stable_rank (fun i => nth i v 0%Q) (rev (x :: R1)))).
  assert (HP : Permutation (x :: R1) M').
  { subst M'. eapply Permutation_trans; [apply Permutation_rev|].
    eapply Permutation_trans; [apply stable_rank_perm|]. apply Permutation_rev. }
  assert (Hlen : length M' = S (length R1))
    by (symmetry; apply (Permutation_length HP)).
  split.
  - rewrite Et at 1.
    replace pl with (length L) by exact HL.
    replace pr with (length L + length (x :: R1) - 1) by (simpl; lia).
    apply (segment_rearranged L (x :: R1) M' R2 HP). discriminate.
  - replace pl with (length L) by exact HL.
    replace pr with (length L + length M' - 1) by lia.
    apply segment_sorted. subst M'. apply stable_rank_ascending.
Qed.

(** ** Up to seventeen rows: the insertion sort alone *)


(** ** [sort_values] on a column of at most seventeen rows *)


(** ** The partition *)

Lemma scan_up_spec (v : list Q) (vp : Q) (t : list nat) :
  forall fuel pi b,
  pi < b -> (vp <= Numpy.value v t b)%Q -> b - pi <= fuel ->
  let pi' := Numpy.scan_up fuel v vp pi t in
  pi < pi' /\ pi' <= b /\ (vp <= Numpy.value v t pi')%Q /\
  forall k, pi < k -> k < pi' -> (Numpy.value v t k < vp)%Q.
Proof.
  induction fuel as [|fuel IH]; intros pi b Hb Hv Hf; [lia|].
  cbn [Numpy.scan_up].
  destruct (Numpy.less (Numpy.value v t (S pi)) vp) eqn:E.
  - apply less_true in E.
    assert (Hne : S pi <> b) by (intros Heq; rewrite <- Heq in Hv; lra).
    destruct (IH (S pi) b ltac:(lia) Hv ltac:(lia)) as (A & B & C & D).
    cbv zeta. split; [lia|]. split; [exact B|]. split; [exact C|].
    intros k Hk1 Hk2. destruct (Nat.eq_dec k (S pi)) as [->|Hk]; [exact E|].
    apply D; lia.
  - apply less_false in E. cbv zeta.
    split; [lia|]. split; [lia|]. split; [exact E|]. intros k Hk1 Hk2. lia.
Qed.

Lemma scan_down_spec (v : list Q) (vp : Q) (t : list nat) :
  forall fuel pj b,
  b < pj -> (Numpy.value v t b <= vp)%Q -> pj - b <= fuel ->
  let pj' := Numpy.scan_down fuel v vp pj t in
  b <= pj' /\ pj' < pj /\ (Numpy.value v t pj' <= vp)%Q /\
  forall k, pj' < k -> k < pj -> (vp < Numpy.value v t k)%Q.
Proof.
  induction fuel as [|fuel IH]; intros pj b Hb Hv Hf; [lia|].
  cbn [Numpy.scan_down].
  destruct (Numpy.less vp (Numpy.value v t (pj - 1))) eqn:E.
  - apply less_true in E.
    assert (Hne : pj - 1 <> b) by (intros Heq; rewrite <- Heq in Hv; lra).
    destruct (IH (pj - 1) b ltac:(lia) Hv ltac:(lia)) as (A & B & C & D).
    cbv zeta. split; [exact A|]. split; [lia|]. split; [exact C|].
    intros k Hk1 Hk2. destruct (Nat.eq_dec k (pj - 1)) as [->|Hk]; [exact E|].
    apply D; lia.
  - apply less_false in E. cbv zeta.
    split; [lia|]. split; [lia|]. split; [exact E|]. intros k Hk1 Hk2. lia.
Qed.

Lemma partition_loop_spec (v : list Q) (vp : Q) (pl pr : nat) (t0 : list nat) :
  forall fuel pi pj t,
  pr < length t -> pl <= pi -> pi < pj -> pj <= pr - 1 ->
  rearranged pl pr t0 t ->
  (forall k, pl <= k -> k <= pi -> (Numpy.value v t k <= vp)%Q) ->
  (forall k, pj <= k -> k <= pr -> (vp <= Numpy.value v t k)%Q) ->
  Numpy.value v t (pr - 1) = vp ->
  pj - pi <= fuel ->
  let res := Numpy.partition_loop fuel v vp pi pj t in
  rearranged pl pr t0 (snd res) /\
  pi < fst res /\ fst res <= pr - 1 /\
  (forall k, pl <= k -> k < fst res -> (Numpy.value v (snd res) k <= vp)%Q) /\
  (vp <= Numpy.value v (snd res) (fst res))%Q /\
  (forall k, fst res < k -> k <= pr -> (vp <= Numpy.value v (snd res) k)%Q) /\
  Numpy.value v (snd res) (pr - 1) = vp.
Proof.
  induction fuel as [|fuel IH]; intros pi pj t Hr Hpl Hij Hpj Hre HL HR Hpiv Hf;
    [lia|].
  cbn [Numpy.partition_loop].
  destruct (scan_up_spec v vp t (length t) pi pj Hij (HR pj (le_n _) ltac:(lia))
              ltac:(lia)) as (U1 & U2 & U3 & U4).
  destruct (scan_down_spec v vp t (length t) pj pi Hij (HL pi Hpl (le_n _))
              ltac:(lia)) as (D1 & D2 & D3 & D4).
  set (pi' := Numpy.scan_up (length t) v vp pi t) in *.
  set (pj' := Numpy.scan_down (length t) v vp pj t) in *.
  cbv zeta.
  destruct (Nat.leb_spec pj' pi') as [Hexit|Hgo].
  - cbn [fst snd]. split; [exact Hre|]. split; [exact U1|]. split; [lia|].
    split; [|split; [exact U3|split; [|exact Hpiv]]].
    + intros k Hk1 Hk2. destruct (le_lt_dec k pi) as [Hk|Hk].
      * now apply HL.
      * apply Qlt_le_weak. apply U4; lia.
    + intros k Hk1 Hk2. destruct (le_lt_dec pj k) as [Hk|Hk].
      * now apply HR.
      * apply Qlt_le_weak. apply D4; lia.
  - assert (Hlen : length (Numpy.INTP_SWAP t pi' pj') = length t)
      by (apply swap_length; lia).
    assert (Hval : forall k,
               Numpy.value v (Numpy.INTP_SWAP t pi' pj') k =
               if k =? pj' then Numpy.value v t pi'
               else if k =? pi' then Numpy.value v t pj' else Numpy.value v t k)
      by (intros k; apply value_swap; lia).
    destruct (IH pi' pj' (Numpy.INTP_SWAP t pi' pj')) as (R1 & R2 & R3 & R4 & R5 & R6 & R7).
    + lia.
    + lia.
    + exact Hgo.
    + lia.
    + eapply rearranged_trans; [exact Hre|]. apply rearranged_swap; lia.
    + intros k Hk1 Hk2. rewrite Hval.
      destruct (Nat.eqb_spec k pj'); [lia|].
      destruct (Nat.eqb_spec k pi'); [exact D3|].
      destruct (le_lt_dec k pi) as [Hk|Hk]; [now apply HL|].
      apply Qlt_le_weak. apply U4; lia.
    + intros k Hk1 Hk2. rewrite Hval.
      destruct (Nat.eqb_spec k pj'); [exact U3|].
      destruct (Nat.eqb_spec k pi'); [lia|].
      destruct (le_lt_dec pj k) as [Hk|Hk]; [now apply HR|].
      apply Qlt_le_weak. apply D4; lia.
    + rewrite Hval.
      destruct (Nat.eqb_spec (pr - 1) pj'); [lia|].
      destruct (Nat.eqb_spec (pr - 1) pi'); [lia|]. exact Hpiv.
    + lia.
    + split; [exact R1|]. split; [lia|]. split; [exact R3|].
      split; [exact R4|]. split; [exact R5|]. split; [exact R6 | exact R7].
Qed.

Lemma partition_step_spec (v : list Q) (pl pr : nat) (t : list nat) :
  pr < length t -> Numpy.SMALL_QUICKSORT < pr - pl ->
  let pm := pl + Nat.div2 (pr - pl) in
  let t1 := Numpy.median_of_three v pl pm pr t in
  let vp := Numpy.value v t1 pm in
  let t2 := Numpy.INTP_SWAP t1 pm (pr - 1) in
  let res := Numpy.partition_loop (length t) v vp pl (pr - 1) t2 in
  let t4 := Numpy.INTP_SWAP (snd res) (fst res) (pr - 1) in
  rearranged pl pr t t4 /\ partitioned v pl (fst res) pr t4.
Proof.
  intros Hr Hbig. unfold Numpy.SMALL_QUICKSORT in Hbig. cbv zeta.
  set (pm := pl + Nat.div2 (pr - pl)).
  assert (Hpm : pl < pm /\ pm < pr - 1).
  { subst pm. pose proof (Nat.div2_odd (pr - pl)) as Ho.
    destruct (Nat.odd (pr - pl)); simpl Nat.b2n in Ho; lia. }
  destruct (median_of_three_spec v pl pm pr t ltac:(lia) ltac:(lia) Hr)
    as (M1 & M2 & M3).
  set (t1 := Numpy.median_of_three v pl pm pr t) in *.
  assert (L1 : length t1 = length t) by apply M1.
  set (vp := Numpy.value v t1 pm) in *.
  set (t2 := Numpy.INTP_SWAP t1 pm (pr - 1)).
  assert (L2 : length t2 = length t) by (subst t2; rewrite swap_length; lia).
  assert (Hval2 : forall k, Numpy.value v t2 k =
                    if k =? pr - 1 then Numpy.value v t1 pm
                    else if k =? pm then Numpy.value v t1 (pr - 1)
                         else Numpy.value v t1 k)
    by (intros k; subst t2; apply value_swap; lia).
  destruct (partition_loop_spec v vp pl pr t (length t) pl (pr - 1) t2)
    as (R1 & R2 & R3 & R4 & R5 & R6 & R7).
  - lia.
  - lia.
  - lia.
  - lia.
  - eapply rearranged_trans; [exact M1|]. subst t2. apply rearranged_swap; lia.
  - intros k Hk1 Hk2. assert (k = pl) by lia. subst k. rewrite Hval2.
    destruct (Nat.eqb_spec pl (pr - 1)); [lia|].
    destruct (Nat.eqb_spec pl pm); [lia|]. exact M2.
  - intros k Hk1 Hk2. rewrite Hval2.
    destruct (Nat.eqb_spec k (pr - 1)); [subst vp; lra|].
    assert (k = pr) by lia. subst k.
    destruct (Nat.eqb_spec pr pm); [lia|]. exact M3.
  - rewrite Hval2. now rewrite Nat.eqb_refl.
  - lia.
  - set (res := Numpy.partition_loop (length t) v vp pl (pr - 1) t2) in *.
    assert (L3 : length (snd res) = length t) by (destruct R1 as (_ & L & _); exact L).
    assert (Hval4 : forall k,
               Numpy.value v (Numpy.INTP_SWAP (snd res) (fst res) (pr - 1)) k =
               if k =? pr - 1 then Numpy.value v (snd res) (fst res)
               else if k =? fst res then Numpy.value v (snd res) (pr - 1)
                    else Numpy.value v (snd res) k)
      by (intros k; apply value_swap; lia).
    split.
    + eapply rearranged_trans; [exact R1|]. apply rearranged_swap; lia.
    + split; [lia|]. split; [lia|].
      assert (Hp : Numpy.value v (Numpy.INTP_SWAP (snd res) (fst res) (pr - 1)) (fst res)
                   = vp).
      { rewrite Hval4. destruct (Nat.eqb_spec (fst res) (pr - 1)) as [E|E].
        - rewrite E. exact R7.
        - rewrite Nat.eqb_refl. exact R7. }
      rewrite Hp. split.
      * intros k Hk1 Hk2. rewrite Hval4.
        destruct (Nat.eqb_spec k (pr - 1)); [lia|].
        destruct (Nat.eqb_spec k (fst res)); [lia|]. now apply R4.
      * intros k Hk1 Hk2. rewrite Hval4.
        destruct (Nat.eqb_spec k (pr - 1)); [exact R5|].
        destruct (Nat.eqb_spec k (fst res)); [lia|]. now apply R6.
Qed.

(** ** The heapsort of a segment *)

Lemma heap_value_set (v : list Q) (start : nat) (t : list nat) (i x k : nat) :
  1 <= i -> 1 <= k -> start + i <= length t ->
  heap_value v start (Numpy.heap_set t start i x) k =
  if k =? i then nth x v 0%Q else heap_value v start t k.
Proof.
  intros Hi Hk Hl. unfold heap_value, Numpy.heap_get, Numpy.heap_set, Numpy.deref.
  rewrite store_nth by lia.
  destruct (Nat.eqb_spec (start + k - 1) (start + i - 1)) as [E|E];
    destruct (Nat.eqb_spec k i) as [E'|E']; try reflexivity; lia.
Qed.

Lemma heap_set_length (t : list nat) (start i x : nat) :
  1 <= i -> start + i <= length t ->
  length (Numpy.heap_set t start i x) = length t.
Proof. intros. unfold Numpy.heap_set. apply store_length. lia. Qed.

Lemma heap_get_set (t : list nat) (start i x k : nat) :
  1 <= i -> 1 <= k -> start + i <= length t ->
  Numpy.heap_get (Numpy.heap_set t start i x) start k =
  if k =? i then x else Numpy.heap_get t start k.
Proof.
  intros Hi Hk Hl. unfold Numpy.heap_get, Numpy.heap_set, Numpy.deref.
  rewrite store_nth by lia.
  destruct (Nat.eqb_spec (start + k - 1) (start + i - 1)) as [E|E];
    destruct (Nat.eqb_spec k i) as [E'|E']; try reflexivity; lia.
Qed.

Lemma store_same (t : list nat) (p : nat) :
  p < length t -> Numpy.store t p (nth p t 0) = t.
Proof.
  intros Hp. unfold Numpy.store. symmetry. now apply list_split_at.
Qed.

Lemma store_store (t : list nat) (p x y : nat) :
  p < length t -> Numpy.store (Numpy.store t p x) p y = Numpy.store t p y.
Proof.
  intros Hp. apply nth_ext with (d := 0) (d' := 0).
  - rewrite !store_length; rewrite ?store_length; lia.
  - intros k _. rewrite !store_nth; rewrite ?store_length; try lia.
    destruct (k =? p); reflexivity.
Qed.

(** Moving the hole from [i] to [j1] is an exchange in the array that has
    [tmp] in the hole. *)
Lemma hole_move (t : list nat) (start i j1 tmp : nat) :
  1 <= i -> i < j1 -> start + j1 <= length t ->
  Numpy.heap_set (Numpy.heap_set t start i (Numpy.heap_get t start j1)) start j1 tmp
  = Numpy.INTP_SWAP (Numpy.heap_set t start i tmp) (start + i - 1) (start + j1 - 1).
Proof.
  intros Hi Hij Hl. unfold Numpy.heap_set, Numpy.heap_get, Numpy.deref.
  apply nth_ext with (d := 0) (d' := 0).
  - rewrite swap_length; rewrite !store_length; rewrite ?store_length; lia.
  - intros k _.
    rewrite swap_nth by (rewrite store_length; lia).
    rewrite !store_nth; rewrite ?store_length; try lia.
    destruct (Nat.eqb_spec k (start + j1 - 1)) as [E1|E1].
    + rewrite Nat.eqb_refl. reflexivity.
    + destruct (Nat.eqb_spec k (start + i - 1)) as [E2|E2].
      * destruct (Nat.eqb_spec (start + j1 - 1) (start + i - 1)); [lia | reflexivity].
      * reflexivity.
Qed.

Lemma sift_spec (v : list Q) (start n l tmp : nat) (t0 : list nat) :
  forall fuel i j t,
  1 <= l -> l <= i -> i <= n -> j = i + i -> start + n <= length t ->
  n < fuel + j ->
  rearranged start (start + n - 1) t0 (Numpy.heap_set t start i tmp) ->
  almost_heap v start (Numpy.heap_set t start i tmp) l n i ->
  let res := Numpy.sift fuel v start n tmp i j t in
  rearranged start (start + n - 1) t0
             (Numpy.heap_set (snd res) start (fst res) tmp) /\
  is_heap v start (Numpy.heap_set (snd res) start (fst res) tmp) l n.
Proof.
  induction fuel as [|fuel IH]; intros i j t Hl Hli Hin Hj Hlen Hfuel Hre [HA1 HA2].
  - cbn [Numpy.sift fst snd]. split; [exact Hre|].
    intros k c Hk Hc Hcn. destruct (Nat.eq_dec k i) as [->|Hne].
    + unfold heap_child in Hc. lia.
    + now apply HA1.
  - cbn [Numpy.sift].
    set (L := Numpy.heap_set t start i tmp) in *.
    assert (HvL : forall k, 1 <= k ->
                heap_value v start L k =
                if k =? i then nth tmp v 0%Q else heap_value v start t k)
      by (intros k Hk; subst L; apply heap_value_set; lia).
    destruct (Nat.leb_spec j n) as [Hjn|Hjn].
    + set (j1 := if (j <? n) && Numpy.less (nth (Numpy.heap_get t start j) v 0%Q)
                                          (nth (Numpy.heap_get t start (j + 1)) v 0%Q)
                 then j + 1 else j).
      assert (Hj1 : (j1 = j \/ j1 = j + 1) /\ j1 <= n /\
                    forall c, heap_child c i -> c <= n ->
                              (heap_value v start t c <= heap_value v start t j1)%Q).
      { subst j1. destruct (Nat.ltb_spec j n) as [Hlt|Hge]; cbn [andb].
        - destruct (Numpy.less _ _) eqn:E.
          + apply less_true in E. split; [now right|]. split; [lia|].
            intros c [Hc|Hc] Hcn.
            * replace c with j by lia. unfold heap_value. lra.
            * replace c with (j + 1) by lia. apply Qle_refl.
          + apply less_false in E. split; [now left|]. split; [lia|].
            intros c [Hc|Hc] Hcn.
            * replace c with j by lia. apply Qle_refl.
            * replace c with (j + 1) by lia. unfold heap_value. exact E.
        - split; [now left|]. split; [lia|].
          intros c [Hc|Hc] Hcn; [|lia].
          replace c with j by lia. apply Qle_refl. }
      destruct Hj1 as (Hj1a & Hj1n & Hj1max).
      assert (Hj1c : heap_child j1 i) by (unfold heap_child; lia).
      fold (heap_value v start t j1).
      destruct (Numpy.less (nth tmp v 0%Q) (heap_value v start t j1)) eqn:E2.
      * apply less_true in E2.
        set (t' := Numpy.heap_set t start i (Numpy.heap_get t start j1)).
        assert (Ht' : length t' = length t)
          by (subst t'; apply heap_set_length; lia).
        assert (EL' : Numpy.heap_set t' start j1 tmp
                      = Numpy.INTP_SWAP L (start + i - 1) (start + j1 - 1)).
        { subst t' L. apply hole_move; lia. }
        assert (HLlen : length L = length t)
          by (subst L; apply heap_set_length; lia).
        assert (HvL' : forall k, 1 <= k ->
                  heap_value v start (Numpy.heap_set t' start j1 tmp) k =
                  if k =? j1 then heap_value v start L i
                  else if k =? i then heap_value v start L j1
                       else heap_value v start L k).
        { intros k Hk. rewrite EL'. unfold heap_value, Numpy.heap_get, Numpy.deref.
          rewrite swap_nth by lia.
          destruct (Nat.eqb_spec (start + k - 1) (start + j1 - 1)) as [E|E];
            destruct (Nat.eqb_spec k j1) as [E'|E']; try reflexivity; try lia.
          destruct (Nat.eqb_spec (start + k - 1) (start + i - 1)) as [E3|E3];
            destruct (Nat.eqb_spec k i) as [E4|E4]; try reflexivity; lia. }
        apply IH; try lia.
        -- rewrite EL'. eapply rearranged_trans; [exact Hre|].
           apply rearranged_swap; lia.
        -- assert (HLi : heap_value v start L i = nth tmp v 0%Q)
             by (rewrite HvL by lia; now rewrite Nat.eqb_refl).
           assert (HLj1 : heap_value v start L j1 = heap_value v start t j1).
           { rewrite HvL by lia. destruct (Nat.eqb_spec j1 i); [lia | reflexivity]. }
           assert (HLmax : forall c, heap_child c i -> c <= n ->
                             (heap_value v start L c <= heap_value v start L j1)%Q).
           { intros c Hc Hcn. rewrite HLj1, HvL by (unfold heap_child in Hc; lia).
             destruct (Nat.eqb_spec c i); [unfold heap_child in Hc; lia|].
             now apply Hj1max. }
           split.
           ++ intros k c Hk Hkn Hc Hcn.
              rewrite !HvL' by (unfold heap_child in Hc; lia).
              destruct (Nat.eqb_spec k j1) as [|Hkj]; [contradiction|].
              destruct (Nat.eqb_spec k i) as [->|Hki].
              ** destruct (Nat.eqb_spec c j1) as [->|Hcj].
                 --- rewrite HLi, HLj1. lra.
                 --- destruct (Nat.eqb_spec c i); [unfold heap_child in Hc; lia|].
                     now apply HLmax.
              ** destruct (Nat.eqb_spec c j1) as [->|Hcj].
                 --- exfalso. unfold heap_child in *. lia.
                 --- destruct (Nat.eqb_spec c i) as [->|Hci].
                     +++ apply (HA2 k j1); assumption.
                     +++ now apply HA1.
           ++ intros p c Hp Hpc Hc Hcn.
              assert (p = i) by (unfold heap_child in *; lia). subst p.
              rewrite !HvL' by (unfold heap_child in *; lia).
              destruct (Nat.eqb_spec i j1); [lia|]. rewrite Nat.eqb_refl.
              destruct (Nat.eqb_spec c j1); [unfold heap_child in Hc; lia|].
              destruct (Nat.eqb_spec c i); [unfold heap_child in Hc; lia|].
              apply HA1; try assumption; lia.
      * apply less_false in E2. cbn [fst snd]. fold L.
        split; [exact Hre|].
        intros k c Hk Hc Hcn. destruct (Nat.eq_dec k i) as [->|Hne].
        -- rewrite (HvL i) by lia. rewrite Nat.eqb_refl.
           rewrite HvL by (unfold heap_child in Hc; lia).
           destruct (Nat.eqb_spec c i); [unfold heap_child in Hc; lia|].
           eapply Qle_trans; [now apply Hj1max | exact E2].
        -- now apply HA1.
    + cbn [fst snd]. fold L. split; [exact Hre|].
      intros k c Hk Hc Hcn. destruct (Nat.eq_dec k i) as [->|Hne].
      * unfold heap_child in Hc. lia.
      * now apply HA1.
Qed.

Lemma heap_set_same (t : list nat) (start i : nat) :
  1 <= i -> start + i <= length t ->
  Numpy.heap_set t start i (Numpy.heap_get t start i) = t.
Proof.
  intros Hi Hl. unfold Numpy.heap_set, Numpy.heap_get, Numpy.deref.
  apply store_same. lia.
Qed.

Lemma heapify_spec (v : list Q) (start n : nat) (t0 : list nat) :
  forall l t,
  l <= n -> start + n <= length t ->
  rearranged start (start + n - 1) t0 t ->
  is_heap v start t (l + 1) n ->
  let t' := Numpy.heapify l v start n t in
  rearranged start (start + n - 1) t0 t' /\ is_heap v start t' 1 n.
Proof.
  induction l as [|l IH]; intros t Hln Hlen Hre Hheap.
  - cbn [Numpy.heapify]. now split.
  - cbn [Numpy.heapify].
    set (tmp := Numpy.heap_get t start (S l)).
    assert (EL : Numpy.heap_set t start (S l) tmp = t)
      by (subst tmp; apply heap_set_same; lia).
    destruct (sift_spec v start n (S l) tmp t0 n (S l) (S l + S l) t) as [S1 S2];
      try lia.
    + rewrite EL. exact Hre.
    + rewrite EL. split.
      * intros k c Hk Hne Hc Hcn. apply Hheap; [lia | exact Hc | exact Hcn].
      * intros p c Hp Hpc Hc Hcn. unfold heap_child in Hpc. lia.
    + destruct (Numpy.sift n v start n tmp (S l) (S l + S l) t) as [i t1] eqn:Es.
      cbn [fst snd] in S1, S2.
      assert (Hl1 : length (Numpy.heap_set t1 start i tmp) = length t).
      { destruct S1 as (_ & L & _). destruct Hre as (_ & L0 & _). congruence. }
      apply IH; try lia.
      * exact S1.
      * replace (l + 1) with (S l) by lia. exact S2.
Qed.

Lemma heap_root_max (v : list Q) (start : nat) (t : list nat) (m : nat) :
  is_heap v start t 1 m ->
  forall k, 1 <= k -> k <= m ->
            (heap_value v start t k <= heap_value v start t 1)%Q.
Proof.
  intros Hh k. induction k as [k IH] using lt_wf_ind. intros Hk Hkm.
  destruct (Nat.eq_dec k 1) as [->|Hne]; [apply Qle_refl|].
  assert (Hc : heap_child k (Nat.div2 k)).
  { unfold heap_child. pose proof (Nat.div2_odd k) as Ho.
    destruct (Nat.odd k); simpl Nat.b2n in Ho; lia. }
  assert (Hp : 1 <= Nat.div2 k /\ Nat.div2 k < k).
  { unfold heap_child in Hc. lia. }
  eapply Qle_trans; [apply (Hh (Nat.div2 k) k); [lia | exact Hc | exact Hkm]|].
  apply IH; lia.
Qed.

Lemma heap_value_pos (v : list Q) (start : nat) (t : list nat) (k : nat) :
  heap_value v start t k = Numpy.value v t (start + k - 1).
Proof. reflexivity. Qed.

Lemma heap_drain_spec (v : list Q) (start n : nat) (t0 : list nat) :
  forall m t,
  m <= n -> start + n <= length t ->
  rearranged start (start + n - 1) t0 t ->
  is_heap v start t 1 m ->
  (forall i j, m < i -> i < j -> j <= n ->
               (heap_value v start t i <= heap_value v start t j)%Q) ->
  (forall i k, 1 <= i -> i <= m -> m < k -> k <= n ->
               (heap_value v start t i <= heap_value v start t k)%Q) ->
  let t' := Numpy.heap_drain m v start t in
  rearranged start (start + n - 1) t0 t' /\
  (forall i j, 1 <= i -> i < j -> j <= n ->
               (heap_value v start t' i <= heap_value v start t' j)%Q).
Proof.
  induction m as [|m IH]; intros t Hmn Hlen Hre Hheap Hsuf Hbound.
  - cbn [Numpy.heap_drain]. split; [exact Hre|].
    intros i j Hi Hij Hj. apply Hsuf; lia.
  - cbn [Numpy.heap_drain].
    destruct (Nat.ltb_spec 1 (S m)) as [Hgt|Hle].
    + set (tmp := Numpy.heap_get t start (S m)).
      set (t1 := Numpy.heap_set t start (S m) (Numpy.heap_get t start 1)).
      assert (Ht1 : length t1 = length t)
        by (subst t1; apply heap_set_length; lia).
      set (L1 := Numpy.heap_set t1 start 1 tmp).
      assert (HL1 : length L1 = length t)
        by (subst L1; rewrite heap_set_length; lia).
      assert (HvL1 : forall k, 1 <= k ->
                heap_value v start L1 k =
                if k =? 1 then heap_value v start t (S m)
                else if k =? S m then heap_value v start t 1
                     else heap_value v start t k).
      { intros k Hk. subst L1. rewrite heap_value_set by lia.
        destruct (Nat.eqb_spec k 1); [reflexivity|].
        subst t1. rewrite heap_value_set by lia.
        destruct (Nat.eqb_spec k (S m)); reflexivity. }
      assert (EL1 : L1 = Numpy.INTP_SWAP t (start + 1 - 1) (start + S m - 1)).
      { subst L1 t1 tmp. unfold Numpy.heap_set, Numpy.heap_get, Numpy.deref.
        apply nth_ext with (d := 0) (d' := 0).
        - rewrite swap_length by lia. rewrite !store_length; rewrite ?store_length; lia.
        - intros k _. rewrite swap_nth by lia.
          rewrite !store_nth; rewrite ?store_length; try lia.
          destruct (Nat.eqb_spec k (start + 1 - 1)) as [E1|E1];
            destruct (Nat.eqb_spec k (start + S m - 1)) as [E2|E2];
            try reflexivity; lia. }
      assert (Hre1 : rearranged start (start + n - 1) t0 L1).
      { eapply rearranged_trans; [exact Hre|]. rewrite EL1.
        apply rearranged_swap; lia. }
      destruct (sift_spec v start m 1 tmp L1 (S m) 1 2 t1) as [S1 S2]; try lia.
      * apply rearranged_refl.
      * fold L1. split.
        -- intros k c Hk Hne Hc Hcm. rewrite !HvL1 by (unfold heap_child in Hc; lia).
           destruct (Nat.eqb_spec c 1); [unfold heap_child in Hc; lia|].
           destruct (Nat.eqb_spec c (S m)); [lia|].
           destruct (Nat.eqb_spec k 1); [lia|].
           destruct (Nat.eqb_spec k (S m)); [unfold heap_child in Hc; lia|].
           apply Hheap; [lia | exact Hc | lia].
        -- intros p c Hp Hpc Hc Hcm. unfold heap_child in Hpc. lia.
      * destruct (Numpy.sift (S m) v start m tmp 1 2 t1) as [i t2] eqn:Es.
        cbn [fst snd] in S1, S2.
        set (L' := Numpy.heap_set t2 start i tmp) in *.
        assert (HL' : length L' = length t)
          by (destruct S1 as (_ & L & _); lia).
        assert (Hout : forall k, m < k -> 1 <= k ->
                  heap_value v start L' k = heap_value v start L1 k).
        { intros k Hk Hk1. unfold heap_value, Numpy.heap_get, Numpy.deref.
          destruct S1 as (_ & _ & O & _). rewrite O by lia. reflexivity. }
        assert (Hin : forall k, 1 <= k -> k <= m ->
                  exists k', 1 <= k' /\ k' <= m /\
                    heap_value v start L' k = heap_value v start L1 k').
        { intros k Hk1 Hkm. destruct S1 as (_ & _ & _ & W).
          destruct (W (start + k - 1) ltac:(lia)) as [p [Hp E]].
          exists (p - start + 1). split; [lia|]. split; [lia|].
          unfold heap_value, Numpy.heap_get, Numpy.deref. rewrite E.
          f_equal. f_equal. lia. }
        assert (Hmax : forall k, 1 <= k -> k <= S m ->
                  (heap_value v start t k <= heap_value v start t 1)%Q)
          by (apply heap_root_max; exact Hheap).
        assert (Hbelow : forall k, 1 <= k -> k <= m ->
                  exists k', 1 <= k' /\ k' <= S m /\
                    heap_value v start L' k = heap_value v start t k').
        { intros k Hk1 Hkm. destruct (Hin k Hk1 Hkm) as [k' [H1 [H2 E]]].
          rewrite HvL1 in E by lia.
          destruct (Nat.eqb_spec k' 1).
          - exists (S m). split; [lia|]. split; [lia | exact E].
          - destruct (Nat.eqb_spec k' (S m)); [lia|].
            exists k'. split; [lia|]. split; [lia | exact E]. }
        apply IH; try lia.
        -- eapply rearranged_trans; [exact Hre1|].
           apply (rearranged_widen start (start + n - 1) start (start + m - 1));
             [lia | lia | lia | exact S1].
        -- exact S2.
        -- intros a b Ha Hab Hb.
           rewrite !Hout by lia. rewrite !HvL1 by lia.
           destruct (Nat.eqb_spec a 1); [lia|].
           destruct (Nat.eqb_spec b 1); [lia|].
           destruct (Nat.eqb_spec b (S m)); [lia|].
           destruct (Nat.eqb_spec a (S m)) as [->|Ha'].
           ++ apply Hbound; lia.
           ++ apply Hsuf; lia.
        -- intros a k Ha Ham Hk Hkn.
           rewrite (Hout k) by lia. rewrite (HvL1 k) by lia.
           destruct (Nat.eqb_spec k 1); [lia|].
           destruct (Hbelow a Ha Ham) as [a' [H1 [H2 E]]]. rewrite E.
           destruct (Nat.eqb_spec k (S m)) as [->|Hk'].
           ++ now apply Hmax.
           ++ apply Hbound; lia.
    + assert (m = 0) by lia. subst m.
      split; [exact Hre|].
      intros i j Hi Hij Hj. destruct (Nat.eq_dec i 1) as [->|Hne].
      * apply Hbound; lia.
      * apply Hsuf; lia.
Qed.

Lemma aheapsort_spec (v : list Q) (t : list nat) (start n : nat) :
  1 <= n -> start + n <= length t ->
  let t' := Numpy.aheapsort v t start n in
  rearranged start (start + n - 1) t t' /\ sorted_seg v start (start + n - 1) t'.
Proof.
  intros Hn Hlen. cbv zeta. unfold Numpy.aheapsort.
  assert (Hd : Nat.div2 n <= n /\ n < 2 * (Nat.div2 n + 1)).
  { pose proof (Nat.div2_odd n) as Ho.
    destruct (Nat.odd n); simpl Nat.b2n in Ho; lia. }
  destruct (heapify_spec v start n t (Nat.div2 n) t) as [H1 H2]; try lia.
  - apply rearranged_refl.
  - intros k c Hk Hc Hcn. unfold heap_child in Hc. lia.
  - set (t1 := Numpy.heapify (Nat.div2 n) v start n t) in *.
    assert (Hl1 : length t1 = length t) by (destruct H1 as (_ & L & _); exact L).
    destruct (heap_drain_spec v start n t n t1) as [D1 D2]; try lia.
    + exact H1.
    + exact H2.
    + split; [exact D1|].
      intros i j Hi Hij Hj.
      replace i with (start + (i - start + 1) - 1) by lia.
      replace j with (start + (j - start + 1) - 1) by lia.
      rewrite <- !heap_value_pos. apply D2; lia.
Qed.

(** ** The segments still to be sorted *)

Lemma ordered_step (v : list Q) (t t' : list nat) (pl pr : nat)
    (P Q : list segment) :
  segments_ok t ((pl, pr) :: P) ->
  ordered_outside v t ((pl, pr) :: P) ->
  rearranged pl pr t t' ->
  Forall (fun s => pl <= fst s /\ snd s <= pr) Q ->
  (forall i j, pl <= i -> i < j -> j <= pr ->
               (forall s, In s Q -> ~ inside_segment s i j) ->
               (Numpy.value v t' i <= Numpy.value v t' j)%Q) ->
  ordered_outside v t' (Q ++ P).
Proof.
  intros [Hok Hap] Hord (HP & HL & HO & HW) HQ Hseg i j Hij Hj Hnot.
  rewrite HL in Hj.
  assert (Hpr : pr < length t) by (inversion Hok as [|? ? [_ H] _]; exact H).
  cbn [segments_apart] in Hap. destruct Hap as [Hap _].
  rewrite Forall_forall in Hap, HQ.
  assert (HnP : forall s, In s P -> ~ inside_segment s i j)
    by (intros s Hs; apply Hnot, in_or_app; now right).
  assert (HnQ : forall s, In s Q -> ~ inside_segment s i j)
    by (intros s Hs; apply Hnot, in_or_app; now left).
  assert (Hval : forall k k', nth k t' 0 = nth k' t 0 ->
                              Numpy.value v t' k = Numpy.value v t k').
  { intros k k' E. unfold Numpy.value, Numpy.deref. now rewrite E. }
  assert (Hclash : forall s a, In s P -> pl <= a -> a <= pr ->
                             ~ (fst s <= a /\ a <= snd s)).
  { intros s a Hs Ha1 Ha2. specialize (Hap s Hs). unfold apart in Hap.
    cbn [fst snd] in Hap. lia. }
  destruct (le_lt_dec pl i) as [Hi1|Hi1]; [destruct (le_lt_dec i pr) as [Hi2|Hi2]|].
  - (* i in the segment *)
    destruct (le_lt_dec j pr) as [Hj2|Hj2].
    + apply Hseg; try assumption.
    + destruct (HW i (conj Hi1 Hi2)) as [i' [Hi' Ei]].
      rewrite (Hval i i' Ei), (Hval j j (HO j (or_intror Hj2))).
      apply Hord; [lia | lia |].
      intros s [<-|Hs].
      * unfold inside_segment. cbn [fst snd]. lia.
      * intros [Hin1 Hin2]. apply (Hclash s i' Hs); lia.
  - (* i right of the segment *)
    assert (Hj2 : pr < j) by lia.
    rewrite (Hval i i (HO i (or_intror Hi2))).
    rewrite (Hval j j (HO j (or_intror Hj2))).
    apply Hord; [lia | lia |].
    intros s [<-|Hs]; [unfold inside_segment; cbn [fst snd]; lia | now apply HnP].
  - (* i left of the segment *)
    rewrite (Hval i i (HO i (or_introl Hi1))).
    destruct (le_lt_dec pl j) as [Hj1|Hj1]; [destruct (le_lt_dec j pr) as [Hj2|Hj2]|].
    + destruct (HW j (conj Hj1 Hj2)) as [j' [Hj' Ej]].
      rewrite (Hval j j' Ej).
      apply Hord; [lia | lia |].
      intros s [<-|Hs].
      * unfold inside_segment. cbn [fst snd]. lia.
      * intros [Hin1 Hin2]. apply (Hclash s j' Hs); lia.
    + rewrite (Hval j j (HO j (or_intror Hj2))).
      apply Hord; [lia | lia |].
      intros s [<-|Hs]; [unfold inside_segment; cbn [fst snd]; lia | now apply HnP].
    + rewrite (Hval j j (HO j (or_introl Hj1))).
      apply Hord; [lia | lia |].
      intros s [<-|Hs]; [unfold inside_segment; cbn [fst snd]; lia | now apply HnP].
Qed.

Lemma segments_ok_length (t t' : list nat) (P : list segment) :
  length t' = length t -> segments_ok t P -> segments_ok t' P.
Proof.
  intros E [H1 H2]. split; [|exact H2].
  eapply Forall_impl; [|exact H1]. intros s Hs. rewrite E. exact Hs.
Qed.

Lemma segments_ok_tail (t : list nat) (s : segment) (P : list segment) :
  segments_ok t (s :: P) -> segments_ok t P.
Proof.
  intros [H1 [_ H2]]. split; [now inversion H1 | exact H2].
Qed.

Lemma apart_sym (s s' : segment) : apart s s' -> apart s' s.
Proof. unfold apart. lia. Qed.

Lemma segments_ok_split (t : list nat) (pl pi pr : nat) (P : list segment) :
  pl < pi -> pi < pr ->
  segments_ok t ((pl, pr) :: P) ->
  segments_ok t ((pl, pi - 1) :: (pi + 1, pr) :: P) /\
  segments_ok t ((pi + 1, pr) :: (pl, pi - 1) :: P).
Proof.
  intros H1 H2 [Hok [Hap Hrest]].
  inversion Hok as [|? ? [Ha Hb] HokP]; subst. cbn [fst snd] in *.
  assert (HapL : Forall (apart (pl, pi - 1)) P).
  { eapply Forall_impl; [|exact Hap]. unfold apart. cbn [fst snd]. intros s Hs. lia. }
  assert (HapR : Forall (apart (pi + 1, pr)) P).
  { eapply Forall_impl; [|exact Hap]. unfold apart. cbn [fst snd]. intros s Hs. lia. }
  split.
  - split.
    + repeat constructor; cbn [fst snd]; try lia. exact HokP.
    + cbn [segments_apart]. split; [|split; [exact HapR | exact Hrest]].
      constructor; [unfold apart; cbn [fst snd]; lia | exact HapL].
  - split.
    + repeat constructor; cbn [fst snd]; try lia. exact HokP.
    + cbn [segments_apart]. split; [|split; [exact HapL | exact Hrest]].
      constructor; [unfold apart; cbn [fst snd]; lia | exact HapR].
Qed.

Lemma ordered_same (v : list Q) (t : list nat) (P P' : list segment) :
  (forall s, In s P -> In s P') -> ordered_outside v t P -> ordered_outside v t P'.
Proof.
  intros Hin Hord i j Hij Hj Hnot. apply Hord; try assumption.
  intros s Hs. apply Hnot, Hin, Hs.
Qed.

(** ** The loops of [aquicksort_] *)

Lemma partitioned_ordered (v : list Q) (pl pi pr : nat) (t : list nat) :
  partitioned v pl pi pr t ->
  forall i j, pl <= i -> i < j -> j <= pr ->
    (forall s, In s [(pl, pi - 1); (pi + 1, pr)] -> ~ inside_segment s i j) ->
    (Numpy.value v t i <= Numpy.value v t j)%Q.
Proof.
  intros (H1 & H2 & HL & HR) i j Hi Hij Hj Hnot.
  assert (Hn1 : ~ inside_segment (pl, pi - 1) i j) by (apply Hnot; now left).
  assert (Hn2 : ~ inside_segment (pi + 1, pr) i j) by (apply Hnot; right; now left).
  unfold inside_segment in Hn1, Hn2. cbn [fst snd] in Hn1, Hn2.
  destruct (lt_eq_lt_dec i pi) as [[Hlt|Heq]|Hgt].
  - destruct (Nat.eq_dec j pi) as [Hj'|Hne]; [subst j; now apply HL|].
    eapply Qle_trans; [apply (HL i); lia | apply (HR j); lia].
  - subst i. apply HR; lia.
  - lia.
Qed.

Lemma quicksort_partition_spec (v : list Q) :
  forall fuel t pl pr stack cdepth t' pl' pr' stack',
  segments_ok t ((pl, pr) :: stack_segments stack) ->
  ordered_outside v t ((pl, pr) :: stack_segments stack) ->
  Numpy.quicksort_partition fuel v t pl pr stack cdepth = (t', pl', pr', stack') ->
  Permutation t t' /\ length t' = length t /\
  segments_ok t' ((pl', pr') :: stack_segments stack') /\
  ordered_outside v t' ((pl', pr') :: stack_segments stack') /\
  pending_size ((pl', pr') :: stack_segments stack') <= pending_size ((pl, pr) :: stack_segments stack).
Proof.
  induction fuel as [|fuel IH];
    intros t pl pr stack cdepth t' pl' pr' stack' Hok Hord E.
  - cbn [Numpy.quicksort_partition] in E. injection E as <- <- <- <-.
    split; [reflexivity|]. split; [reflexivity|]. split; [exact Hok|].
    split; [exact Hord|]. apply Nat.le_refl.
  - cbn [Numpy.quicksort_partition] in E.
    destruct (Nat.ltb_spec Numpy.SMALL_QUICKSORT (pr - pl)) as [Hbig|Hsmall].
    + assert (Hpr : pr < length t).
      { destruct Hok as [H _]. inversion H as [|? ? [_ Hx] _]. exact Hx. }
      pose proof (partition_step_spec v pl pr t Hpr Hbig) as Hstep.
      cbv zeta in Hstep.
      destruct (Numpy.partition_loop (length t) v
                  (Numpy.value v (Numpy.median_of_three v pl (pl + Nat.div2 (pr - pl)) pr t)
                               (pl + Nat.div2 (pr - pl)))
                  pl (pr - 1)
                  (Numpy.INTP_SWAP
                     (Numpy.median_of_three v pl (pl + Nat.div2 (pr - pl)) pr t)
                     (pl + Nat.div2 (pr - pl)) (pr - 1)))
        as [pi t3] eqn:Ep.
      cbn [fst snd] in Hstep. destruct Hstep as [Hre Hpart].
      set (t4 := Numpy.INTP_SWAP t3 pi (pr - 1)) in *.
      assert (Hl4 : length t4 = length t) by (destruct Hre as (_ & L & _); exact L).
      assert (Hp4 : Permutation t t4) by (destruct Hre as (P & _); exact P).
      assert (Hpi : pl < pi /\ pi < pr) by (destruct Hpart as (A & B & _); now split).
      assert (Hord4 : ordered_outside v t4 ([(pl, pi - 1); (pi + 1, pr)] ++ stack_segments stack)).
      { apply (ordered_step v t t4 pl pr); try assumption.
        - repeat constructor; cbn [fst snd]; lia.
        - now apply partitioned_ordered. }
      destruct (segments_ok_split t pl pi pr (stack_segments stack) (proj1 Hpi) (proj2 Hpi) Hok)
        as [Hok1 Hok2].
      apply (segments_ok_length t t4 _ Hl4) in Hok1.
      apply (segments_ok_length t t4 _ Hl4) in Hok2.
      destruct (Nat.ltb_spec (pi - pl) (pr - pi)) as [Hside|Hside].
      * destruct (IH t4 pl (pi - 1) ((pi + 1, pr, (cdepth - 1)%Z) :: stack)
                    (cdepth - 1)%Z t' pl' pr' stack' Hok1 Hord4 E)
          as (A & B & C & D & F).
        split; [eapply Permutation_trans; eassumption|].
        split; [congruence|]. split; [exact C|]. split; [exact D|].
        eapply Nat.le_trans; [exact F|].
        unfold pending_size, stack_segments. cbn [map fold_right fst snd]. lia.
      * assert (Hord4' : ordered_outside v t4 ((pi + 1, pr) :: (pl, pi - 1) :: stack_segments stack)).
        { eapply ordered_same; [|exact Hord4]. cbn [app]. intros s Hs.
          cbn [In] in *. tauto. }
        destruct (IH t4 (pi + 1) pr ((pl, pi - 1, (cdepth - 1)%Z) :: stack)
                    (cdepth - 1)%Z t' pl' pr' stack' Hok2 Hord4' E)
          as (A & B & C & D & F).
        split; [eapply Permutation_trans; eassumption|].
        split; [congruence|]. split; [exact C|]. split; [exact D|].
        eapply Nat.le_trans; [exact F|].
        unfold pending_size, stack_segments. cbn [map fold_right fst snd]. lia.
    + injection E as <- <- <- <-.
      split; [reflexivity|]. split; [reflexivity|]. split; [exact Hok|].
    split; [exact Hord|]. apply Nat.le_refl.
Qed.

Lemma pending_positive (t : list nat) (s : segment) (P : list segment) :
  1 <= pending_size (s :: P).
Proof. cbn [pending_size fold_right]. lia. Qed.

Lemma quicksort_loop_spec (v : list Q) :
  forall fuel t pl pr stack cdepth,
  segments_ok t ((pl, pr) :: stack_segments stack) ->
  ordered_outside v t ((pl, pr) :: stack_segments stack) ->
  pending_size ((pl, pr) :: stack_segments stack) <= fuel ->
  let t' := Numpy.quicksort_loop fuel v t pl pr stack cdepth in
  Permutation t t' /\ length t' = length t /\ ordered_outside v t' [].
Proof.
  induction fuel as [|fuel IH]; intros t pl pr stack cdepth Hok Hord Hfuel.
  - unfold pending_size in Hfuel. cbn [fold_right] in Hfuel. lia.
  - cbv zeta. cbn [Numpy.quicksort_loop].
    assert (Hnext : forall sorted stack',
              Permutation t sorted -> length sorted = length t ->
              segments_ok sorted (stack_segments stack') -> ordered_outside v sorted (stack_segments stack') ->
              pending_size (stack_segments stack') <= fuel ->
              let t' := match stack' with
                        | [] => sorted
                        | (pl2, pr2, cdepth2) :: rest =>
                            Numpy.quicksort_loop fuel v sorted pl2 pr2 rest cdepth2
                        end in
              Permutation t t' /\ length t' = length t /\ ordered_outside v t' []).
    { intros sorted stack' HP HL Hok' Hord' Hpend. cbv zeta.
      destruct stack' as [|[[pl2 pr2] cdepth2] rest].
      - now repeat split.
      - destruct (IH sorted pl2 pr2 rest cdepth2 Hok' Hord' Hpend) as (A & B & C).
        split; [eapply Permutation_trans; eassumption|]. split; [congruence | exact C]. }
    assert (Hseg : pl <= pr /\ pr < length t).
    { destruct Hok as [H _]. inversion H as [|? ? Hx _]. exact Hx. }
    destruct (cdepth <? 0)%Z.
    + destruct (aheapsort_spec v t pl (pr - pl + 1)) as [Hre Hso]; try lia.
      replace (pl + (pr - pl + 1) - 1) with pr in Hre, Hso by lia.
      apply Hnext.
      * apply Hre.
      * apply Hre.
      * eapply segments_ok_length; [apply Hre|]. eapply segments_ok_tail; exact Hok.
      * apply (ordered_step v t _ pl pr (stack_segments stack) []); try assumption.
        -- constructor.
        -- intros i j Hi Hij Hj _. now apply Hso.
      * cbn [pending_size fold_right] in Hfuel. fold (pending_size (stack_segments stack)) in Hfuel. lia.
    + destruct (Numpy.quicksort_partition (length t) v t pl pr stack cdepth)
        as [[[t1 pl1] pr1] stack1] eqn:Ep.
      destruct (quicksort_partition_spec v _ _ _ _ _ _ _ _ _ _ Hok Hord Ep)
        as (A & B & C & D & F).
      assert (Hseg1 : pl1 <= pr1 /\ pr1 < length t1).
      { destruct C as [H _]. inversion H as [|? ? Hx _]. exact Hx. }
      destruct (insertion_sort_spec v pl1 pr1 t1 (proj1 Hseg1) (proj2 Hseg1))
        as [Hre Hso].
      apply Hnext.
      * eapply Permutation_trans; [exact A | apply Hre].
      * destruct Hre as (_ & L & _). congruence.
      * eapply segments_ok_length; [apply Hre|]. eapply segments_ok_tail; exact C.
      * apply (ordered_step v t1 _ pl1 pr1 (stack_segments stack1) []); try assumption.
        -- constructor.
        -- intros i j Hi Hij Hj _. now apply Hso.
      * cbn [pending_size fold_right] in F. fold (pending_size (stack_segments stack1)) in F.
        fold (pending_size (stack_segments stack)) in F.
        cbn [pending_size fold_right] in Hfuel. fold (pending_size (stack_segments stack)) in Hfuel. lia.
Qed.

(** ** [argsort]: a rearrangement of the positions, in order of value *)

Lemma argsort_sorts (v : list Q) :
  Permutation (seq 0 (length v)) (Numpy.argsort v) /\
  StronglySorted (fun a b => nth a v 0 <= nth b v 0)%Q (Numpy.argsort v).
Proof.
  unfold Numpy.argsort, Numpy.aquicksort.
  destruct (length v) as [|m] eqn:En.
  - cbn. split; constructor.
  - set (t := seq 0 (S m)).
    assert (Hlt : length t = S m) by (subst t; apply length_seq).
    destruct (quicksort_loop_spec v (S (S m)) t 0 (S m - 1) []
                (Numpy.npy_get_msb (S m) * 2)%Z) as (A & B & C).
    + unfold stack_segments. cbn [map]. split.
      * constructor; [cbn [fst snd]; lia | constructor].
      * cbn [segments_apart]. split; [constructor | exact I].
    + intros i j Hij Hj Hnot. exfalso. apply (Hnot (0, S m - 1)); [now left|].
      unfold inside_segment. cbn [fst snd]. lia.
    + unfold pending_size, stack_segments. cbn [map fold_right fst snd]. lia.
    + split; [exact A|].
      apply (nth_StronglySorted _ _ 0). intros i j Hij Hj.
      apply (C i j Hij Hj). intros s [].
Qed.

(** ** [sort_values] keeps its promise on every frame *)

Lemma StronglySorted_map {A B} (R : B -> B -> Prop) (f : A -> B) (l : list A) :
  StronglySorted (fun a b => R (f a) (f b)) l -> StronglySorted R (map f l).
Proof.
  intros H. induction H as [|a l Hs IH Hall]; cbn [map]; constructor.
  - exact IH.
  - apply Forall_map. exact Hall.
Qed.

Lemma sort_values_rows (df : list (string * Q)) :
  Pandas.sort_values df
  = rev (map (fun k => nth k (rev df) (EmptyString, 0%Q))
             (Numpy.argsort (rev (map snd df)))).
Proof.
  unfold Pandas.sort_values, Pandas.nargsort.
  set (d := (EmptyString, 0%Q)).
  set (n := length df).
  assert (Hlen : length (rev (map snd df)) = n)
    by (now rewrite length_rev, length_map).
  destruct (argsort_sorts (rev (map snd df))) as [HP _].
  rewrite Hlen in HP. rewrite length_map. fold n.
  set (t := Numpy.argsort (rev (map snd df))) in *.
  rewrite <- !map_rev, map_map.
  apply map_ext_in. intros k Hk.
  assert (Hkn : k < n).
  { apply in_rev in Hk. apply (Permutation_in _ (Permutation_sym HP)) in Hk.
    apply in_seq in Hk. lia. }
  rewrite (rev_nth (seq 0 n)) by (now rewrite length_seq).
  rewrite length_seq, seq_nth by lia. cbn [Nat.add].
  rewrite (rev_nth df) by (fold n; lia). reflexivity.
Qed.

Lemma sort_values_contract : sort_contract Pandas.sort_values.
Proof.
  intros df. rewrite sort_values_rows.
  set (d := (EmptyString, 0%Q)).
  destruct (argsort_sorts (rev (map snd df))) as [HP HS].
  rewrite length_rev, length_map in HP.
  set (t := Numpy.argsort (rev (map snd df))) in *.
  split.
  - eapply Permutation_trans; [|apply Permutation_rev].
    eapply Permutation_trans;
      [|apply Permutation_map; exact HP].
    rewrite <- (length_rev df), map_nth_seq. apply Permutation_rev.
  - apply StronglySorted_rev. apply StronglySorted_map.
    assert (Hkey : forall k, nth k (rev (map snd df)) 0%Q = snd (nth k (rev df) d)).
    { intros k. rewrite <- map_rev. change 0%Q with (snd d). apply map_nth. }
    clear HP. induction HS as [|a l HS IH Hall]; constructor.
    + exact IH.
    + eapply Forall_impl; [|exact Hall].
      intros b Hab. unfold by_value_desc. cbv beta in Hab |- *.
      now rewrite <- !Hkey.
Qed.


(** X16.  The sort that [plot_data] runs keeps the promise of
    [sort_values] on every frame, whatever its size and whatever its
    values, the partition and the heapsort of large columns included: the
    rows come back rearranged and non-increasing in value. *)
Theorem numpy_quicksort_sorts_every_frame : sort_contract Pandas.sort_values.
Proof. exact sort_values_contract. Qed.

(** ** The theorems at concrete inputs *)


(** The returns of that window and the variance the value is the root of. *)
Example rolling_volatility_four_candles :
  let df := analyze Sample.sqrt6 Sample.to_float true Sample.four_candles 2 in
  Returns df = [XNaN; XNum (2 # 100); XNum (-1 # 102); XNum (3 # 101)] /\
  trailing_window 2 2 (Returns df) = map XNum [2 # 100; -1 # 102] /\
  sample_variance [2 # 100; -1 # 102] == 5776 # 13005000 /\
  nth_error (Rolling_Std_4h df) 1 = Some NaN.
Proof.
  cbv zeta. split; [reflexivity|]. split; [reflexivity|].
  split; [vm_compute; reflexivity | reflexivity].
Qed.

(** The vector of the specification's test: eight returns, window eight.
    The mean is [1/400], the squared deviations add up to [3/2500], and the
    variance is that sum over seven. *)
Example rolling_std_of_spec_vector :
  let xs := [1 # 100; -2 # 100; 15 # 1000; 0; 5 # 1000; -1 # 100; 2 # 100; 0]%Q in
  sample_variance xs == 3 # 17500 /\
  var1_value xs == 3 # 17500 /\
  nth_error (rolling_std Sample.sqrt6 8 (map XNum xs)) 7
  = Some (Some (Sample.sqrt6 (var1_value xs))) /\
  nth_error (rolling_std Sample.sqrt6 8 (map XNum xs)) 6 = Some NaN.
Proof.
  cbv zeta. split; [vm_compute; reflexivity|]. split; [vm_compute; reflexivity|].
  split; reflexivity.
Qed.



(** Three different values: the largest is red, the smallest green. *)
Lemma normalized_position_witness :
  let df_plot := Sample.sort_ties_in_order (Dict.items Sample.spread) in
  let col := map snd df_plot in
  col_max col = Some (5 # 100) /\
  col_min col = Some (2 # 100) /\
  (~ (5 # 100) == (2 # 100) ->
   plot_data Sample.sort_ties_in_order Sample.spread =
   map (fun row => (fst row, snd row,
                    Some ((snd row - (2 # 100)) / ((5 # 100) - (2 # 100)))%Q))
       df_plot).
Proof.
  cbv zeta. split; [reflexivity|]. split; [reflexivity|].
  exact (proj2 (proj2 (proj2 (proj2
           (normalized_position_of_ranked_entries
              Sample.sort_ties_in_order Sample.spread (5 # 100) (2 # 100)
              eq_refl eq_refl))))).
Defined.

Lemma normalize_involutive_witness :
  normalized Sample.normalized_frame /\
  normalize Sample.to_float (normalize Sample.to_float Sample.normalized_frame)
  = Sample.normalized_frame /\
  normalize Sample.to_float Sample.normalized_frame = rev Sample.normalized_frame /\
  (normalize Sample.to_float Sample.normalized_frame = Sample.normalized_frame <->
   length Sample.normalized_frame <= 1).
Proof.
  assert (H : normalized Sample.normalized_frame).
  { split.
    - repeat constructor; eexists; reflexivity.
    - repeat constructor; simpl; lia. }
  split; [exact H|].
  exact (normalize_involutive_on_normalized Sample.to_float Sample.normalized_frame H).
Defined.

(** ** Where the code departs from the specification *)


(** C3.  Candles delivered oldest first come out newest first, and a
    repeated timestamp stays repeated. *)
Lemma normalize_sorts_counterexample :
  timestamps (normalize Sample.to_float Sample.ascending_candles)
  = [Some 2000; Some 1000]%Z /\
  ~ ascending (timestamps (normalize Sample.to_float Sample.ascending_candles)) /\
  timestamps (normalize Sample.to_float Sample.repeated_candles)
  = [Some 1000; Some 1000; Some 2000]%Z /\
  ~ NoDup (timestamps (normalize Sample.to_float Sample.repeated_candles)).
Proof.
  split; [reflexivity|]. split; [|split; [reflexivity|]].
  - intros H. inversion H as [|? ? _ Hf]. inversion Hf as [|? ? Hlt _].
    simpl in Hlt. lia.
  - intros H. inversion H as [|? ? Hn _]. apply Hn. now left.
Qed.


(** The numpy sort on the column of that ranking, which [sort_values] hands
    over in reverse: the partition around the median of three exchanges the
    positions between the first and the pivot in pairs. *)
Example argsort_of_eighteen_equal :
  Numpy.argsort (repeat (1 # 100) 18)
  = [0; 15; 14; 13; 12; 11; 10; 9; 8; 7; 6; 5; 4; 3; 2; 1; 16; 17] /\
  Pandas.nargsort (repeat (1 # 100) 18)
  = [0; 1; 16; 15; 14; 13; 12; 11; 10; 9; 8; 7; 6; 5; 4; 3; 2; 17].
Proof. split; reflexivity. Qed.

(** C6.  With a single entry, or with equal entries, the colour is missing
    and not one half. *)
Lemma degenerate_range_counterexample :
  plot_data Sample.sort_ties_in_order Sample.single = [("X", 1 # 100, NaN)] /\
  plot_data Sample.sort_ties_in_order Sample.all_equal
  = [("A", 1 # 100, NaN); ("B", 1 # 100, NaN)] /\
  ~ (forall bar, In bar (plot_data Sample.sort_ties_in_order Sample.single) ->
                 exists q, snd bar = Some q /\ q == 1 # 2).
Proof.
  split; [reflexivity|]. split; [reflexivity|].
  intros H. destruct (H ("X", 1 # 100, NaN)) as [q [Hq _]]; [now left|].
  discriminate.
Qed.


(** A list is delivered but a timestamp in it cannot be converted: the
    fetch raises, with the symbol and the text of the cause. *)
Example fetch_raises_on_unconvertible_timestamp :
  request Sample.now_ms Sample.get_kline "FARUSDT" 48 "15"
  = Ok (Sample.with_list Sample.far_rows) /\
  Sample.frame_of_kline Sample.far_rows
  = Raise (mkExn "OutOfBoundsDatetime" "cannot convert input with unit 'ms'") /\
  fetch_and_analyze_crypto_price Sample.sqrt6 Sample.to_float true Sample.now_ms
                                 Sample.get_kline Sample.frame_of_kline
                                 "FARUSDT" 48 "15" 8
  = Raise (ValueError
             "Error fetching data for FARUSDT: cannot convert input with unit 'ms'").
Proof. split; [reflexivity|]. split; reflexivity. Qed.

(** C8.  Four prices: four returns and four rolling values, not three. *)
Lemma series_length_counterexample :
  let df := analyze Sample.sqrt6 Sample.to_float true Sample.four_candles 8 in
  length (close_column Sample.to_float (rows df)) = 4 /\
  length (Returns df) = 4 /\
  length (Rolling_Std_4h df) = 4 /\
  length (Returns df) <> length (close_column Sample.to_float (rows df)) - 1.
Proof.
  cbv zeta. split; [reflexivity|]. split; [reflexivity|]. split; [reflexivity|].
  simpl. lia.
Qed.

(** C9.  A normalized frame of two rows is not a fixed point. *)
Lemma normalize_fixed_point_counterexample :
  normalized Sample.normalized_frame /\
  normalize Sample.to_float Sample.normalized_frame <> Sample.normalized_frame.
Proof.
  split.
  - split.
    + repeat constructor; eexists; reflexivity.
    + repeat constructor; simpl; lia.
  - simpl. intros H. discriminate.
Qed.

(** The batch on five symbols: one with enough history, one unreachable, one
    with too little history, one with an empty list, one without a list. *)
Example batch_of_five :
  exists out,
    fetch_data_and_plot Sample.sqrt6 Sample.to_float true Sample.now_ms
                        Sample.get_kline Sample.frame_of_kline Sample.sort_ties_in_order
                        ["BTCUSDT"; "DOWNUSDT"; "NEWUSDT"; "EMPTYUSDT"; "NOLISTUSDT"]
    = Ok out /\
    Dict.keys (result out) = ["BTCUSDT"] /\
    Dict.keys (dfs out) = ["BTCUSDT"] /\
    filter (fun ev => match ev with st_error _ => true | _ => false end) (ui out)
    = [st_error "Error fetching data for DOWNUSDT: Error fetching data for DOWNUSDT: provider unreachable";
       st_error "Error fetching data for EMPTYUSDT: single positional indexer is out-of-bounds";
       st_error "Error fetching data for NOLISTUSDT: Error fetching data for NOLISTUSDT: No data returned from API."].
Proof.
  eexists. split; [reflexivity|]. split; [reflexivity|]. split; reflexivity.
Qed.

(** ** The further properties at concrete inputs *)

(** A symbol with four candles. *)
Lemma short_history_witness :
  request Sample.now_ms Sample.get_kline "NEWUSDT" 48 "15"
  = Ok (Sample.with_list Sample.four_rows) /\
  response_list (Sample.with_list Sample.four_rows) = Some Sample.four_rows /\
  Sample.frame_of_kline Sample.four_rows = Ok Sample.four_candles /\
  1 <= length Sample.four_candles <= 8 /\
  loop_body Sample.sqrt6 Sample.to_float true Sample.now_ms Sample.get_kline
            Sample.frame_of_kline start "NEWUSDT" = Ok start.
Proof.
  split; [reflexivity|]. split; [reflexivity|]. split; [reflexivity|].
  split; [simpl; lia|].
  exact (proj2 (short_history_is_dropped_silently
                  Sample.sqrt6 Sample.to_float true Sample.now_ms Sample.get_kline
                  Sample.frame_of_kline
                  "NEWUSDT" (Sample.with_list Sample.four_rows)
                  Sample.four_rows Sample.four_candles start
                  eq_refl eq_refl eq_refl
                  (conj (le_S _ _ (le_S _ _ (le_S _ _ (le_n 1))))
                        (le_S _ _ (le_S _ _ (le_S _ _ (le_S _ _ (le_n 4)))))))).
Defined.

(** Four candles, window two, position two. *)
Lemma rolling_value_witness :
  nth_error (Rolling_Std_4h
               (analyze Sample.sqrt6 Sample.to_float true Sample.four_candles 2)) 2
  = Some (Some (Sample.sqrt6 (var1_value [2 # 100; -1 # 102]))) /\
  2 <= 2 /\ 2 <= 2 /\
  exists s, Sample.sqrt6 (var1_value [2 # 100; -1 # 102]) = Sample.sqrt6 s /\
            (0 <= s)%Q.
Proof.
  split; [reflexivity|].
  destruct (rolling_value_is_root_of_nonnegative
              Sample.sqrt6 Sample.to_float true Sample.four_candles 2 2
              (Sample.sqrt6 (var1_value [2 # 100; -1 # 102])) eq_refl)
    as [H1 [H2 [s [H3 [H4 _]]]]].
  split; [exact H1|]. split; [exact H2|]. exists s. now split.
Defined.

(** The symbol with ten candles: the nine newest closes. *)
Lemma nine_newest_witness :
  let ps := [110; 108; 109; 105; 106; 103; 104; 101; 102]%Q in
  request Sample.now_ms Sample.get_kline "BTCUSDT" 48 "15"
  = Ok (Sample.with_list Sample.ten_rows) /\
  Sample.frame_of_kline Sample.ten_rows = Ok Sample.ten_candles /\
  delivered_closes Sample.to_float (firstn 9 Sample.ten_candles) = map XNum ps /\
  length ps = 9 /\
  Forall (fun p => ~ p == 0) (tl ps) /\
  succeeds Sample.sqrt6 Sample.to_float true Sample.now_ms Sample.get_kline
           Sample.frame_of_kline "BTCUSDT"
           (Sample.sqrt6 (var1_value (simple_returns (rev ps))))
           (analyze Sample.sqrt6 Sample.to_float true Sample.ten_candles 8).
Proof.
  cbv zeta.
  assert (Hnz : Forall (fun p => ~ p == 0)
                  (tl [110; 108; 109; 105; 106; 103; 104; 101; 102]%Q)).
  { simpl. repeat constructor; intros H; vm_compute in H; discriminate. }
  split; [reflexivity|]. split; [reflexivity|]. split; [reflexivity|].
  split; [reflexivity|]. split; [exact Hnz|].
  exact (proj1 (proj2 (ranking_value_from_nine_newest_candles
                         Sample.sqrt6 Sample.to_float true Sample.now_ms
                         Sample.get_kline Sample.frame_of_kline "BTCUSDT"
                         (Sample.with_list Sample.ten_rows) Sample.ten_rows
                         Sample.ten_candles
                         [110; 108; 109; 105; 106; 103; 104; 101; 102]%Q
                         eq_refl eq_refl eq_refl eq_refl eq_refl Hnz))).
Defined.

(** Three distinct symbols, the second unreachable, the third too short. *)
Lemma input_order_witness :
  NoDup ["NEWUSDT"; "DOWNUSDT"; "BTCUSDT"] /\
  exists out,
    fetch_data_and_plot Sample.sqrt6 Sample.to_float true Sample.now_ms
                        Sample.get_kline Sample.frame_of_kline Sample.sort_ties_in_order
                        ["NEWUSDT"; "DOWNUSDT"; "BTCUSDT"] = Ok out /\
    Dict.keys (result out)
    = filter (collected Sample.sqrt6 Sample.to_float true Sample.now_ms Sample.get_kline Sample.frame_of_kline)
             ["NEWUSDT"; "DOWNUSDT"; "BTCUSDT"].
Proof.
  assert (Hnd : NoDup ["NEWUSDT"; "DOWNUSDT"; "BTCUSDT"]).
  { repeat constructor; simpl; intuition discriminate. }
  split; [exact Hnd|].
  destruct (ranking_keeps_input_order
              Sample.sqrt6 Sample.to_float true Sample.now_ms Sample.get_kline Sample.frame_of_kline
              Sample.sort_ties_in_order ["NEWUSDT"; "DOWNUSDT"; "BTCUSDT"] Hnd)
    as [out [H1 [H2 _]]].
  exists out. now split.
Defined.

Lemma spread_range : ~ (5 # 100) == (2 # 100).
Proof. intros H. vm_compute in H. discriminate. Qed.

(** Three different values. *)
Lemma colour_witness :
  let col := map snd (Sample.sort_ties_in_order (Dict.items Sample.spread)) in
  col_max col = Some (5 # 100) /\
  col_min col = Some (2 # 100) /\
  ~ (5 # 100) == (2 # 100) /\
  forall s v c, In (s, v, c) (plot_data Sample.sort_ties_in_order Sample.spread) ->
    exists q, c = Some q /\ (0 <= q)%Q /\ (q <= 1)%Q /\
              (v == 5 # 100 -> q == 1) /\ (v == 2 # 100 -> q == 0).
Proof.
  cbv zeta. split; [reflexivity|]. split; [reflexivity|].
  split; [exact spread_range|].
  exact (colour_between_zero_and_one Sample.sort_ties_in_order Sample.spread
           (5 # 100) (2 # 100) eq_refl eq_refl spread_range).
Defined.

Lemma bars_witness :
  sort_contract Sample.sort_ties_in_order /\
  StronglySorted by_colour_desc (plot_data Sample.sort_ties_in_order Sample.spread) /\
  exists s v q,
    hd_error (plot_data Sample.sort_ties_in_order Sample.spread) = Some (s, v, Some q) /\
    q == 1.
Proof.
  split; [exact sort_ties_in_order_contract|].
  exact (bars_run_from_colour_one_downwards Sample.sort_ties_in_order Sample.spread
           (5 # 100) (2 # 100) sort_ties_in_order_contract eq_refl eq_refl spread_range).
Defined.

(** A fresh session: a symbol is typed and added, the data reloaded with
    the default selection. *)
Lemma reload_witness :
  let w := mkWidgets "BTCUSDT" true (fun _ default => default) true in
  NoDup (cryptos_of None) /\
  reload_button w = true /\
  (forall options default, multiselect w options default = default) /\
  cryptos_after (cryptos_of None) w = (top_20_cryptos ++ ["BTCUSDT"])%list /\
  exists out before,
    main Sample.sqrt6 Sample.to_float true Sample.now_ms Sample.get_kline Sample.frame_of_kline
         Sample.sort_ties_in_order None w
    = Ok (Some (cryptos_after (cryptos_of None) w),
          (before ++ map st_batch (ui out))%list) /\
    Dict.keys (result out)
    = filter (collected Sample.sqrt6 Sample.to_float true Sample.now_ms Sample.get_kline Sample.frame_of_kline)
             (cryptos_after (cryptos_of None) w).
Proof.
  cbv zeta. split; [exact top_20_cryptos_nodup|]. split; [reflexivity|].
  split; [reflexivity|]. split; [reflexivity|].
  destruct (reload_ranks_session_symbols_in_order
              Sample.sqrt6 Sample.to_float true Sample.now_ms Sample.get_kline Sample.frame_of_kline
              Sample.sort_ties_in_order None
              (mkWidgets "BTCUSDT" true (fun _ default => default) true)
              top_20_cryptos_nodup eq_refl (fun _ _ => eq_refl))
    as [out [before [H1 [_ [_ [H2 _]]]]]].
  exists out, before. now split.
Defined.

(** That run, evaluated: the title, the success message, nineteen errors
    for the built-in symbols (unreachable here) and the two charts of the
    symbol added. *)
Example reload_in_fresh_session :
  match main Sample.sqrt6 Sample.to_float true Sample.now_ms Sample.get_kline Sample.frame_of_kline
             Sample.sort_ties_in_order None
             (mkWidgets "BTCUSDT" true (fun _ default => default) true)
  with
  | Ok (state, page) =>
      state = Some (top_20_cryptos ++ ["BTCUSDT"])%list /\
      firstn 2 page
      = [st_title "Rolling Standard Deviation of Top 20 Cryptocurrencies";
         st_success "Added BTCUSDT to the list!"] /\
      length page = 2 + 19 + 2
  | Raise _ => False
  end.
Proof. vm_compute. repeat split; reflexivity. Qed.
